(** * Challenge membership and progress tracking (src/js/challenge.js)

    A shallow embedding of the challenge module of the fitness-challenge
    application: the catalog accessors, joinChallenge, leaveChallenge,
    updateChallengeProgress, calculateChallengeProgress and
    syncChallengeProgress, with the two browser stores (localStorage and
    sessionStorage) rendered as an explicit state that every operation
    takes and returns.

    Modelling conventions.
    - A JavaScript number is an exact rational ([Q]); [NaN] (arithmetic
      on a missing field) is a separate constructor of [JsNumber].
      Rounding error of IEEE doubles and their overflow to an infinity
      are not modelled.
    - An optional object field is an [option]; [None] is JavaScript's
      [undefined].
    - [new Date()] / [Date.now()] is the argument [now] (milliseconds) of
      the operation that reads the clock.
    - [JSON.parse (JSON.stringify x)] is the identity on the records
      below, so the stores hold the records themselves. *)

From Stdlib Require Import QArith Qround Qabs ZArith Lia.
From stdpp Require Import gmap strings list fin_maps pretty sorting.

Local Open Scope Q_scope.

(** ** JavaScript numbers, truthiness and the Math functions used *)

Module Js.

Inductive JsNumber : Type :=
| Num (q : Q)
| NaN.

(** [if (x)] on a number: zero is falsy. *)
Definition truthyQ (q : Q) : bool := negb (Qeq_bool q 0).

(** [if (o.field)] on an optional numeric field: [undefined] and zero
    are falsy. *)
Definition truthy (o : option Q) : bool :=
  match o with
  | Some q => truthyQ q
  | None => false
  end.

(** [a || b] on optional numeric values. *)
Definition or (a b : option Q) : option Q :=
  if truthy a then a else b.

(** [a || b] where [b] is a number: the result is a number. *)
Definition or_num (a : option Q) (b : Q) : Q :=
  match a with
  | Some q => if truthyQ q then q else b
  | None => b
  end.

(** ToNumber of an optional numeric field: [undefined] becomes [NaN]. *)
Definition toNumber (o : option Q) : JsNumber :=
  match o with
  | Some q => Num q
  | None => NaN
  end.

Definition add (a b : JsNumber) : JsNumber :=
  match a, b with
  | Num x, Num y => Num (x + y)
  | _, _ => NaN
  end.

Definition mul (a b : JsNumber) : JsNumber :=
  match a, b with
  | Num x, Num y => Num (x * y)
  | _, _ => NaN
  end.

(** Every division of the module has a divisor that the code has just
    tested to be non-zero ([if (progress.totalX)], [criteriaCount > 0]),
    so no division by zero arises and the value of [Qdiv] at zero is
    never used.  A quotient beyond the range of a double, which
    JavaScript turns into an infinity, stays a rational here. *)
Definition div (a b : JsNumber) : JsNumber :=
  match a, b with
  | Num x, Num y => Num (x / y)
  | _, _ => NaN
  end.

(** [Math.round]: the nearest integer, halves towards plus infinity. *)
Definition roundQ (x : Q) : Z := Qfloor (x + (1 # 2)).

Definition Math_round (a : JsNumber) : JsNumber :=
  match a with
  | Num x => Num (inject_Z (roundQ x))
  | NaN => NaN
  end.

Definition minQ (x y : Q) : Q := if Qle_bool x y then x else y.
Definition maxQ (x y : Q) : Q := if Qle_bool x y then y else x.

(** [Math.min] and [Math.max] return [NaN] as soon as an argument is. *)
Definition Math_min (a b : JsNumber) : JsNumber :=
  match a, b with
  | Num x, Num y => Num (minQ x y)
  | _, _ => NaN
  end.

Definition Math_max (a b : JsNumber) : JsNumber :=
  match a, b with
  | Num x, Num y => Num (maxQ x y)
  | _, _ => NaN
  end.

(** [a >= b]: false as soon as an operand is [NaN]. *)
Definition ge (a b : JsNumber) : bool :=
  match a, b with
  | Num x, Num y => Qle_bool y x
  | _, _ => false
  end.

(** A percentage in the closed interval from 0 to 100. *)
Definition in_percent_range (a : JsNumber) : Prop :=
  match a with
  | Num x => 0 <= x <= 100
  | NaN => False
  end.

End Js.

(** ** Data model *)

Inductive Status : Type := active | completed | abandoned.

Global Instance Status_eq_dec : EqDecision Status.
Proof. solve_decision. Defined.

(** The progress snapshot of a user challenge.  joinChallenge always
    writes the day and workout counters; the other pairs exist only when
    the challenge has the matching goal (or, for a [current*] field, once
    updateChallengeProgress has created it). *)
Record Progress : Type := mkProgress {
  currentDay : Q;
  totalDays : Q;
  completedWorkouts : Q;
  totalWorkouts : Q;
  currentDistance : option Q;
  totalDistance : option Q;
  currentCalories : option Q;
  totalCalories : option Q;
  currentMinutes : option Q;
  totalMinutes : option Q;
  currentSessions : option Q;
  totalSessions : option Q
}.

Record UserChallenge : Type := mkUserChallenge {
  uc_id : string;
  userId : string;
  challengeId : string;
  startDate : Z;
  endDate : Z;
  status : Status;
  progress : Progress;
  joinedAt : Z;
  completedAt : option Z
}.

(** A catalog entry, with the fields the module reads or writes; [goals]
    is the sparse object of numeric targets, keyed by goal name. *)
Record Challenge : Type := mkChallenge {
  id : string;
  title : string;
  category : string;
  duration : Z;
  participants : Z;
  goals : gmap string Q
}.

(** The session user returned by [getCurrentUser]. *)
Record User : Type := mkUser {
  user_id : string;
  user_name : string;
  user_email : string
}.

(** The argument of updateChallengeProgress. *)
Record ProgressData : Type := mkProgressData {
  distance : option Q;
  calories : option Q;
  minutes : option Q;
  workoutCompleted : option bool
}.

(** ** Progress aggregator *)

(** One [if (progress.totalX) { totalPercentage += ...; criteriaCount++ }]
    block, on the pair (totalPercentage, criteriaCount). *)
Definition criterion (current total : option Q) (acc : Js.JsNumber * nat)
  : Js.JsNumber * nat :=
  if Js.truthy total
  then (Js.add (fst acc)
          (Js.mul (Js.div (Js.toNumber current) (Js.toNumber total)) (Js.Num 100)),
        S (snd acc))
  else acc.

Definition criteria (p : Progress) : Js.JsNumber * nat :=
  let acc := (Js.Num 0, O) in
  let acc := criterion (Some (completedWorkouts p)) (Some (totalWorkouts p)) acc in
  let acc := criterion (currentDistance p) (totalDistance p) acc in
  let acc := criterion (currentCalories p) (totalCalories p) acc in
  let acc := criterion (currentMinutes p) (totalMinutes p) acc in
  let acc := criterion (currentSessions p) (totalSessions p) acc in
  acc.

(** The body of calculateChallengeProgress, on
    [const progress = userChallenge.progress]. *)
Definition progressPercentage (progress : Progress) : Js.JsNumber :=
  let '(totalPercentage, criteriaCount) := criteria progress in
  if (0 <? criteriaCount)%nat
  then Js.Math_min
         (Js.Math_round (Js.div totalPercentage (Js.Num (inject_Z (Z.of_nat criteriaCount)))))
         (Js.Num 100)
  else Js.Num 0.

Definition calculateChallengeProgress (userChallenge : UserChallenge) : Js.JsNumber :=
  progressPercentage (progress userChallenge).

(** [safePercentage] of generateProgressBar, the consumer of the
    percentage: [Math.min(Math.max(percentage, 0), 100)]. *)
Definition safePercentage (percentage : Js.JsNumber) : Js.JsNumber :=
  Js.Math_min (Js.Math_max percentage (Js.Num 0)) (Js.Num 100).

(** ** The two browser stores *)

(** [challenges] is the array under localStorage key
    fitchallenge_challenges and [allUserChallenges] the object under
    fitchallenge_user_challenges (a missing key reads as the empty array,
    respectively the empty object).  [session] is what [getCurrentUser]
    of auth.js returns while the operation runs: the user of an unexpired
    session, or nothing. *)
Record Store : Type := mkStore {
  challenges : list Challenge;
  allUserChallenges : gmap string (list UserChallenge);
  session : option User
}.

Definition MAX_ACTIVE_CHALLENGES : nat := 5.

Definition RUNNING : string := "running".
Definition CYCLING : string := "cycling".

(** Field assignments on the records above. *)
Definition set_status (v : Status) (uc : UserChallenge) : UserChallenge :=
  mkUserChallenge (uc_id uc) (userId uc) (challengeId uc) (startDate uc)
    (endDate uc) v (progress uc) (joinedAt uc) (completedAt uc).

Definition set_endDate (v : Z) (uc : UserChallenge) : UserChallenge :=
  mkUserChallenge (uc_id uc) (userId uc) (challengeId uc) (startDate uc)
    v (status uc) (progress uc) (joinedAt uc) (completedAt uc).

Definition set_completedAt (v : Z) (uc : UserChallenge) : UserChallenge :=
  mkUserChallenge (uc_id uc) (userId uc) (challengeId uc) (startDate uc)
    (endDate uc) (status uc) (progress uc) (joinedAt uc) (Some v).

Definition set_progress (v : Progress) (uc : UserChallenge) : UserChallenge :=
  mkUserChallenge (uc_id uc) (userId uc) (challengeId uc) (startDate uc)
    (endDate uc) (status uc) v (joinedAt uc) (completedAt uc).

Definition add_participants (increment : Z) (c : Challenge) : Challenge :=
  mkChallenge (id c) (title c) (category c) (duration c)
    (participants c + increment)%Z (goals c).

Definition set_challenges (v : list Challenge) (s : Store) : Store :=
  mkStore v (allUserChallenges s) (session s).

Definition set_allUserChallenges (v : gmap string (list UserChallenge)) (s : Store) : Store :=
  mkStore (challenges s) v (session s).

(** [Array.prototype.find] and [findIndex]: the first element that
    satisfies the predicate, respectively its index. *)
Definition find {A} (P : A → Prop) `{∀ x, Decision (P x)} (l : list A) : option A :=
  snd <$> list_find P l.

Definition findIndex {A} (P : A → Prop) `{∀ x, Decision (P x)} (l : list A) : option nat :=
  fst <$> list_find P l.

(** *** auth.js *)

Definition getCurrentUser (s : Store) : option User := session s.

Definition isLoggedIn (s : Store) : bool :=
  match getCurrentUser s with
  | Some _ => true
  | None => false
  end.

(** *** Catalog accessors *)

Definition getChallenges (s : Store) : list Challenge := challenges s.

Definition getChallengeById (challengeId : string) (s : Store) : option Challenge :=
  find (λ c, id c = challengeId) (getChallenges s).

(** [challenges[challengeIndex].participants += increment], when the
    index exists. *)
Definition updateChallengeParticipants (challengeId : string) (increment : Z)
    (s : Store) : Store :=
  let challenges := getChallenges s in
  match findIndex (λ c, id c = challengeId) challenges with
  | Some challengeIndex =>
      set_challenges (alter (add_participants increment) challengeIndex challenges) s
  | None => s
  end.

(** *** Membership accessors *)

(** A string used as a condition: [undefined], [null] and the empty
    string are falsy. *)
Definition truthy_id (o : option string) : bool :=
  match o with
  | Some u => negb (String.eqb u "")
  | None => false
  end.

(** [userId || getCurrentUser()?.id], then [allUserChallenges[user] || []]. *)
Definition getUserChallenges (userId : option string) (s : Store) : list UserChallenge :=
  let user := if truthy_id userId then userId else user_id <$> getCurrentUser s in
  match user with
  | Some u =>
      if truthy_id (Some u) then default [] (allUserChallenges s !! u) else []
  | None => []
  end.

Definition hasJoinedChallenge (challengeId' : string) (userId : option string)
    (s : Store) : bool :=
  existsb (λ uc, bool_decide (challengeId uc = challengeId'))
    (getUserChallenges userId s).

(** *** Progress seeded from the goals of a challenge *)

(** The object built by initializeChallengeProgress: at most four
    [current*]/[total*] pairs. *)
Record GoalProgress : Type := mkGoalProgress {
  gp_currentDistance : option Q;
  gp_totalDistance : option Q;
  gp_currentCalories : option Q;
  gp_totalCalories : option Q;
  gp_currentMinutes : option Q;
  gp_totalMinutes : option Q;
  gp_currentSessions : option Q;
  gp_totalSessions : option Q
}.

(** [if (challenge.goals.g) { progress.currentX = 0; progress.totalX = g }] *)
Definition seed_current (goal : option Q) : option Q :=
  if Js.truthy goal then Some 0 else None.

Definition seed_total (goal : option Q) : option Q :=
  if Js.truthy goal then goal else None.

Definition initializeChallengeProgress (challenge : Challenge) : GoalProgress :=
  let g := goals challenge in
  {| gp_currentDistance := seed_current (g !! "totalDistance");
     gp_totalDistance := seed_total (g !! "totalDistance");
     gp_currentCalories := seed_current (g !! "caloriesBurned");
     gp_totalCalories := seed_total (g !! "caloriesBurned");
     gp_currentMinutes := seed_current (g !! "totalMinutes");
     gp_totalMinutes := seed_total (g !! "totalMinutes");
     gp_currentSessions := seed_current (g !! "totalSessions");
     gp_totalSessions := seed_total (g !! "totalSessions") |}.

(** [endDate.setDate(endDate.getDate() + durationDays)], in milliseconds
    (days of 86400000 ms; daylight-saving shifts are not modelled). *)
Definition calculateEndDate (now durationDays : Z) : Z :=
  (now + durationDays * 86400000)%Z.

(** ** Results *)

Record JoinResult : Type := mkJoinResult {
  join_success : bool;
  join_message : string;
  join_userChallenge : option UserChallenge
}.

Record LeaveResult : Type := mkLeaveResult {
  leave_success : bool;
  leave_message : string
}.

Record UpdateResult : Type := mkUpdateResult {
  update_success : bool;
  update_message : string;
  update_progress : option Progress;
  update_completionPercentage : option Js.JsNumber
}.

Definition join_failure (m : string) : JoinResult := mkJoinResult false m None.
Definition leave_failure (m : string) : LeaveResult := mkLeaveResult false m.
Definition update_failure (m : string) : UpdateResult := mkUpdateResult false m None None.

Definition msg_login_to_join : string := "You must be logged in to join challenges".
Definition msg_login : string := "You must be logged in".
Definition msg_challenge_not_found : string := "Challenge not found".
Definition msg_already_joined : string := "You have already joined this challenge".
Definition msg_active_limit : string :=
  "You can only have " +:+ pretty MAX_ACTIVE_CHALLENGES +:+ " active challenges at a time".
Definition msg_not_joined : string := "You have not joined this challenge".
Definition msg_joined (challenge : Challenge) : string :=
  "Successfully joined " +:+ title challenge +:+ "!".

(** ** Membership store: join and leave *)

(** The [progress] literal of joinChallenge: the day and workout
    counters, then the spread of initializeChallengeProgress. *)
Definition initialProgress (challenge : Challenge) : Progress :=
  let gp := initializeChallengeProgress challenge in
  {| currentDay := 1;
     totalDays := inject_Z (duration challenge);
     completedWorkouts := 0;
     totalWorkouts :=
       Js.or_num (goals challenge !! "totalWorkouts")
         (inject_Z (duration challenge));
     currentDistance := gp_currentDistance gp;
     totalDistance := gp_totalDistance gp;
     currentCalories := gp_currentCalories gp;
     totalCalories := gp_totalCalories gp;
     currentMinutes := gp_currentMinutes gp;
     totalMinutes := gp_totalMinutes gp;
     currentSessions := gp_currentSessions gp;
     totalSessions := gp_totalSessions gp |}.

(** The user challenge created by joinChallenge. *)
Definition newUserChallenge (now : Z) (user : User) (challengeId' : string)
    (challenge : Challenge) : UserChallenge :=
  {| uc_id := user_id user +:+ "_" +:+ challengeId' +:+ "_" +:+ pretty now;
     userId := user_id user;
     challengeId := challengeId';
     startDate := now;
     endDate := calculateEndDate now (duration challenge);
     status := active;
     progress := initialProgress challenge;
     joinedAt := now;
     completedAt := None |}.

Definition joinChallenge (now : Z) (challengeId' : string) (s : Store)
  : JoinResult * Store :=
  if negb (isLoggedIn s) then (join_failure msg_login_to_join, s) else
  match getCurrentUser s with
  | None => (join_failure "An error occurred while joining the challenge", s)
  | Some user =>
    match getChallengeById challengeId' s with
    | None => (join_failure msg_challenge_not_found, s)
    | Some challenge =>
      if hasJoinedChallenge challengeId' None s
      then (join_failure msg_already_joined, s)
      else
        let userChallenges := getUserChallenges None s in
        let activeChallenges := filter (λ uc, status uc = active) userChallenges in
        if (MAX_ACTIVE_CHALLENGES <=? length activeChallenges)%nat
        then (join_failure msg_active_limit, s)
        else
          let userChallenge := newUserChallenge now user challengeId' challenge in
          let all := allUserChallenges s in
          let mine := default [] (all !! user_id user) in
          let all := <[user_id user := mine ++ [userChallenge]]> all in
          let s := set_allUserChallenges all s in
          let s := updateChallengeParticipants challengeId' 1 s in
          (mkJoinResult true (msg_joined challenge) (Some userChallenge), s)
    end
  end.

(** [status = 'abandoned'] and [endDate = new Date().toISOString()] on
    the record that leaveChallenge has found. *)
Definition abandon (now : Z) (uc : UserChallenge) : UserChallenge :=
  set_endDate now (set_status abandoned uc).

(** In leaveChallenge and updateChallengeProgress the login check and the
    read of the current user that follows it are one match on
    [getCurrentUser]. *)
Definition leaveChallenge (now : Z) (challengeId' : string) (s : Store)
  : LeaveResult * Store :=
  match getCurrentUser s with
  | None => (leave_failure msg_login, s)
  | Some user =>
    let all := allUserChallenges s in
    match all !! user_id user with
    | None => (leave_failure msg_challenge_not_found, s)
    | Some userChallenges =>
      match findIndex (λ uc, challengeId uc = challengeId') userChallenges with
      | None => (leave_failure msg_not_joined, s)
      | Some challengeIndex =>
        let userChallenges := alter (abandon now) challengeIndex userChallenges in
        let s := set_allUserChallenges (<[user_id user := userChallenges]> all) s in
        let s := updateChallengeParticipants challengeId' (-1) s in
        (mkLeaveResult true "Challenge abandoned", s)
      end
    end
  end.

(** ** Progress mutator *)

(** [if (progressData.x) { progress.currentX = (progress.currentX || 0) + progressData.x }] *)
Definition accumulate (current delta : option Q) : option Q :=
  match delta with
  | Some d => if Js.truthyQ d then Some (Js.or_num current 0 + d) else current
  | None => current
  end.

(** [if (progressData.workoutCompleted)] *)
Definition truthy_flag (o : option bool) : bool :=
  match o with
  | Some b => b
  | None => false
  end.

(** The field updates of updateChallengeProgress, in source order. *)
Definition applyProgressData (progressData : ProgressData) (p : Progress) : Progress :=
  let currentDistance' := accumulate (currentDistance p) (distance progressData) in
  let currentCalories' := accumulate (currentCalories p) (calories progressData) in
  let currentMinutes' := accumulate (currentMinutes p) (minutes progressData) in
  let completedWorkouts' :=
    if truthy_flag (workoutCompleted progressData)
    then completedWorkouts p + 1 else completedWorkouts p in
  let currentDay' :=
    if truthy_flag (workoutCompleted progressData)
    then Js.minQ (currentDay p + 1) (totalDays p) else currentDay p in
  {| currentDay := currentDay';
     totalDays := totalDays p;
     completedWorkouts := completedWorkouts';
     totalWorkouts := totalWorkouts p;
     currentDistance := currentDistance';
     totalDistance := totalDistance p;
     currentCalories := currentCalories';
     totalCalories := totalCalories p;
     currentMinutes := currentMinutes';
     totalMinutes := totalMinutes p;
     currentSessions := currentSessions p;
     totalSessions := totalSessions p |}.

(** The completion check that follows the field updates. *)
Definition checkCompleted (now : Z) (userChallenge : UserChallenge) : UserChallenge :=
  let completionPercentage := calculateChallengeProgress userChallenge in
  if Js.ge completionPercentage (Js.Num 100)
  then set_completedAt now (set_status completed userChallenge)
  else userChallenge.

(** What the call does to the record it has found: the field updates,
    then the completion check. *)
Definition updatedUserChallenge (now : Z) (progressData : ProgressData)
    (userChallenge : UserChallenge) : UserChallenge :=
  checkCompleted now
    (set_progress (applyProgressData progressData (progress userChallenge)) userChallenge).

(** [completionPercentage] is computed after the field updates and
    before the status is touched. *)
Definition completionPercentageAfter (progressData : ProgressData)
    (userChallenge : UserChallenge) : Js.JsNumber :=
  calculateChallengeProgress
    (set_progress (applyProgressData progressData (progress userChallenge)) userChallenge).

Definition updateChallengeProgress (now : Z) (challengeId' : string)
    (progressData : ProgressData) (s : Store) : UpdateResult * Store :=
  match getCurrentUser s with
  | None => (update_failure msg_login, s)
  | Some user =>
    let all := allUserChallenges s in
    match all !! user_id user with
    | None => (update_failure msg_challenge_not_found, s)
    | Some userChallenges =>
      match findIndex (λ uc, challengeId uc = challengeId') userChallenges with
      | None => (update_failure msg_not_joined, s)
      | Some challengeIndex =>
        match userChallenges !! challengeIndex with
        | None => (update_failure "An error occurred", s)
        | Some userChallenge =>
          let completionPercentage :=
            completionPercentageAfter progressData userChallenge in
          let userChallenge' := updatedUserChallenge now progressData userChallenge in
          let userChallenges :=
            alter (updatedUserChallenge now progressData) challengeIndex userChallenges in
          let s := set_allUserChallenges (<[user_id user := userChallenges]> all) s in
          (mkUpdateResult true "Progress updated" (Some (progress userChallenge'))
             (Some completionPercentage), s)
        end
      end
    end
  end.

(** ** Sync merger *)

(** What the two measurement sources return.  A fetch that throws (no
    access token, network or HTTP error) is [None] at the call site. *)
Record StravaActivity : Type := mkStravaActivity {
  act_distance : Q;
  act_calories : option Q
}.

Record FitbitDistance : Type := mkFitbitDistance {
  fd_distance : option Q
}.

Record FitbitSummary : Type := mkFitbitSummary {
  steps : option Q;
  caloriesOut : option Q;
  distances : option (list FitbitDistance)
}.

Record FitbitDaily : Type := mkFitbitDaily {
  summary : option FitbitSummary
}.

Record StravaSync : Type := mkStravaSync {
  strava_distance : Q;
  strava_calories : Q;
  strava_activities : nat
}.

Record FitbitSync : Type := mkFitbitSync {
  fitbit_steps : Q;
  fitbit_calories : Q;
  fitbit_distance : Q
}.

Record SyncedData : Type := mkSyncedData {
  strava : option StravaSync;
  fitbit : option FitbitSync
}.

Record SyncResult : Type := mkSyncResult {
  sync_success : bool;
  sync_message : string;
  sync_syncedData : option SyncedData
}.

Definition msg_nothing_to_sync : string :=
  "No data available to sync. Please connect your fitness apps.".

(** [syncedData.strava = { distance: ..., calories: ..., activities: ... }] *)
Definition stravaTotals (activities : list StravaActivity) : StravaSync :=
  {| strava_distance :=
       foldl (λ sum act, sum + act_distance act / 1000) 0 activities;
     strava_calories :=
       foldl (λ sum act, sum + Js.or_num (act_calories act) 0) 0 activities;
     strava_activities := length activities |}.

(** Optional chaining [o?.field]. *)
Definition chain {A B : Type} (o : option A) (field : A → option B) : option B :=
  match o with
  | Some x => field x
  | None => None
  end.

(** [syncedData.fitbit = { steps: ..., calories: ..., distance: ... }] *)
Definition fitbitTotals (fitbitData : FitbitDaily) : FitbitSync :=
  let summary' := summary fitbitData in
  {| fitbit_steps := Js.or_num (chain summary' steps) 0;
     fitbit_calories := Js.or_num (chain summary' caloriesOut) 0;
     fitbit_distance :=
       Js.or_num (chain (chain (chain summary' distances) head) fd_distance) 0 |}.

(** The first two try blocks of syncChallengeProgress: Strava is asked
    only for running and cycling challenges. *)
Definition collectSyncedData (challenge : Challenge)
    (stravaResponse : option (list StravaActivity))
    (fitbitResponse : option FitbitDaily) : SyncedData :=
  {| strava :=
       if bool_decide (category challenge = RUNNING)
          || bool_decide (category challenge = CYCLING)
       then stravaTotals <$> stravaResponse
       else None;
     fitbit := fitbitTotals <$> fitbitResponse |}.

(** The object [progressUpdate] handed to updateChallengeProgress. *)
Definition progressUpdate (syncedData : SyncedData) : ProgressData :=
  {| distance :=
       Js.or (Js.or (strava_distance <$> strava syncedData)
                (fitbit_distance <$> fitbit syncedData)) (Some 0);
     calories :=
       Js.or (Js.or (strava_calories <$> strava syncedData)
                (fitbit_calories <$> fitbit syncedData)) (Some 0);
     minutes := None;
     workoutCompleted := None |}.

(** [Object.keys(syncedData).length > 0] *)
Definition hasSyncedData (syncedData : SyncedData) : bool :=
  match strava syncedData, fitbit syncedData with
  | None, None => false
  | _, _ => true
  end.

Definition syncChallengeProgress (now : Z) (challengeId' : string)
    (stravaResponse : option (list StravaActivity))
    (fitbitResponse : option FitbitDaily) (s : Store) : SyncResult * Store :=
  match getChallengeById challengeId' s with
  | None => (mkSyncResult false msg_challenge_not_found None, s)
  | Some challenge =>
    let syncedData := collectSyncedData challenge stravaResponse fitbitResponse in
    if hasSyncedData syncedData
    then
      let s := snd (updateChallengeProgress now challengeId' (progressUpdate syncedData) s) in
      (mkSyncResult true "Progress synced successfully" (Some syncedData), s)
    else (mkSyncResult false msg_nothing_to_sync None, s)
  end.

(** ** Seeded catalog *)

(** The catalog written by initializeDefaultChallenges (goal targets as
    in the source, other descriptive fields left out). *)
Definition runningChallenge : Challenge :=
  {| id := "1"; title := "30-Day Running Challenge"; category := "running";
     duration := 30; participants := 2453;
     goals := {[ "totalDistance" := 50; "totalWorkouts" := 20; "avgPace" := 13 # 2 ]} |}.

Definition yogaChallenge : Challenge :=
  {| id := "2"; title := "Yoga Flow 14-Day"; category := "yoga";
     duration := 14; participants := 1892;
     goals := {[ "totalSessions" := 14; "totalMinutes" := 280 ]} |}.

Definition defaultChallenges : list Challenge :=
  [ runningChallenge;
    yogaChallenge;
    {| id := "3"; title := "Strength Builder 60-Day"; category := "strength";
       duration := 60; participants := 3721;
       goals := {[ "totalWorkouts" := 40; "totalSets" := 480; "weightLifted" := 50000 ]} |};
    {| id := "4"; title := "HIIT Burn 30-Day"; category := "hiit";
       duration := 30; participants := 1234;
       goals := {[ "totalWorkouts" := 20; "caloriesBurned" := 10000; "totalMinutes" := 400 ]} |};
    {| id := "5"; title := "Cycling Endurance 30-Day"; category := "cycling";
       duration := 30; participants := 987;
       goals := {[ "totalDistance" := 300; "totalRides" := 15; "elevationGain" := 2000 ]} |} ].

Definition initializeDefaultChallenges (s : Store) : Store :=
  match getChallenges s with
  | [] => set_challenges defaultChallenges s
  | _ => s
  end.

(** The demo account of auth.js, logged in on a fresh installation. *)
Definition demoUser : User :=
  {| user_id := "1"; user_name := "Demo User"; user_email := "demo@fitchallenge.com" |}.

Definition freshStore : Store :=
  initializeDefaultChallenges (mkStore [] ∅ (Some demoUser)).

(** ** Notions used in the statements *)

(** The records of a user as the operations read them from the store. *)
Definition recordsOf (user : User) (s : Store) : list UserChallenge :=
  default [] (allUserChallenges s !! user_id user).

(** The record of a user that leaveChallenge and updateChallengeProgress
    act on: the first one for the challenge. *)
Definition recordFor (user : User) (challengeId' : string) (s : Store)
  : option UserChallenge :=
  find (λ uc, challengeId uc = challengeId') (recordsOf user s).

(** The store after a successful join. *)
Definition joinedStore (now : Z) (user : User) (challengeId' : string)
    (challenge : Challenge) (s : Store) : Store :=
  updateChallengeParticipants challengeId' 1
    (set_allUserChallenges
       (<[user_id user :=
            recordsOf user s ++ [newUserChallenge now user challengeId' challenge]]>
          (allUserChallenges s))
       s).

(** The result of a successful updateChallengeProgress on the record
    [userChallenge]. *)
Definition updateResult (now : Z) (progressData : ProgressData)
    (userChallenge : UserChallenge) : UpdateResult :=
  mkUpdateResult true "Progress updated"
    (Some (progress (updatedUserChallenge now progressData userChallenge)))
    (Some (completionPercentageAfter progressData userChallenge)).

(** An optional number that is missing or zero: a falsy one. *)
Definition absent_or_zero (a : option Q) : Prop :=
  a = None ∨ ∃ x, a = Some x ∧ x == 0.

(** No truthy [total*] field: no criterion. *)
Definition no_criteria (p : Progress) : Prop :=
  Js.truthyQ (totalWorkouts p) = false ∧
  Js.truthy (totalDistance p) = false ∧
  Js.truthy (totalCalories p) = false ∧
  Js.truthy (totalMinutes p) = false ∧
  Js.truthy (totalSessions p) = false.

(** A tracked pair is sound when its current value is present and not
    negative and its target is positive. *)
Definition pair_sound (current total : option Q) : Prop :=
  Js.truthy total = true →
  ∃ c t, current = Some c ∧ total = Some t ∧ 0 <= c ∧ 0 < t.

Definition progress_sound (p : Progress) : Prop :=
  pair_sound (Some (completedWorkouts p)) (Some (totalWorkouts p)) ∧
  pair_sound (currentDistance p) (totalDistance p) ∧
  pair_sound (currentCalories p) (totalCalories p) ∧
  pair_sound (currentMinutes p) (totalMinutes p) ∧
  pair_sound (currentSessions p) (totalSessions p).

Definition acc_nonneg (acc : Js.JsNumber * nat) : Prop :=
  ∃ x, fst acc = Js.Num x ∧ 0 <= x.

(** A goal of the challenge seeds a tracking pair exactly when it is
    present and not zero; the pair then starts at 0 against the target. *)
Definition seeded_pair (goal current total : option Q) : Prop :=
  (∀ g, goal = Some g → ¬ g == 0 → current = Some 0 ∧ total = Some g) ∧
  (absent_or_zero goal → current = None ∧ total = None).

(** The workout target of a new record: the goal when it is present and
    not zero, the duration of the challenge otherwise. *)
Definition workouts_target (goal : option Q) (duration' : Z) (total : Q) : Prop :=
  (∀ w, goal = Some w → ¬ w == 0 → total = w) ∧
  (absent_or_zero goal → total = inject_Z duration').

(** The day counter of a record has not passed the length of the
    challenge. *)
Definition days_ok (uc : UserChallenge) : Prop :=
  currentDay (progress uc) <= totalDays (progress uc).

Definition store_days_ok (s : Store) : Prop :=
  ∀ u l, allUserChallenges s !! u = Some l → Forall days_ok l.

(** Executable form of the day-counter invariant, for concrete stores. *)
Definition days_okb (uc : UserChallenge) : bool :=
  Qle_bool (currentDay (progress uc)) (totalDays (progress uc)).

Definition store_days_okb (s : Store) : bool :=
  forallb (λ ul, forallb days_okb (snd ul)) (map_to_list (allUserChallenges s)).

(** Every challenge of the catalog lasts at least one day. *)
Definition catalog_durations_ok (s : Store) : Prop :=
  Forall (λ c, (1 ≤ duration c)%Z) (challenges s).

(** A delta whose fields are all absent, zero or false. *)
Definition inert (progressData : ProgressData) : Prop :=
  absent_or_zero (distance progressData) ∧
  absent_or_zero (calories progressData) ∧
  absent_or_zero (minutes progressData) ∧
  (workoutCompleted progressData = None ∨ workoutCompleted progressData = Some false).

(** [r] is the first of [a], [b] that is present and not zero, and 0
    when there is none. *)
Definition first_nonzero (a b r : option Q) : Prop :=
  (∀ x, a = Some x → ¬ x == 0 → r = Some x) ∧
  (∀ y, absent_or_zero a → b = Some y → ¬ y == 0 → r = Some y) ∧
  (absent_or_zero a → absent_or_zero b → r = Some 0).

(** Strava is asked and has answered. *)
Definition stravaAnswered (challenge : Challenge)
    (stravaResponse : option (list StravaActivity)) : bool :=
  (bool_decide (category challenge = RUNNING)
   || bool_decide (category challenge = CYCLING))
  && bool_decide (is_Some stravaResponse).

(** ** Sample stores and inputs *)

(** The demo user after joining challenge 1 of the seeded catalog. *)
Definition joinedOnce : Store := snd (joinChallenge 1000 "1" freshStore).

(** The demo user after joining and then leaving challenge 1. *)
Definition leftStore : Store := snd (leaveChallenge 2000 "1" joinedOnce).

(** The demo user after joining the five seeded challenges, with a sixth
    challenge in the catalog. *)
Definition sixthChallenge : Challenge :=
  {| id := "6"; title := "Swim Sprint 7-Day"; category := "swimming";
     duration := 7; participants := 10;
     goals := {[ "totalWorkouts" := 7 ]} |}.

Definition fullStore : Store :=
  let s := mkStore (defaultChallenges ++ [sixthChallenge]) ∅ (Some demoUser) in
  let s := snd (joinChallenge 1000 "1" s) in
  let s := snd (joinChallenge 2000 "2" s) in
  let s := snd (joinChallenge 3000 "3" s) in
  let s := snd (joinChallenge 4000 "4" s) in
  snd (joinChallenge 5000 "5" s).

(** The challenge of the worked scenario, alone in the catalog, with the
    demo user logged in. *)
Definition challengeX : Challenge :=
  {| id := "X"; title := "Scenario X"; category := "running";
     duration := 10; participants := 0;
     goals := {[ "totalDistance" := 50; "totalWorkouts" := 5 ]} |}.

Definition scenarioStore : Store := mkStore [challengeX] ∅ (Some demoUser).

(** A two-day challenge whose only goal is two workouts. *)
Definition twoWorkouts : Challenge :=
  {| id := "W"; title := "Two workouts"; category := "strength";
     duration := 2; participants := 0;
     goals := {[ "totalWorkouts" := 2 ]} |}.

Definition twoWorkoutsStore : Store := mkStore [twoWorkouts] ∅ (Some demoUser).

(** The delta of one completed workout. *)
Definition oneWorkout : ProgressData := mkProgressData None None None (Some true).

(** A Fitbit answer that carries calories and nothing else. *)
Definition fitbitCaloriesOnly : FitbitDaily :=
  mkFitbitDaily (Some (mkFitbitSummary None (Some 300) None)).

(** A Fitbit answer without a summary. *)
Definition fitbitEmpty : FitbitDaily := mkFitbitDaily None.

(** ** Further notions: what the operations leave alone *)

(** The number of active records in a list: the count that joinChallenge
    compares with the cap. *)
Definition activeCount (l : list UserChallenge) : nat :=
  length (filter (λ uc, status uc = active) l).

(** Every user with a non-empty id holds at most MAX_ACTIVE_CHALLENGES
    active records. *)
Definition cap_ok (s : Store) : Prop :=
  ∀ u l, allUserChallenges s !! u = Some l → u ≠ "" →
    (activeCount l ≤ MAX_ACTIVE_CHALLENGES)%nat.

(** Every user with a non-empty id holds at most one record, of any
    status, for a challenge. *)
Definition unique_ok (s : Store) : Prop :=
  ∀ u l, allUserChallenges s !! u = Some l → u ≠ "" →
    NoDup (challengeId <$> l).

(** Executable forms, for concrete stores. *)
Definition cap_okb (s : Store) : bool :=
  forallb (λ ul, bool_decide (fst ul = "")
                 || (activeCount (snd ul) <=? MAX_ACTIVE_CHALLENGES)%nat)
    (map_to_list (allUserChallenges s)).

Definition unique_okb (s : Store) : bool :=
  forallb (λ ul, bool_decide (fst ul = "")
                 || bool_decide (NoDup (challengeId <$> snd ul)))
    (map_to_list (allUserChallenges s)).

(** The demo user after joining the two-workout challenge, completing one
    workout and leaving. *)
Definition abandonedHalfway : Store :=
  snd (leaveChallenge 2500 "W"
         (snd (updateChallengeProgress 2000 "W" oneWorkout
                 (snd (joinChallenge 1000 "W" twoWorkoutsStore))))).

(** A session whose user has the empty string as id, with the seeded
    catalog and a record already stored under that id. *)
Definition namelessUser : User :=
  {| user_id := ""; user_name := "Nameless"; user_email := "nameless@example.com" |}.

Definition namelessStore : Store :=
  snd (joinChallenge 1000 "1"
         (initializeDefaultChallenges (mkStore [] ∅ (Some namelessUser)))).

(** ** Further notions: histories of updates *)

(** An optional number that is missing or not negative. *)
Definition absent_or_nonneg (a : option Q) : Prop :=
  ∀ x, a = Some x → 0 <= x.

(** A delta as the sources produce it: no negative measurement. *)
Definition nonneg_delta (progressData : ProgressData) : Prop :=
  absent_or_nonneg (distance progressData) ∧
  absent_or_nonneg (calories progressData) ∧
  absent_or_nonneg (minutes progressData).

(** The five goals that joinChallenge reads are not negative. *)
Definition goals_nonneg (challenge : Challenge) : Prop :=
  absent_or_nonneg (goals challenge !! "totalWorkouts") ∧
  absent_or_nonneg (goals challenge !! "totalDistance") ∧
  absent_or_nonneg (goals challenge !! "caloriesBurned") ∧
  absent_or_nonneg (goals challenge !! "totalMinutes") ∧
  absent_or_nonneg (goals challenge !! "totalSessions").

(** The progress after a sequence of updates, oldest first. *)
Definition applyAll (deltas : list ProgressData) (p : Progress) : Progress :=
  foldl (λ p d, applyProgressData d p) p deltas.

(** A tracked pair whose current value has reached its target. *)
Definition pair_met (current total : option Q) : Prop :=
  Js.truthy total = true →
  ∃ c t, current = Some c ∧ total = Some t ∧ 0 < t ∧ t <= c.

Definition all_met (p : Progress) : Prop :=
  pair_met (Some (completedWorkouts p)) (Some (totalWorkouts p)) ∧
  pair_met (currentDistance p) (totalDistance p) ∧
  pair_met (currentCalories p) (totalCalories p) ∧
  pair_met (currentMinutes p) (totalMinutes p) ∧
  pair_met (currentSessions p) (totalSessions p).

(** [a <= b] on results of the aggregator that are numbers. *)
Definition num_le (a b : Js.JsNumber) : Prop :=
  match a, b with
  | Js.Num x, Js.Num y => x <= y
  | _, _ => False
  end.

(** A history of updates for the running challenge: 60 distance units
    and a workout, then calories, then a delta of zeros. *)
Definition sampleDeltas : list ProgressData :=
  [ mkProgressData (Some 60) None None (Some true);
    mkProgressData None (Some 450) (Some 30) None;
    mkProgressData (Some 0) (Some 0) None (Some false) ].

(** A record of the running challenge with its twenty workouts done and
    two distance units missing. *)
Definition almostMet : UserChallenge :=
  {| uc_id := "1_1_1000"; userId := "1"; challengeId := "1";
     startDate := 1000; endDate := 2592001000; status := active;
     progress :=
       {| currentDay := 30; totalDays := 30;
          completedWorkouts := 20; totalWorkouts := 20;
          currentDistance := Some 48; totalDistance := Some 50;
          currentCalories := None; totalCalories := None;
          currentMinutes := Some 10; totalMinutes := None;
          currentSessions := None; totalSessions := None |};
     joinedAt := 1000; completedAt := None |}.

(** Accumulator invariants of the aggregator used in the proofs: the sum
    is at least 100 per counted criterion; two runs count the same
    criteria and the first sum is at most the second. *)
Definition acc_met (acc : Js.JsNumber * nat) : Prop :=
  ∃ x, fst acc = Js.Num x ∧ 100 * inject_Z (Z.of_nat (snd acc)) <= x.

Definition acc_le (a1 a2 : Js.JsNumber * nat) : Prop :=
  snd a1 = snd a2 ∧ ∃ x y, fst a1 = Js.Num x ∧ fst a2 = Js.Num y ∧ x <= y.

(** ** Catalog listings (challenge.js and challenges_filter.js) *)

(** The functions that list the catalog read three more fields of its
    entries; [base] holds the fields modelled above.  [createdAt] is the
    value of [new Date(c.createdAt)], in milliseconds.  The functions
    take the array that [getChallenges()] returns as [catalog]. *)
Record ChallengeInfo : Type := mkChallengeInfo {
  base : Challenge;
  difficulty : string;
  featured : bool;
  createdAt : Z
}.

Definition getChallengesByCategory (category' : string) (catalog : list ChallengeInfo)
  : list ChallengeInfo :=
  if bool_decide (category' = "all") then catalog
  else filter (λ c, category (base c) = category') catalog.

Definition getChallengesByDifficulty (difficulty' : string) (catalog : list ChallengeInfo)
  : list ChallengeInfo :=
  if bool_decide (difficulty' = "all") then catalog
  else filter (λ c, difficulty c = difficulty') catalog.

(** [Array.prototype.sort] with a comparator: the sort is stable, and for
    a comparator that orders its arguments consistently the result is
    the one of a stable insertion sort, where [a] stays before a later
    [b] unless the comparator returns a positive number. *)
Fixpoint insertSorted {A : Type} (cmp : A → A → Z) (x : A) (l : list A) : list A :=
  match l with
  | [] => [x]
  | y :: ys => if (cmp x y <=? 0)%Z then x :: y :: ys else y :: insertSorted cmp x ys
  end.

Definition sort {A : Type} (cmp : A → A → Z) (l : list A) : list A :=
  foldr (insertSorted cmp) [] l.

(** [slice(0, end)] *)
Definition slice0 {A : Type} (end' : Z) (l : list A) : list A :=
  let len := Z.of_nat (length l) in
  let final := if (end' <? 0)%Z then Z.max (len + end') 0 else Z.min end' len in
  take (Z.to_nat final) l.

(** [(a, b) => b.participants - a.participants] *)
Definition byParticipants (a b : ChallengeInfo) : Z :=
  (participants (base b) - participants (base a))%Z.

(** [getFeaturedChallenges(limit = 3)] *)
Definition getFeaturedChallenges (limit : option Z) (catalog : list ChallengeInfo)
  : list ChallengeInfo :=
  slice0 (default 3%Z limit)
    (sort byParticipants (filter (λ c, featured c = true) catalog)).

(** [difficultyOrder], and its comparator; a difference with an unknown
    difficulty is NaN, which [sort] takes as 0. *)
Definition difficultyOrder (difficulty' : string) : option Z :=
  if bool_decide (difficulty' = "beginner") then Some 1%Z
  else if bool_decide (difficulty' = "intermediate") then Some 2%Z
  else if bool_decide (difficulty' = "advanced") then Some 3%Z
  else None.

Definition byDifficulty (a b : ChallengeInfo) : Z :=
  match difficultyOrder (difficulty a), difficultyOrder (difficulty b) with
  | Some x, Some y => (x - y)%Z
  | _, _ => 0%Z
  end.

(** [(a, b) => new Date(b.createdAt) - new Date(a.createdAt)] *)
Definition byNewest (a b : ChallengeInfo) : Z := (createdAt b - createdAt a)%Z.

Definition sortChallenges (challenges' : list ChallengeInfo) (sortBy : string)
  : list ChallengeInfo :=
  if bool_decide (sortBy = "popular") then sort byParticipants challenges'
  else if bool_decide (sortBy = "newest") then sort byNewest challenges'
  else if bool_decide (sortBy = "participants") then sort byParticipants challenges'
  else if bool_decide (sortBy = "difficulty") then sort byDifficulty challenges'
  else challenges'.

(** [currentFilters] of challenges_filter.js. *)
Record Filters : Type := mkFilters {
  f_category : string;
  f_difficulty : string;
  f_duration : string;
  f_sort : string
}.

Definition defaultFilters : Filters := mkFilters "all" "all" "all" "popular".

(** applyFilters; [parseInt], a built-in, is a parameter ([None] is
    NaN).  [parseInt(c.duration)] of a whole number is that number. *)
Definition applyFilters (parseInt : string → option Z) (currentFilters : Filters)
    (catalog : list ChallengeInfo) : list ChallengeInfo :=
  let challenges' := catalog in
  let challenges' :=
    if negb (bool_decide (f_category currentFilters = "all"))
    then filter (λ c, category (base c) = f_category currentFilters) challenges'
    else challenges' in
  let challenges' :=
    if negb (bool_decide (f_difficulty currentFilters = "all"))
    then filter (λ c, difficulty c = f_difficulty currentFilters) challenges'
    else challenges' in
  let challenges' :=
    if negb (bool_decide (f_duration currentFilters = "all"))
    then match parseInt (f_duration currentFilters) with
         | Some duration' => filter (λ c, (duration' ≤ duration (base c))%Z) challenges'
         | None => challenges'
         end
    else challenges' in
  sortChallenges challenges' (f_sort currentFilters).

(** The predicate that applyFilters selects by. *)
Definition passesFilters (parseInt : string → option Z) (currentFilters : Filters)
    (c : ChallengeInfo) : Prop :=
  (f_category currentFilters = "all" ∨ category (base c) = f_category currentFilters) ∧
  (f_difficulty currentFilters = "all" ∨ difficulty c = f_difficulty currentFilters) ∧
  (f_duration currentFilters = "all" ∨
   match parseInt (f_duration currentFilters) with
   | Some duration' => (duration' ≤ duration (base c))%Z
   | None => True
   end).

(** The seeded catalog with its three further fields (createdAt in days
    of January 2024). *)
Definition defaultCatalog : list ChallengeInfo :=
  zip_with (λ c dfc, mkChallengeInfo c dfc.1.1 dfc.1.2 dfc.2) defaultChallenges
    [ ("beginner", true, 1%Z); ("beginner", true, 5%Z); ("intermediate", true, 10%Z);
      ("advanced", false, 15%Z); ("intermediate", false, 20%Z) ].

(** The orders that sortChallenges produces: most participants first,
    newest first, easiest first. *)
Definition byPopularity (a b : ChallengeInfo) : Prop :=
  (participants (base b) ≤ participants (base a))%Z.

Definition byRecency (a b : ChallengeInfo) : Prop :=
  (createdAt b ≤ createdAt a)%Z.

Definition difficultyRank (c : ChallengeInfo) : Z :=
  default 0%Z (difficultyOrder (difficulty c)).

Definition byEase (a b : ChallengeInfo) : Prop :=
  (difficultyRank a ≤ difficultyRank b)%Z.

Definition knownDifficulty (c : ChallengeInfo) : Prop :=
  is_Some (difficultyOrder (difficulty c)).


(** ** Access tokens (apiHandler.js) *)

(** The token entries of localStorage: one per service, under the key
    [`${service}_access_token`]. *)
Definition getAccessToken (service : string) (localStorage : gmap string string)
  : option string :=
  localStorage !! (service +:+ "_access_token").

Definition saveAccessToken (service token : string)
    (localStorage : gmap string string) : gmap string string :=
  <[service +:+ "_access_token" := token]> localStorage.

(** getStravaActivities and getFitbitDailyActivity.  The argument
    [fetchWithErrorHandling] is the request as a function of the bearer
    token; [None] is a thrown error, which is also what a missing or
    empty token gives, before any request is made. *)
Definition getStravaActivities
    (fetchWithErrorHandling : string → option (list StravaActivity))
    (localStorage : gmap string string) : option (list StravaActivity) :=
  let token := getAccessToken "strava" localStorage in
  if negb (truthy_id token) then None
  else chain token fetchWithErrorHandling.

Definition getFitbitDailyActivity
    (fetchWithErrorHandling : string → option FitbitDaily)
    (localStorage : gmap string string) : option FitbitDaily :=
  let token := getAccessToken "fitbit" localStorage in
  if negb (truthy_id token) then None
  else chain token fetchWithErrorHandling.

(** syncChallengeProgress with its two requests made from the stored
    tokens. *)
Definition syncFromTokens (now : Z) (challengeId' : string)
    (stravaApi : string → option (list StravaActivity))
    (fitbitApi : string → option FitbitDaily)
    (localStorage : gmap string string) (s : Store) : SyncResult * Store :=
  syncChallengeProgress now challengeId'
    (getStravaActivities stravaApi localStorage)
    (getFitbitDailyActivity fitbitApi localStorage) s.

(** Sample data: a Strava answer of two runs, and an API that answers
    any token with it. *)
Definition twoRuns : list StravaActivity :=
  [ mkStravaActivity 5000 (Some 300); mkStravaActivity 3000 None ].

Definition stravaAnswers (token : string) : option (list StravaActivity) :=
  Some twoRuns.

Definition fitbitAnswers (token : string) : option FitbitDaily :=
  Some fitbitCaloriesOnly.

(** A browser in which only a Strava token has been saved. *)
Definition stravaOnly : gmap string string :=
  saveAccessToken "strava" "tok" ∅.

(** The record of the demo user for challenge 1 in [joinedOnce], and the
    catalog entry of that challenge there. *)
Definition joinedRecord : UserChallenge :=
  newUserChallenge 1000 demoUser "1" runningChallenge.

Definition joinedChallenge : Challenge := add_participants 1 runningChallenge.

(** ** Magnitudes within the range of a double *)

(** A tracked pair whose current value is at most 10^15 and whose target
    is at least 10^-15, in absolute value: its ratio is at most 10^30,
    so that none of the products and sums of calculateChallengeProgress
    leaves the range of a double.  An untracked pair (falsy target) is
    not read. *)
Definition pair_bounded (current total : option Q) : bool :=
  if Js.truthy total
  then Qle_bool (1 # 1000000000000000) (Qabs (Js.or_num total 0))
       && match current with
          | Some c => Qle_bool (Qabs c) 1000000000000000
          | None => true
          end
  else true.

Definition progress_bounded (p : Progress) : bool :=
  pair_bounded (Some (completedWorkouts p)) (Some (totalWorkouts p))
  && pair_bounded (currentDistance p) (totalDistance p)
  && pair_bounded (currentCalories p) (totalCalories p)
  && pair_bounded (currentMinutes p) (totalMinutes p)
  && pair_bounded (currentSessions p) (totalSessions p).

(** The record of the demo user for challenge 1 after an update that
    carries the distance -100. *)
Definition belowZeroRecord : UserChallenge :=
  updatedUserChallenge 2000 (mkProgressData (Some (-100)) None None None) joinedRecord.
(** * Properties *)

(** ** Facts about the number layer *)

Section JsFacts.

Lemma truthyQ_false (q : Q) : Js.truthyQ q = false ↔ q == 0.
Proof.
  unfold Js.truthyQ. rewrite negb_false_iff. apply Qeq_bool_iff.
Qed.

Lemma truthyQ_true (q : Q) : Js.truthyQ q = true ↔ ¬ q == 0.
Proof.
  rewrite <- truthyQ_false. destruct (Js.truthyQ q); split; congruence.
Qed.

Lemma minQ_le_r (x y : Q) : Js.minQ x y <= y.
Proof.
  unfold Js.minQ. destruct (Qle_bool x y) eqn:E.
  - by apply Qle_bool_iff.
  - apply Qle_refl.
Qed.

Lemma minQ_le_l (x y : Q) : Js.minQ x y <= x.
Proof.
  unfold Js.minQ. destruct (Qle_bool x y) eqn:E.
  - apply Qle_refl.
  - apply Qlt_le_weak, Qnot_le_lt. intros H.
    apply Qle_bool_iff in H. congruence.
Qed.

Lemma minQ_glb (x y z : Q) : z <= x → z <= y → z <= Js.minQ x y.
Proof. intros Hx Hy. unfold Js.minQ. by destruct (Qle_bool x y). Qed.

Lemma roundQ_nonneg (x : Q) : 0 <= x → (0 <= Js.roundQ x)%Z.
Proof.
  intros Hx. unfold Js.roundQ.
  change 0%Z with (Qfloor 0). apply Qfloor_resp_le.
  apply Qle_trans with x; [done|].
  rewrite <- (Qplus_0_r x) at 1. apply Qplus_le_r. discriminate.
Qed.

Lemma ratio_nonneg (c t : Q) : 0 <= c → 0 < t → 0 <= c / t * 100.
Proof.
  intros Hc Ht. apply Qmult_le_0_compat; [|discriminate].
  apply Qmult_le_0_compat; [done|]. by apply Qinv_le_0_compat, Qlt_le_weak.
Qed.

End JsFacts.

(** ** Progress aggregator *)

Section Aggregator.

(** Whatever the snapshot holds, a numeric result is at most 100: the
    only clamp of the function is the final [Math.min]. *)
Lemma calculateChallengeProgress_upper (uc : UserChallenge) :
  match calculateChallengeProgress uc with
  | Js.Num x => x <= 100
  | Js.NaN => True
  end.
Proof.
  unfold calculateChallengeProgress, progressPercentage.
  destruct (criteria (progress uc)) as [t n].
  destruct (0 <? n)%nat; [|discriminate].
  destruct t; simpl; [apply minQ_le_r|done].
Qed.

(** The clamp is applied once, to the rounded average. *)
Lemma calculateChallengeProgress_clamp_last (uc : UserChallenge) (sum : Q) (n : nat) :
  criteria (progress uc) = (Js.Num sum, S n) →
  calculateChallengeProgress uc =
    Js.Num (Js.minQ (inject_Z (Js.roundQ (sum / inject_Z (Z.of_nat (S n))))) 100).
Proof. unfold calculateChallengeProgress, progressPercentage. by intros ->. Qed.

(** No truthy [total*] field: no criterion, and the result is 0. *)
Lemma calculateChallengeProgress_no_criteria (uc : UserChallenge) :
  no_criteria (progress uc) → calculateChallengeProgress uc = Js.Num 0.
Proof.
  intros (Hw & Hd & Hc & Hm & Hs).
  unfold calculateChallengeProgress, progressPercentage, criteria, criterion. simpl.
  by rewrite Hw, Hd, Hc, Hm, Hs.
Qed.

Lemma criterion_nonneg (current total : option Q) (acc : Js.JsNumber * nat) :
  pair_sound current total → acc_nonneg acc → acc_nonneg (criterion current total acc).
Proof.
  intros Hp (x & Hx & Hx0). unfold criterion.
  destruct (Js.truthy total) eqn:E; [|by exists x].
  destruct (Hp E) as (c & t & -> & -> & Hc & Ht).
  simpl. rewrite Hx. simpl. eexists; split; [done|].
  rewrite <- (Qplus_0_r 0). apply Qplus_le_compat; [done|by apply ratio_nonneg].
Qed.

(** On sound snapshots the result lies between 0 and 100, also when a
    current value exceeds its target. *)
Lemma calculateChallengeProgress_range (uc : UserChallenge) :
  progress_sound (progress uc) → Js.in_percent_range (calculateChallengeProgress uc).
Proof.
  intros (Hw & Hd & Hc & Hm & Hs).
  assert (acc_nonneg (criteria (progress uc))) as (x & Hx & Hx0).
  { unfold criteria. repeat (apply criterion_nonneg; [done|]).
    exists 0. split; [done|discriminate]. }
  unfold calculateChallengeProgress, progressPercentage.
  destruct (criteria (progress uc)) as [t n]. simpl in Hx. subst t.
  destruct (0 <? n)%nat eqn:En; [|split; discriminate].
  simpl. split; [|apply minQ_le_r].
  apply minQ_glb; [|discriminate].
  change 0 with (inject_Z 0). rewrite <- Zle_Qle. apply roundQ_nonneg.
  apply Qmult_le_0_compat; [done|].
  apply Qinv_le_0_compat. change 0 with (inject_Z 0). rewrite <- Zle_Qle. lia.
Qed.

(** The progress bar clamps the percentage it is given at both ends. *)
Lemma safePercentage_range (x : Q) : Js.in_percent_range (safePercentage (Js.Num x)).
Proof.
  unfold safePercentage. simpl. split; [|apply minQ_le_r].
  apply minQ_glb; [|discriminate].
  unfold Js.maxQ. destruct (Qle_bool x 0) eqn:E; [apply Qle_refl|].
  apply Qlt_le_weak, Qnot_le_lt. intros H. apply Qle_bool_iff in H. congruence.
Qed.

(** C1. calculateChallengeProgress is documented to return a percentage
    from 0 to 100, but only its upper end is clamped: after joining
    challenge 1 of the seeded catalog, an update that carries the
    distance -100 is accepted, it reports the percentage -100, and
    calculateChallengeProgress on the stored record returns -100,
    outside the interval. *)
Theorem calculateChallengeProgress_below_zero :
  let s1 := snd (joinChallenge 1000 "1" freshStore) in
  let call := updateChallengeProgress 2000 "1"
                (mkProgressData (Some (-100)) None None None) s1 in
  update_success (fst call) = true ∧
  update_completionPercentage (fst call) = Some (Js.Num (-100)) ∧
  (calculateChallengeProgress <$> recordFor demoUser "1" (snd call))
    = Some (Js.Num (-100)) ∧
  ¬ Js.in_percent_range (Js.Num (-100)).
Proof.
  split_and!; [by vm_compute..|].
  intros [H _]. by apply H.
Qed.

End Aggregator.

Local Close Scope Q_scope.

(** ** [find] and [findIndex] *)

Section Finding.
Context {A : Type} (P : A → Prop) `{!∀ x, Decision (P x)}.

Lemma findIndex_Some (l : list A) (i : nat) :
  findIndex P l = Some i ↔
  ∃ x, l !! i = Some x ∧ P x ∧ ∀ j y, l !! j = Some y → j < i → ¬ P y.
Proof.
  unfold findIndex. split.
  - destruct (list_find P l) as [[j x]|] eqn:E; [|done].
    simpl. intros [= ->]. exists x. by apply list_find_Some in E.
  - intros (x & Hx). apply (list_find_Some P) in Hx. by rewrite Hx.
Qed.

Lemma findIndex_None (l : list A) :
  findIndex P l = None ↔ Forall (λ x, ¬ P x) l.
Proof.
  unfold findIndex. rewrite <- (list_find_None P).
  destruct (list_find P l) as [p|]; simpl; [split; discriminate|done].
Qed.

Lemma find_None (l : list A) :
  find P l = None ↔ Forall (λ x, ¬ P x) l.
Proof.
  unfold find. rewrite <- (list_find_None P).
  destruct (list_find P l) as [p|]; simpl; [split; discriminate|done].
Qed.

Lemma find_at_findIndex (l : list A) (i : nat) :
  findIndex P l = Some i → find P l = l !! i.
Proof.
  unfold findIndex, find.
  destruct (list_find P l) as [[j x]|] eqn:E; [|done].
  simpl. intros [= ->]. apply list_find_Some in E as (-> & _). done.
Qed.

Lemma find_Some_findIndex (l : list A) (x : A) :
  find P l = Some x → ∃ i, findIndex P l = Some i ∧ l !! i = Some x ∧ P x.
Proof.
  unfold findIndex, find.
  destruct (list_find P l) as [[j y]|] eqn:E; [|done].
  simpl. intros [= ->]. apply list_find_Some in E as (? & ? & _). eauto.
Qed.

Lemma findIndex_app_last (l : list A) (x : A) :
  Forall (λ y, ¬ P y) l → P x → findIndex P (l ++ [x]) = Some (length l).
Proof.
  intros Hl Hx. apply findIndex_Some. exists x. split_and!.
  - by rewrite lookup_app_r, Nat.sub_diag.
  - done.
  - intros j y Hj Hlt. rewrite lookup_app_l in Hj by done.
    by eapply Forall_lookup_1 in Hl.
Qed.

Lemma findIndex_alter (f : A → A) (i : nat) (l : list A) :
  (∀ x, P (f x) ↔ P x) →
  findIndex P (alter f i l) = findIndex P l.
Proof.
  intros Hf.
  destruct (findIndex P l) as [k|] eqn:E.
  - apply findIndex_Some in E as (x & Hx & HPx & Hleast).
    apply findIndex_Some.
    destruct (decide (i = k)) as [->|Hne].
    + exists (f x). split_and!.
      * by rewrite list_lookup_alter_eq, Hx.
      * by apply Hf.
      * intros j y Hj Hlt. rewrite list_lookup_alter_ne in Hj by lia. eauto.
    + exists x. split_and!.
      * by rewrite list_lookup_alter_ne.
      * done.
      * intros j y Hj Hlt. destruct (decide (i = j)) as [->|Hij].
        -- rewrite list_lookup_alter_eq in Hj.
           destruct (l !! j) as [z|] eqn:Ez; [|done]. simpl in Hj.
           injection Hj as <-. rewrite Hf. eauto.
        -- rewrite list_lookup_alter_ne in Hj by done. eauto.
  - apply findIndex_None in E. apply findIndex_None.
    apply Forall_lookup. intros j y Hj.
    destruct (decide (i = j)) as [->|Hij].
    + rewrite list_lookup_alter_eq in Hj.
      destruct (l !! j) as [z|] eqn:Ez; [|done]. simpl in Hj.
      injection Hj as <-. rewrite Hf. by eapply Forall_lookup_1 in E.
    + rewrite list_lookup_alter_ne in Hj by done. by eapply Forall_lookup_1 in E.
Qed.

Lemma find_app_last (l : list A) (x : A) :
  Forall (λ y, ¬ P y) l → P x → find P (l ++ [x]) = Some x.
Proof.
  intros Hl Hx.
  rewrite (find_at_findIndex _ (length l)) by by apply findIndex_app_last.
  by rewrite lookup_app_r, Nat.sub_diag.
Qed.

Lemma find_alter_found (f : A → A) (i : nat) (l : list A) :
  (∀ x, P (f x) ↔ P x) →
  findIndex P l = Some i →
  find P (alter f i l) = f <$> find P l.
Proof.
  intros Hf Hi.
  rewrite (find_at_findIndex (alter f i l) i) by by rewrite findIndex_alter.
  rewrite (find_at_findIndex l i Hi). by rewrite list_lookup_alter_eq.
Qed.

Lemma existsb_decide_false (l : list A) :
  existsb (λ x, bool_decide (P x)) l = false ↔ Forall (λ x, ¬ P x) l.
Proof.
  induction l as [|x l IH]; simpl.
  - split; [constructor|done].
  - rewrite orb_false_iff, IH, Forall_cons, bool_decide_eq_false. done.
Qed.

Lemma existsb_decide_true (l : list A) :
  existsb (λ x, bool_decide (P x)) l = true ↔ ∃ x, x ∈ l ∧ P x.
Proof.
  induction l as [|x l IH]; simpl.
  - split; [done|]. intros (x & Hx & _). by apply elem_of_nil in Hx.
  - rewrite orb_true_iff, IH, bool_decide_eq_true. split.
    + intros [Hx|(y & Hy & HPy)]; [exists x|exists y]; split; try done.
      * apply list_elem_of_here.
      * by apply list_elem_of_further.
    + intros (y & Hy & HPy). apply elem_of_cons in Hy as [->|Hy]; eauto.
Qed.

End Finding.

(** ** Catalog and membership accessors *)

Section Accessors.

Lemma getUserChallenges_current (s : Store) (user : User) :
  getCurrentUser s = Some user →
  getUserChallenges None s =
    if truthy_id (Some (user_id user))
    then default [] (allUserChallenges s !! user_id user)
    else [].
Proof. unfold getUserChallenges. by intros ->. Qed.

Lemma hasJoinedChallenge_false (cid : string) (s : Store) :
  hasJoinedChallenge cid None s = false ↔
  Forall (λ uc, challengeId uc ≠ cid) (getUserChallenges None s).
Proof. unfold hasJoinedChallenge. apply existsb_decide_false. Qed.

Lemma hasJoinedChallenge_true (cid : string) (s : Store) :
  hasJoinedChallenge cid None s = true ↔
  ∃ uc, uc ∈ getUserChallenges None s ∧ challengeId uc = cid.
Proof.
  unfold hasJoinedChallenge.
  apply (existsb_decide_true (λ uc, challengeId uc = cid)).
Qed.

Lemma updateChallengeParticipants_session (cid : string) (inc : Z) (s : Store) :
  session (updateChallengeParticipants cid inc s) = session s.
Proof.
  unfold updateChallengeParticipants.
  by destruct (findIndex _ (getChallenges s)).
Qed.

Lemma updateChallengeParticipants_allUserChallenges (cid : string) (inc : Z) (s : Store) :
  allUserChallenges (updateChallengeParticipants cid inc s) = allUserChallenges s.
Proof.
  unfold updateChallengeParticipants.
  by destruct (findIndex _ (getChallenges s)).
Qed.

Lemma add_participants_id (inc : Z) (c : Challenge) :
  id (add_participants inc c) = id c.
Proof. done. Qed.

(** The counter of the first catalog entry with the given id moves by
    [inc]; it is the entry that getChallengeById returns. *)
Lemma getChallengeById_updateChallengeParticipants (cid : string) (inc : Z) (s : Store) :
  getChallengeById cid (updateChallengeParticipants cid inc s) =
  add_participants inc <$> getChallengeById cid s.
Proof.
  unfold getChallengeById, updateChallengeParticipants, getChallenges.
  destruct (findIndex (λ c, id c = cid) (challenges s)) as [i|] eqn:E.
  - simpl.
    rewrite (find_at_findIndex _ _ i) by
      (by rewrite findIndex_alter by (intros c; by rewrite add_participants_id)).
    rewrite (find_at_findIndex _ _ i E).
    by rewrite list_lookup_alter_eq.
  - apply findIndex_None in E. apply (find_None (λ c, id c = cid)) in E.
    by rewrite E.
Qed.

(** Incrementing and then decrementing restores the whole catalog. *)
Lemma updateChallengeParticipants_inverse (cid : string) (s1 s2 : Store) :
  challenges s2 = challenges (updateChallengeParticipants cid 1 s1) →
  challenges (updateChallengeParticipants cid (-1) s2) = challenges s1.
Proof.
  intros H2.
  unfold updateChallengeParticipants, getChallenges in *.
  destruct (findIndex (λ c, id c = cid) (challenges s1)) as [i|] eqn:E.
  - simpl in H2. rewrite H2.
    rewrite findIndex_alter by (intros c; by rewrite add_participants_id).
    rewrite E. simpl.
    rewrite list_alter_alter_eq. apply list_alter_id.
    intros [????? ?]. unfold add_participants; simpl. f_equal. lia.
  - rewrite H2, E. done.
Qed.

End Accessors.

(** ** Membership store *)

Section Membership.

Lemma joinChallenge_joins (now : Z) (cid : string) (s : Store)
    (user : User) (challenge : Challenge) :
  getCurrentUser s = Some user →
  getChallengeById cid s = Some challenge →
  hasJoinedChallenge cid None s = false →
  length (filter (λ uc, status uc = active) (getUserChallenges None s))
    < MAX_ACTIVE_CHALLENGES →
  joinChallenge now cid s =
    (mkJoinResult true (msg_joined challenge)
       (Some (newUserChallenge now user cid challenge)),
     joinedStore now user cid challenge s).
Proof.
  intros Hu Hc Hj Hn. unfold joinChallenge, isLoggedIn.
  apply Nat.leb_gt in Hn. by rewrite Hu, Hc, Hj, Hn.
Qed.

Lemma joinChallenge_success_inv (now : Z) (cid : string) (s : Store) :
  join_success (fst (joinChallenge now cid s)) = true →
  ∃ user challenge,
    getCurrentUser s = Some user ∧
    getChallengeById cid s = Some challenge ∧
    hasJoinedChallenge cid None s = false ∧
    length (filter (λ uc, status uc = active) (getUserChallenges None s))
      < MAX_ACTIVE_CHALLENGES.
Proof.
  unfold joinChallenge, isLoggedIn.
  destruct (Nat.leb_spec MAX_ACTIVE_CHALLENGES
              (length (filter (λ uc, status uc = active) (getUserChallenges None s))))
    as [Hn|Hn].
  - destruct (getCurrentUser s); [|done].
    destruct (getChallengeById cid s); [|done].
    by destruct (hasJoinedChallenge cid None s).
  - destruct (getCurrentUser s) as [user|]; [|done].
    destruct (getChallengeById cid s) as [challenge|]; [|done].
    destruct (hasJoinedChallenge cid None s); [done|].
    intros _. by exists user, challenge.
Qed.

End Membership.

Section JoinGuards.

(** C3. With the active cap reached (five or more active records), a
    join of an existing challenge that the user has not joined fails
    with the limit message and returns the store as it was: no record is
    created and no participants counter moves. *)
Theorem joinChallenge_active_limit (now : Z) (cid : string) (s : Store)
    (user : User) (challenge : Challenge) :
  getCurrentUser s = Some user →
  getChallengeById cid s = Some challenge →
  hasJoinedChallenge cid None s = false →
  MAX_ACTIVE_CHALLENGES ≤
    length (filter (λ uc, status uc = active) (getUserChallenges None s)) →
  joinChallenge now cid s = (join_failure msg_active_limit, s).
Proof.
  intros Hu Hc Hj Hn. unfold joinChallenge, isLoggedIn.
  apply Nat.leb_le in Hn. by rewrite Hu, Hc, Hj, Hn.
Qed.

Lemma joinChallenge_active_limit_witness :
  length (filter (λ uc, status uc = active) (getUserChallenges None fullStore)) = 5 ∧
  joinChallenge 6000 "6" fullStore = (join_failure msg_active_limit, fullStore).
Proof.
  split; [by vm_compute|].
  apply (joinChallenge_active_limit 6000 "6" fullStore demoUser sixthChallenge).
  - by vm_compute.
  - by vm_compute.
  - by vm_compute.
  - vm_compute. lia.
Defined.

(** The three failure messages and the success message of joinChallenge
    that follow the login check are pairwise told apart by the message
    for an earlier membership. *)
Lemma msg_already_joined_distinct (challenge : Challenge) :
  msg_challenge_not_found ≠ msg_already_joined ∧
  msg_active_limit ≠ msg_already_joined ∧
  msg_joined challenge ≠ msg_already_joined.
Proof. split_and!; by vm_compute. Qed.

(** C4, as the code has it.  For a logged-in caller and an existing
    challenge, joinChallenge fails as already joined exactly when
    getUserChallenges holds some record of the caller for that
    challenge, whatever the status of the record: the call then reports
    failure with the already-joined message, returns no record and
    leaves the store as it was, so that the caller cannot join the
    challenge again; and no other outcome carries that message. *)
Theorem joinChallenge_already_joined_iff (now : Z) (cid : string) (s : Store)
    (user : User) (challenge : Challenge) :
  getCurrentUser s = Some user →
  getChallengeById cid s = Some challenge →
  (joinChallenge now cid s = (join_failure msg_already_joined, s) ↔
   ∃ uc, uc ∈ getUserChallenges None s ∧ challengeId uc = cid) ∧
  (join_message (fst (joinChallenge now cid s)) = msg_already_joined ↔
   ∃ uc, uc ∈ getUserChallenges None s ∧ challengeId uc = cid) ∧
  (∀ uc, uc ∈ getUserChallenges None s → challengeId uc = cid →
     join_success (fst (joinChallenge now cid s)) = false ∧
     join_userChallenge (fst (joinChallenge now cid s)) = None ∧
     snd (joinChallenge now cid s) = s).
Proof.
  intros Hu Hc.
  destruct (msg_already_joined_distinct challenge) as (_ & Hlimit & Hjoined).
  assert (join_message (fst (joinChallenge now cid s)) = msg_already_joined →
          hasJoinedChallenge cid None s = true) as Hmsg.
  { unfold joinChallenge, isLoggedIn. rewrite Hu, Hc.
    destruct (hasJoinedChallenge cid None s); [done|].
    destruct (Nat.leb MAX_ACTIVE_CHALLENGES _); simpl; congruence. }
  assert (hasJoinedChallenge cid None s = true →
          joinChallenge now cid s = (join_failure msg_already_joined, s)) as Hrefused.
  { intros Hj. unfold joinChallenge, isLoggedIn. by rewrite Hu, Hc, Hj. }
  split_and!.
  - rewrite <- hasJoinedChallenge_true. split; [|done].
    intros Heq. apply Hmsg. by rewrite Heq.
  - rewrite <- hasJoinedChallenge_true. split; [done|].
    intros Hj. by rewrite (Hrefused Hj).
  - intros uc Hin Hcid.
    assert (hasJoinedChallenge cid None s = true) as Hj
      by (apply hasJoinedChallenge_true; by exists uc).
    by rewrite (Hrefused Hj).
Qed.

Lemma joinChallenge_already_joined_iff_witness :
  (joinChallenge 3000 "1" leftStore = (join_failure msg_already_joined, leftStore) ↔
   ∃ uc, uc ∈ getUserChallenges None leftStore ∧ challengeId uc = "1") ∧
  (join_message (fst (joinChallenge 3000 "1" leftStore)) = msg_already_joined ↔
   ∃ uc, uc ∈ getUserChallenges None leftStore ∧ challengeId uc = "1") ∧
  (∀ uc, uc ∈ getUserChallenges None leftStore → challengeId uc = "1" →
     join_success (fst (joinChallenge 3000 "1" leftStore)) = false ∧
     join_userChallenge (fst (joinChallenge 3000 "1" leftStore)) = None ∧
     snd (joinChallenge 3000 "1" leftStore) = leftStore).
Proof.
  eapply (joinChallenge_already_joined_iff 3000 "1" leftStore);
    vm_compute; reflexivity.
Defined.

(** C4, counterexample.  After joining and leaving challenge 1 the demo
    user holds a single record for it, abandoned, and no active record;
    joining challenge 1 again is refused as already joined. *)
Lemma rejoin_after_leave_refused :
  isLoggedIn leftStore = true ∧
  map (λ uc, (challengeId uc, status uc)) (getUserChallenges None leftStore)
    = [("1", abandoned)] ∧
  length (filter (λ uc, status uc = active) (getUserChallenges None leftStore)) = 0 ∧
  joinChallenge 3000 "1" leftStore = (join_failure msg_already_joined, leftStore).
Proof. split_and!; by vm_compute. Qed.

End JoinGuards.

(** ** Progress mutator *)

Section Mutator.

Lemma set_progress_challengeId (p : Progress) (uc : UserChallenge) :
  challengeId (set_progress p uc) = challengeId uc.
Proof. done. Qed.

Lemma checkCompleted_challengeId (now : Z) (uc : UserChallenge) :
  challengeId (checkCompleted now uc) = challengeId uc.
Proof. unfold checkCompleted. by destruct (Js.ge _ _). Qed.

Lemma checkCompleted_progress (now : Z) (uc : UserChallenge) :
  progress (checkCompleted now uc) = progress uc.
Proof. unfold checkCompleted. by destruct (Js.ge _ _). Qed.

Lemma updatedUserChallenge_challengeId (now : Z) (d : ProgressData) (uc : UserChallenge) :
  challengeId (updatedUserChallenge now d uc) = challengeId uc.
Proof. unfold updatedUserChallenge. by rewrite checkCompleted_challengeId. Qed.

Lemma updatedUserChallenge_progress (now : Z) (d : ProgressData) (uc : UserChallenge) :
  progress (updatedUserChallenge now d uc) = applyProgressData d (progress uc).
Proof. unfold updatedUserChallenge. by rewrite checkCompleted_progress. Qed.

Lemma completionPercentageAfter_progress (d : ProgressData) (uc : UserChallenge) :
  completionPercentageAfter d uc =
  progressPercentage (applyProgressData d (progress uc)).
Proof. done. Qed.

Lemma updatedUserChallenge_status (now : Z) (d : ProgressData) (uc : UserChallenge) :
  status (updatedUserChallenge now d uc) =
  if Js.ge (completionPercentageAfter d uc) (Js.Num 100) then completed else status uc.
Proof.
  unfold updatedUserChallenge, checkCompleted, completionPercentageAfter.
  by destruct (Js.ge _ _).
Qed.

Lemma updatedUserChallenge_completedAt (now : Z) (d : ProgressData) (uc : UserChallenge) :
  completedAt (updatedUserChallenge now d uc) =
  if Js.ge (completionPercentageAfter d uc) (Js.Num 100) then Some now else completedAt uc.
Proof.
  unfold updatedUserChallenge, checkCompleted, completionPercentageAfter.
  by destruct (Js.ge _ _).
Qed.

(** The successful path of updateChallengeProgress. *)
Lemma updateChallengeProgress_found (now : Z) (cid : string) (d : ProgressData)
    (s : Store) (user : User) (l : list UserChallenge) (i : nat) (uc : UserChallenge) :
  getCurrentUser s = Some user →
  allUserChallenges s !! user_id user = Some l →
  findIndex (λ uc, challengeId uc = cid) l = Some i →
  l !! i = Some uc →
  updateChallengeProgress now cid d s =
    (updateResult now d uc,
     set_allUserChallenges
       (<[user_id user := alter (updatedUserChallenge now d) i l]> (allUserChallenges s)) s).
Proof.
  intros Hu Hl Hi Huc. unfold updateChallengeProgress.
  by rewrite Hu, Hl, Hi, Huc.
Qed.

(** Every successful call went through that path. *)
Lemma updateChallengeProgress_success_inv (now : Z) (cid : string) (d : ProgressData)
    (s : Store) :
  update_success (fst (updateChallengeProgress now cid d s)) = true →
  ∃ user l i uc,
    getCurrentUser s = Some user ∧
    allUserChallenges s !! user_id user = Some l ∧
    findIndex (λ uc, challengeId uc = cid) l = Some i ∧
    l !! i = Some uc ∧ challengeId uc = cid.
Proof.
  unfold updateChallengeProgress.
  destruct (getCurrentUser s) as [user|]; [|done].
  destruct (allUserChallenges s !! user_id user) as [l|] eqn:El; [|done].
  destruct (findIndex _ l) as [i|] eqn:Ei; [|done].
  destruct (l !! i) as [uc|] eqn:Euc; [|done].
  intros _. exists user, l, i, uc. split_and!; try done.
  apply findIndex_Some in Ei as (x & Hx & HP & _). congruence.
Qed.

(** A user who holds a record for the challenge is served. *)
Lemma updateChallengeProgress_joined (now : Z) (cid : string) (d : ProgressData)
    (s : Store) (user : User) (uc : UserChallenge) :
  getCurrentUser s = Some user →
  recordFor user cid s = Some uc →
  ∃ l i,
    allUserChallenges s !! user_id user = Some l ∧
    findIndex (λ uc, challengeId uc = cid) l = Some i ∧
    l !! i = Some uc ∧
    updateChallengeProgress now cid d s =
      (updateResult now d uc,
       set_allUserChallenges
         (<[user_id user := alter (updatedUserChallenge now d) i l]> (allUserChallenges s)) s).
Proof.
  intros Hu Hr. unfold recordFor, recordsOf in Hr.
  destruct (allUserChallenges s !! user_id user) as [l|] eqn:El; [|done].
  simpl in Hr. apply find_Some_findIndex in Hr as (i & Hi & Hli & _).
  exists l, i. split_and!; try done.
  by apply updateChallengeProgress_found.
Qed.

(** When the record for the challenge is the last of the user's list
    and no earlier one is for the same challenge, the call rewrites
    exactly that record. *)
Lemma updateChallengeProgress_last (now : Z) (cid : string) (d : ProgressData)
    (s : Store) (user : User) (l : list UserChallenge) (uc : UserChallenge) :
  getCurrentUser s = Some user →
  allUserChallenges s !! user_id user = Some (l ++ [uc]) →
  Forall (λ x, challengeId x ≠ cid) l →
  challengeId uc = cid →
  updateChallengeProgress now cid d s =
    (updateResult now d uc,
     set_allUserChallenges
       (<[user_id user := l ++ [updatedUserChallenge now d uc]]> (allUserChallenges s)) s).
Proof.
  intros Hu Hl Hfree Hcid.
  rewrite (updateChallengeProgress_found now cid d s user (l ++ [uc]) (length l) uc);
    try done.
  - do 3 f_equal. rewrite alter_app_r_alt by done.
    by rewrite Nat.sub_diag.
  - by apply (findIndex_app_last (λ x, challengeId x = cid)).
  - by rewrite lookup_app_r, Nat.sub_diag.
Qed.

End Mutator.

(** ** The store after a join *)

Section AfterJoin.

Lemma no_record_not_joined (cid : string) (s : Store) (user : User) :
  getCurrentUser s = Some user →
  Forall (λ uc, challengeId uc ≠ cid) (recordsOf user s) →
  hasJoinedChallenge cid None s = false.
Proof.
  intros Hu Hfree. apply hasJoinedChallenge_false.
  rewrite (getUserChallenges_current s user Hu).
  by destruct (truthy_id _).
Qed.

Lemma getCurrentUser_set_allUserChallenges
    (m : gmap string (list UserChallenge)) (s : Store) :
  getCurrentUser (set_allUserChallenges m s) = getCurrentUser s.
Proof. done. Qed.

Lemma joinedStore_session (now : Z) (user : User) (cid : string)
    (challenge : Challenge) (s : Store) :
  getCurrentUser (joinedStore now user cid challenge s) = getCurrentUser s.
Proof.
  unfold joinedStore, getCurrentUser.
  by rewrite updateChallengeParticipants_session.
Qed.

Lemma joinedStore_records (now : Z) (user : User) (cid : string)
    (challenge : Challenge) (s : Store) :
  allUserChallenges (joinedStore now user cid challenge s) !! user_id user =
  Some (recordsOf user s ++ [newUserChallenge now user cid challenge]).
Proof.
  unfold joinedStore. rewrite updateChallengeParticipants_allUserChallenges.
  simpl. by rewrite lookup_insert_eq.
Qed.

Lemma joinedStore_challenge (now : Z) (user : User) (cid : string)
    (challenge : Challenge) (s : Store) :
  getChallengeById cid (joinedStore now user cid challenge s) =
  add_participants 1 <$> getChallengeById cid s.
Proof.
  unfold joinedStore.
  by rewrite getChallengeById_updateChallengeParticipants.
Qed.

End AfterJoin.

(** ** Progress seeded by a join *)

Section Seeding.

Lemma seeded_pair_seed (goal : option Q) :
  seeded_pair goal (seed_current goal) (seed_total goal).
Proof.
  unfold seeded_pair, seed_current, seed_total. split.
  - intros g -> Hg. simpl. apply truthyQ_true in Hg. by rewrite Hg.
  - intros [->|(g & -> & Hg)]; [done|].
    simpl. apply truthyQ_false in Hg. by rewrite Hg.
Qed.

Lemma workouts_target_or_num (goal : option Q) (d : Z) :
  workouts_target goal d (Js.or_num goal (inject_Z d)).
Proof.
  unfold workouts_target, Js.or_num. split.
  - intros w -> Hw. apply truthyQ_true in Hw. by rewrite Hw.
  - intros [->|(w & -> & Hw)]; [done|].
    apply truthyQ_false in Hw. by rewrite Hw.
Qed.

(** C5, as the code has it.  A successful join creates a record whose
    progress always carries the day counter (1 of the duration) and the
    workout counter (0 of the workout goal, or of the duration when the
    challenge has no non-zero workout goal), and carries the distance,
    calories, minutes and sessions pairs exactly for the goals that are
    present and not zero, each at 0 against its target. *)
Theorem joinChallenge_seeds_progress (now : Z) (cid : string) (s s' : Store)
    (r : JoinResult) :
  joinChallenge now cid s = (r, s') →
  join_success r = true →
  ∃ challenge uc,
    getChallengeById cid s = Some challenge ∧
    join_userChallenge r = Some uc ∧
    currentDay (progress uc) = 1%Q ∧
    totalDays (progress uc) = inject_Z (duration challenge) ∧
    completedWorkouts (progress uc) = 0%Q ∧
    workouts_target (goals challenge !! "totalWorkouts") (duration challenge)
      (totalWorkouts (progress uc)) ∧
    seeded_pair (goals challenge !! "totalDistance")
      (currentDistance (progress uc)) (totalDistance (progress uc)) ∧
    seeded_pair (goals challenge !! "caloriesBurned")
      (currentCalories (progress uc)) (totalCalories (progress uc)) ∧
    seeded_pair (goals challenge !! "totalMinutes")
      (currentMinutes (progress uc)) (totalMinutes (progress uc)) ∧
    seeded_pair (goals challenge !! "totalSessions")
      (currentSessions (progress uc)) (totalSessions (progress uc)).
Proof.
  intros Hjoin Hok.
  destruct (joinChallenge_success_inv now cid s) as (user & challenge & Hu & Hc & Hj & Hn).
  { by rewrite Hjoin. }
  rewrite (joinChallenge_joins now cid s user challenge Hu Hc Hj Hn) in Hjoin.
  injection Hjoin as <- <-.
  exists challenge, (newUserChallenge now user cid challenge).
  split_and!; try done; simpl.
  - apply workouts_target_or_num.
  - apply seeded_pair_seed.
  - apply seeded_pair_seed.
  - apply seeded_pair_seed.
  - apply seeded_pair_seed.
Qed.

Lemma joinChallenge_seeds_progress_witness :
  ∃ challenge uc,
    getChallengeById "4" freshStore = Some challenge ∧
    join_userChallenge (fst (joinChallenge 1000 "4" freshStore)) = Some uc ∧
    currentDay (progress uc) = 1%Q ∧
    totalDays (progress uc) = inject_Z (duration challenge) ∧
    completedWorkouts (progress uc) = 0%Q ∧
    workouts_target (goals challenge !! "totalWorkouts") (duration challenge)
      (totalWorkouts (progress uc)) ∧
    seeded_pair (goals challenge !! "totalDistance")
      (currentDistance (progress uc)) (totalDistance (progress uc)) ∧
    seeded_pair (goals challenge !! "caloriesBurned")
      (currentCalories (progress uc)) (totalCalories (progress uc)) ∧
    seeded_pair (goals challenge !! "totalMinutes")
      (currentMinutes (progress uc)) (totalMinutes (progress uc)) ∧
    seeded_pair (goals challenge !! "totalSessions")
      (currentSessions (progress uc)) (totalSessions (progress uc)).
Proof.
  apply (joinChallenge_seeds_progress 1000 "4" freshStore
           (snd (joinChallenge 1000 "4" freshStore))).
  - by vm_compute.
  - by vm_compute.
Defined.

(** C5, counterexample.  The yoga challenge of the seeded catalog has
    no workout goal, yet the record created by joining it tracks
    workouts against the target 14 (its duration), and the aggregator
    counts that pair as one of three criteria. *)
Lemma yoga_join_tracks_workouts :
  (goals <$> getChallengeById "2" freshStore) =
    Some {[ "totalSessions" := 14%Q; "totalMinutes" := 280%Q ]} ∧
  (progress <$> join_userChallenge (fst (joinChallenge 1000 "2" freshStore))) =
    Some {| currentDay := 1; totalDays := 14;
            completedWorkouts := 0; totalWorkouts := 14;
            currentDistance := None; totalDistance := None;
            currentCalories := None; totalCalories := None;
            currentMinutes := Some 0%Q; totalMinutes := Some 280%Q;
            currentSessions := Some 0%Q; totalSessions := Some 14%Q |} ∧
  (snd ∘ criteria ∘ progress <$> join_userChallenge (fst (joinChallenge 1000 "2" freshStore)))
    = Some 3.
Proof. split_and!; by vm_compute. Qed.

End Seeding.

(** ** Join followed by updates *)

Section Scenarios.

Local Open Scope Q_scope.

(** The record that a join has appended is the one that later updates
    of the challenge act on, provided no earlier record of the user is
    for the same challenge. *)
Lemma recordFor_last (user : User) (cid : string) (s : Store)
    (l : list UserChallenge) (uc : UserChallenge) :
  allUserChallenges s !! user_id user = Some (l ++ [uc]) →
  Forall (λ x, challengeId x ≠ cid) l →
  challengeId uc = cid →
  recordFor user cid s = Some uc.
Proof.
  intros Hl Hfree Hcid. unfold recordFor, recordsOf. rewrite Hl. simpl.
  by apply (find_app_last (λ x, challengeId x = cid)).
Qed.

(** C2. The worked scenario of the specification: challenge X of 10
    days with goals of 50 distance units and 5 workouts.  The join seeds
    the six progress fields in the record it returns and stores, and the
    update of distance 25 with a completed workout leaves distance 25,
    one workout, day 2, a percentage of 35 and an active record: in the
    result it returns and in the record it has stored. *)
Theorem scenario_X_join_then_update (now1 now2 : Z) (s : Store)
    (user : User) (challenge : Challenge) :
  getCurrentUser s = Some user →
  getChallengeById "X" s = Some challenge →
  duration challenge = 10%Z →
  goals challenge = {[ "totalDistance" := 50; "totalWorkouts" := 5 ]} →
  Forall (λ uc, challengeId uc ≠ "X") (recordsOf user s) →
  (length (filter (λ uc, status uc = active) (getUserChallenges None s))
     < MAX_ACTIVE_CHALLENGES)%nat →
  ∃ uc s1 r2 s2,
    joinChallenge now1 "X" s =
      (mkJoinResult true (msg_joined challenge) (Some uc), s1) ∧
    progress uc =
      {| currentDay := 1; totalDays := 10;
         completedWorkouts := 0; totalWorkouts := 5;
         currentDistance := Some 0; totalDistance := Some 50;
         currentCalories := None; totalCalories := None;
         currentMinutes := None; totalMinutes := None;
         currentSessions := None; totalSessions := None |} ∧
    updateChallengeProgress now2 "X"
      (mkProgressData (Some 25) None None (Some true)) s1 = (r2, s2) ∧
    update_success r2 = true ∧
    update_progress r2 =
      Some {| currentDay := 2; totalDays := 10;
              completedWorkouts := 1; totalWorkouts := 5;
              currentDistance := Some 25; totalDistance := Some 50;
              currentCalories := None; totalCalories := None;
              currentMinutes := None; totalMinutes := None;
              currentSessions := None; totalSessions := None |} ∧
    update_completionPercentage r2 = Some (Js.Num 35) ∧
    (status <$> recordFor user "X" s2) = Some active ∧
    recordFor user "X" s1 = Some uc ∧
    (progress <$> recordFor user "X" s2) =
      Some {| currentDay := 2; totalDays := 10;
              completedWorkouts := 1; totalWorkouts := 5;
              currentDistance := Some 25; totalDistance := Some 50;
              currentCalories := None; totalCalories := None;
              currentMinutes := None; totalMinutes := None;
              currentSessions := None; totalSessions := None |} ∧
    (calculateChallengeProgress <$> recordFor user "X" s2) = Some (Js.Num 35) ∧
    (completedAt <$> recordFor user "X" s2) = Some None.
Proof.
  intros Hu Hc Hd Hg Hfree Hn.
  pose proof (no_record_not_joined "X" s user Hu Hfree) as Hj.
  set (uc := newUserChallenge now1 user "X" challenge).
  set (d := mkProgressData (Some 25) None None (Some true)).
  assert (progress uc =
      {| currentDay := 1; totalDays := 10;
         completedWorkouts := 0; totalWorkouts := 5;
         currentDistance := Some 0; totalDistance := Some 50;
         currentCalories := None; totalCalories := None;
         currentMinutes := None; totalMinutes := None;
         currentSessions := None; totalSessions := None |}) as Hp.
  { subst uc. simpl. unfold initialProgress, initializeChallengeProgress.
    rewrite Hd, Hg. by vm_compute. }
  pose proof (updateChallengeProgress_last now2 "X" d
    (joinedStore now1 user "X" challenge s) user (recordsOf user s) uc) as Hupd.
  rewrite joinedStore_session in Hupd.
  specialize (Hupd Hu (joinedStore_records _ _ _ _ _) Hfree eq_refl).
  assert (recordFor user "X"
            (set_allUserChallenges
               (<[user_id user := recordsOf user s ++ [updatedUserChallenge now2 d uc]]>
                  (allUserChallenges (joinedStore now1 user "X" challenge s)))
               (joinedStore now1 user "X" challenge s))
          = Some (updatedUserChallenge now2 d uc)) as Hstored.
  { apply (recordFor_last user "X" _ (recordsOf user s)).
    - apply lookup_insert_eq.
    - done.
    - by rewrite updatedUserChallenge_challengeId. }
  eexists uc, _, _, _. split_and!.
  - by apply joinChallenge_joins.
  - done.
  - exact Hupd.
  - done.
  - unfold updateResult, update_progress.
    rewrite updatedUserChallenge_progress, Hp. by vm_compute.
  - unfold updateResult, update_completionPercentage.
    rewrite completionPercentageAfter_progress, Hp. by vm_compute.
  - rewrite Hstored. cbn [fmap option_fmap option_map].
    rewrite updatedUserChallenge_status, completionPercentageAfter_progress, Hp.
    by vm_compute.
  - apply (recordFor_last user "X" _ (recordsOf user s) uc); try done.
    apply joinedStore_records.
  - rewrite Hstored. cbn [fmap option_fmap option_map].
    rewrite updatedUserChallenge_progress, Hp. by vm_compute.
  - rewrite Hstored. cbn [fmap option_fmap option_map].
    unfold calculateChallengeProgress.
    rewrite updatedUserChallenge_progress, Hp. by vm_compute.
  - rewrite Hstored. cbn [fmap option_fmap option_map].
    rewrite updatedUserChallenge_completedAt, completionPercentageAfter_progress, Hp.
    by vm_compute.
Qed.

Lemma scenario_X_join_then_update_witness :
  ∃ uc s1 r2 s2,
    joinChallenge 1000 "X" scenarioStore =
      (mkJoinResult true (msg_joined challengeX) (Some uc), s1) ∧
    progress uc =
      {| currentDay := 1; totalDays := 10;
         completedWorkouts := 0; totalWorkouts := 5;
         currentDistance := Some 0; totalDistance := Some 50;
         currentCalories := None; totalCalories := None;
         currentMinutes := None; totalMinutes := None;
         currentSessions := None; totalSessions := None |} ∧
    updateChallengeProgress 2000 "X"
      (mkProgressData (Some 25) None None (Some true)) s1 = (r2, s2) ∧
    update_success r2 = true ∧
    update_progress r2 =
      Some {| currentDay := 2; totalDays := 10;
              completedWorkouts := 1; totalWorkouts := 5;
              currentDistance := Some 25; totalDistance := Some 50;
              currentCalories := None; totalCalories := None;
              currentMinutes := None; totalMinutes := None;
              currentSessions := None; totalSessions := None |} ∧
    update_completionPercentage r2 = Some (Js.Num 35) ∧
    (status <$> recordFor demoUser "X" s2) = Some active ∧
    recordFor demoUser "X" s1 = Some uc ∧
    (progress <$> recordFor demoUser "X" s2) =
      Some {| currentDay := 2; totalDays := 10;
              completedWorkouts := 1; totalWorkouts := 5;
              currentDistance := Some 25; totalDistance := Some 50;
              currentCalories := None; totalCalories := None;
              currentMinutes := None; totalMinutes := None;
              currentSessions := None; totalSessions := None |} ∧
    (calculateChallengeProgress <$> recordFor demoUser "X" s2) = Some (Js.Num 35) ∧
    (completedAt <$> recordFor demoUser "X" s2) = Some None.
Proof.
  apply (scenario_X_join_then_update 1000 2000 scenarioStore demoUser challengeX).
  - by vm_compute.
  - by vm_compute.
  - by vm_compute.
  - by vm_compute.
  - vm_compute. constructor.
  - vm_compute. lia.
Defined.

(** After a successful update the record that the call acted on holds
    the mutated progress, the percentage returned is the one computed
    from it, and reaching 100 completes the record at the time of the
    call; below 100 the status and completedAt stay as they were. *)
Lemma updateChallengeProgress_transition (now : Z) (cid : string)
    (d : ProgressData) (s : Store) :
  update_success (fst (updateChallengeProgress now cid d s)) = true →
  ∃ user uc uc',
    getCurrentUser s = Some user ∧
    recordFor user cid s = Some uc ∧
    recordFor user cid (snd (updateChallengeProgress now cid d s)) = Some uc' ∧
    progress uc' = applyProgressData d (progress uc) ∧
    update_completionPercentage (fst (updateChallengeProgress now cid d s))
      = Some (calculateChallengeProgress uc') ∧
    (Js.ge (calculateChallengeProgress uc') (Js.Num 100) = true →
       status uc' = completed ∧ completedAt uc' = Some now) ∧
    (Js.ge (calculateChallengeProgress uc') (Js.Num 100) = false →
       status uc' = status uc ∧ completedAt uc' = completedAt uc).
Proof.
  intros Hok.
  destruct (updateChallengeProgress_success_inv now cid d s Hok)
    as (user & l & i & uc & Hu & Hl & Hi & Hli & Hcid).
  rewrite (updateChallengeProgress_found now cid d s user l i uc Hu Hl Hi Hli).
  assert (recordFor user cid s = Some uc) as Hr.
  { unfold recordFor, recordsOf. rewrite Hl. simpl.
    by rewrite (find_at_findIndex _ _ i Hi). }
  exists user, uc, (updatedUserChallenge now d uc).
  assert (calculateChallengeProgress (updatedUserChallenge now d uc)
          = completionPercentageAfter d uc) as Hpct.
  { unfold calculateChallengeProgress.
    by rewrite updatedUserChallenge_progress. }
  rewrite Hpct.
  split_and!; try done.
  - unfold recordFor, recordsOf. simpl. rewrite lookup_insert_eq. simpl.
    rewrite (find_alter_found (λ x, challengeId x = cid)
               (updatedUserChallenge now d) i l).
    + unfold recordFor, recordsOf in Hr. rewrite Hl in Hr. simpl in Hr.
      by rewrite Hr.
    + intros x. by rewrite updatedUserChallenge_challengeId.
    + done.
  - apply updatedUserChallenge_progress.
  - intros Hge. by rewrite updatedUserChallenge_status,
      updatedUserChallenge_completedAt, Hge.
  - intros Hge. by rewrite updatedUserChallenge_status,
      updatedUserChallenge_completedAt, Hge.
Qed.

(** A challenge of two days whose only tracked goal is two workouts:
    the first completed workout brings the record to 50 and leaves it
    active, the second brings it to 100 and completes it. *)
Lemma two_workouts_complete (now1 now2 now3 : Z) (cid : string) (s : Store)
    (user : User) (challenge : Challenge) :
  getCurrentUser s = Some user →
  getChallengeById cid s = Some challenge →
  duration challenge = 2%Z →
  goals challenge !! "totalWorkouts" = Some 2 →
  Js.truthy (goals challenge !! "totalDistance") = false →
  Js.truthy (goals challenge !! "caloriesBurned") = false →
  Js.truthy (goals challenge !! "totalMinutes") = false →
  Js.truthy (goals challenge !! "totalSessions") = false →
  Forall (λ uc, challengeId uc ≠ cid) (recordsOf user s) →
  (length (filter (λ uc, status uc = active) (getUserChallenges None s))
     < MAX_ACTIVE_CHALLENGES)%nat →
  ∃ r1 s1 r2 s2 r3 s3 uc2 uc3,
    joinChallenge now1 cid s = (r1, s1) ∧ join_success r1 = true ∧
    updateChallengeProgress now2 cid oneWorkout s1 = (r2, s2) ∧
    update_completionPercentage r2 = Some (Js.Num 50) ∧
    recordFor user cid s2 = Some uc2 ∧
    status uc2 = active ∧ completedAt uc2 = None ∧
    updateChallengeProgress now3 cid oneWorkout s2 = (r3, s3) ∧
    update_completionPercentage r3 = Some (Js.Num 100) ∧
    recordFor user cid s3 = Some uc3 ∧
    status uc3 = completed ∧ completedAt uc3 = Some now3 ∧
    update_success r2 = true ∧ update_success r3 = true ∧
    (completedWorkouts (progress uc2), totalWorkouts (progress uc2)) = (1, 2) ∧
    (completedWorkouts (progress uc3), totalWorkouts (progress uc3)) = (2, 2) ∧
    calculateChallengeProgress uc2 = Js.Num 50 ∧
    calculateChallengeProgress uc3 = Js.Num 100.
Proof.
  intros Hu Hc Hd Hw Hdist Hcal Hmin Hses Hfree Hn.
  pose proof (no_record_not_joined cid s user Hu Hfree) as Hj.
  set (uc := newUserChallenge now1 user cid challenge).
  set (uc2 := updatedUserChallenge now2 oneWorkout uc).
  set (uc3 := updatedUserChallenge now3 oneWorkout uc2).
  set (s1 := joinedStore now1 user cid challenge s).
  assert (progress uc =
      {| currentDay := 1; totalDays := 2;
         completedWorkouts := 0; totalWorkouts := 2;
         currentDistance := None; totalDistance := None;
         currentCalories := None; totalCalories := None;
         currentMinutes := None; totalMinutes := None;
         currentSessions := None; totalSessions := None |}) as Hp.
  { subst uc. cbn [progress newUserChallenge].
    unfold initialProgress, initializeChallengeProgress, seed_current, seed_total.
    cbn [gp_currentDistance gp_totalDistance gp_currentCalories gp_totalCalories
         gp_currentMinutes gp_totalMinutes gp_currentSessions gp_totalSessions].
    by rewrite Hd, Hw, Hdist, Hcal, Hmin, Hses. }
  assert (progress uc2 =
      {| currentDay := 2; totalDays := 2;
         completedWorkouts := 1; totalWorkouts := 2;
         currentDistance := None; totalDistance := None;
         currentCalories := None; totalCalories := None;
         currentMinutes := None; totalMinutes := None;
         currentSessions := None; totalSessions := None |}) as Hp2.
  { subst uc2. rewrite updatedUserChallenge_progress, Hp. by vm_compute. }
  assert (completionPercentageAfter oneWorkout uc = Js.Num 50) as Hpct2.
  { rewrite completionPercentageAfter_progress, Hp. by vm_compute. }
  assert (completionPercentageAfter oneWorkout uc2 = Js.Num 100) as Hpct3.
  { rewrite completionPercentageAfter_progress, Hp2. by vm_compute. }
  pose proof (updateChallengeProgress_last now2 cid oneWorkout s1 user
                (recordsOf user s) uc) as Hupd2.
  unfold s1 in Hupd2 at 1 2. rewrite joinedStore_session in Hupd2.
  specialize (Hupd2 Hu (joinedStore_records _ _ _ _ _) Hfree eq_refl).
  fold uc2 in Hupd2.
  set (s2 := set_allUserChallenges
               (<[user_id user := recordsOf user s ++ [uc2]]> (allUserChallenges s1)) s1)
    in *.
  assert (getCurrentUser s2 = Some user) as Hu2.
  { subst s2 s1. by rewrite getCurrentUser_set_allUserChallenges, joinedStore_session. }
  assert (allUserChallenges s2 !! user_id user = Some (recordsOf user s ++ [uc2])) as Hl2.
  { subst s2. simpl. apply lookup_insert_eq. }
  assert (challengeId uc2 = cid) as Hcid2.
  { subst uc2. by rewrite updatedUserChallenge_challengeId. }
  pose proof (updateChallengeProgress_last now3 cid oneWorkout s2 user
                (recordsOf user s) uc2 Hu2 Hl2 Hfree Hcid2) as Hupd3.
  fold uc3 in Hupd3.
  eexists _, s1, _, s2, _, _, uc2, uc3. split_and!.
  - by apply joinChallenge_joins.
  - done.
  - exact Hupd2.
  - unfold updateResult, update_completionPercentage. by rewrite Hpct2.
  - by apply (recordFor_last user cid s2 (recordsOf user s) uc2).
  - subst uc2. by rewrite updatedUserChallenge_status, Hpct2.
  - subst uc2. by rewrite updatedUserChallenge_completedAt, Hpct2.
  - exact Hupd3.
  - unfold updateResult, update_completionPercentage. by rewrite Hpct3.
  - apply (recordFor_last user cid _ (recordsOf user s) uc3).
    + apply lookup_insert_eq.
    + done.
    + subst uc3. by rewrite updatedUserChallenge_challengeId.
  - subst uc3. by rewrite updatedUserChallenge_status, Hpct3.
  - subst uc3. by rewrite updatedUserChallenge_completedAt, Hpct3.
  - done.
  - done.
  - by rewrite Hp2.
  - subst uc3. rewrite updatedUserChallenge_progress, Hp2. by vm_compute.
  - unfold calculateChallengeProgress. rewrite Hp2. by vm_compute.
  - unfold calculateChallengeProgress. subst uc3.
    rewrite updatedUserChallenge_progress, Hp2. by vm_compute.
Qed.

(** C6. Every successful updateChallengeProgress recomputes the
    percentage from the mutated progress, which it stores; when the
    percentage is 100 or more it sets the status to completed and stamps
    completedAt with the time of the call, and below 100 it leaves the
    status and completedAt as they were.  For a challenge of duration 2
    whose goal is two workouts, the first update with workoutCompleted
    gives 50 and leaves the record active and unstamped, and the second
    gives 100 and completes the record at the time of that call. *)
Theorem update_completion_transition :
  (∀ (now : Z) (cid : string) (d : ProgressData) (s : Store),
     update_success (fst (updateChallengeProgress now cid d s)) = true →
     ∃ user uc uc',
       getCurrentUser s = Some user ∧
       recordFor user cid s = Some uc ∧
       recordFor user cid (snd (updateChallengeProgress now cid d s)) = Some uc' ∧
       progress uc' = applyProgressData d (progress uc) ∧
       update_completionPercentage (fst (updateChallengeProgress now cid d s))
         = Some (calculateChallengeProgress uc') ∧
       (Js.ge (calculateChallengeProgress uc') (Js.Num 100) = true →
          status uc' = completed ∧ completedAt uc' = Some now) ∧
       (Js.ge (calculateChallengeProgress uc') (Js.Num 100) = false →
          status uc' = status uc ∧ completedAt uc' = completedAt uc)) ∧
  (∀ (now1 now2 now3 : Z) (cid : string) (s : Store)
     (user : User) (challenge : Challenge),
     getCurrentUser s = Some user →
     getChallengeById cid s = Some challenge →
     duration challenge = 2%Z →
     goals challenge !! "totalWorkouts" = Some 2 →
     Js.truthy (goals challenge !! "totalDistance") = false →
     Js.truthy (goals challenge !! "caloriesBurned") = false →
     Js.truthy (goals challenge !! "totalMinutes") = false →
     Js.truthy (goals challenge !! "totalSessions") = false →
     Forall (λ uc, challengeId uc ≠ cid) (recordsOf user s) →
     (length (filter (λ uc, status uc = active) (getUserChallenges None s))
        < MAX_ACTIVE_CHALLENGES)%nat →
     ∃ r1 s1 r2 s2 r3 s3 uc2 uc3,
       joinChallenge now1 cid s = (r1, s1) ∧ join_success r1 = true ∧
       updateChallengeProgress now2 cid oneWorkout s1 = (r2, s2) ∧
       update_completionPercentage r2 = Some (Js.Num 50) ∧
       recordFor user cid s2 = Some uc2 ∧
       status uc2 = active ∧ completedAt uc2 = None ∧
       updateChallengeProgress now3 cid oneWorkout s2 = (r3, s3) ∧
       update_completionPercentage r3 = Some (Js.Num 100) ∧
       recordFor user cid s3 = Some uc3 ∧
       status uc3 = completed ∧ completedAt uc3 = Some now3 ∧
       update_success r2 = true ∧ update_success r3 = true ∧
       (completedWorkouts (progress uc2), totalWorkouts (progress uc2)) = (1, 2) ∧
       (completedWorkouts (progress uc3), totalWorkouts (progress uc3)) = (2, 2) ∧
       calculateChallengeProgress uc2 = Js.Num 50 ∧
       calculateChallengeProgress uc3 = Js.Num 100).
Proof.
  split.
  - apply updateChallengeProgress_transition.
  - apply two_workouts_complete.
Qed.

Lemma update_completion_transition_witness :
  ∃ r1 s1 r2 s2 r3 s3 uc2 uc3,
    joinChallenge 1000 "W" twoWorkoutsStore = (r1, s1) ∧ join_success r1 = true ∧
    updateChallengeProgress 2000 "W" oneWorkout s1 = (r2, s2) ∧
    update_completionPercentage r2 = Some (Js.Num 50) ∧
    recordFor demoUser "W" s2 = Some uc2 ∧
    status uc2 = active ∧ completedAt uc2 = None ∧
    updateChallengeProgress 3000 "W" oneWorkout s2 = (r3, s3) ∧
    update_completionPercentage r3 = Some (Js.Num 100) ∧
    recordFor demoUser "W" s3 = Some uc3 ∧
    status uc3 = completed ∧ completedAt uc3 = Some 3000%Z ∧
    update_success r2 = true ∧ update_success r3 = true ∧
    (completedWorkouts (progress uc2), totalWorkouts (progress uc2)) = (1, 2) ∧
    (completedWorkouts (progress uc3), totalWorkouts (progress uc3)) = (2, 2) ∧
    calculateChallengeProgress uc2 = Js.Num 50 ∧
    calculateChallengeProgress uc3 = Js.Num 100.
Proof.
  apply (proj2 update_completion_transition 1000%Z 2000%Z 3000%Z "W"
           twoWorkoutsStore demoUser twoWorkouts).
  - by vm_compute.
  - by vm_compute.
  - by vm_compute.
  - by vm_compute.
  - by vm_compute.
  - by vm_compute.
  - by vm_compute.
  - by vm_compute.
  - vm_compute. constructor.
  - vm_compute. lia.
Defined.

End Scenarios.

(** ** Leaving a challenge *)

Section Leaving.

(** The successful path of leaveChallenge. *)
Lemma leaveChallenge_found (now : Z) (cid : string) (s : Store) (user : User)
    (l : list UserChallenge) (i : nat) :
  getCurrentUser s = Some user →
  allUserChallenges s !! user_id user = Some l →
  findIndex (λ uc, challengeId uc = cid) l = Some i →
  leaveChallenge now cid s =
    (mkLeaveResult true "Challenge abandoned",
     updateChallengeParticipants cid (-1)
       (set_allUserChallenges
          (<[user_id user := alter (abandon now) i l]> (allUserChallenges s)) s)).
Proof.
  intros Hu Hl Hi. unfold leaveChallenge. by rewrite Hu, Hl, Hi.
Qed.

Lemma getChallengeById_challenges (cid : string) (s s' : Store) :
  challenges s' = challenges s → getChallengeById cid s' = getChallengeById cid s.
Proof. unfold getChallengeById, getChallenges. by intros ->. Qed.

(** C8. When a join succeeds, leaving the same challenge afterwards
    succeeds too; the join had raised the participants counter of the
    challenge by one and the leave lowers it by one, which restores the
    catalog; and the record of the user for the challenge is left
    abandoned with its end date set to the time of the leave.  For a
    user with a non-empty id that record is the one the join created. *)
Theorem join_then_leave (now1 now2 : Z) (cid : string) (s s1 : Store)
    (r1 : JoinResult) :
  joinChallenge now1 cid s = (r1, s1) →
  join_success r1 = true →
  ∃ user challenge uc1,
    getCurrentUser s = Some user ∧
    getChallengeById cid s = Some challenge ∧
    (participants <$> getChallengeById cid s1) = Some (participants challenge + 1)%Z ∧
    leave_success (fst (leaveChallenge now2 cid s1)) = true ∧
    (participants <$> getChallengeById cid (snd (leaveChallenge now2 cid s1)))
      = Some (participants challenge) ∧
    challenges (snd (leaveChallenge now2 cid s1)) = challenges s ∧
    recordFor user cid s1 = Some uc1 ∧
    recordFor user cid (snd (leaveChallenge now2 cid s1)) = Some (abandon now2 uc1) ∧
    status (abandon now2 uc1) = abandoned ∧
    endDate (abandon now2 uc1) = now2 ∧
    (user_id user ≠ "" → join_userChallenge r1 = Some uc1).
Proof.
  intros Hjoin Hok.
  destruct (joinChallenge_success_inv now1 cid s) as (user & challenge & Hu & Hc & Hj & Hn).
  { by rewrite Hjoin. }
  rewrite (joinChallenge_joins now1 cid s user challenge Hu Hc Hj Hn) in Hjoin.
  injection Hjoin as <- <-.
  set (uc := newUserChallenge now1 user cid challenge).
  set (s1 := joinedStore now1 user cid challenge s).
  set (l := recordsOf user s ++ [uc]).
  assert (allUserChallenges s1 !! user_id user = Some l) as Hl
    by apply joinedStore_records.
  assert (getCurrentUser s1 = Some user) as Hu1
    by (subst s1; by rewrite joinedStore_session).
  assert (∃ i uc1, findIndex (λ x, challengeId x = cid) l = Some i ∧
                   find (λ x, challengeId x = cid) l = Some uc1) as (i & uc1 & Hi & Hf).
  { destruct (find (λ x, challengeId x = cid) l) as [uc1|] eqn:Ef.
    - destruct (find_Some_findIndex _ _ _ Ef) as (i & Hi & _). by exists i, uc1.
    - apply (find_None (λ x, challengeId x = cid)) in Ef.
      subst l. apply Forall_app in Ef as [_ Ef].
      apply Forall_inv in Ef. by exfalso; apply Ef. }
  rewrite (leaveChallenge_found now2 cid s1 user l i Hu1 Hl Hi).
  cbn [fst snd leave_success].
  assert (challenges
            (updateChallengeParticipants cid (-1)
               (set_allUserChallenges
                  (<[user_id user := alter (abandon now2) i l]> (allUserChallenges s1)) s1))
          = challenges s) as Hcat.
  { rewrite (updateChallengeParticipants_inverse cid
               (set_allUserChallenges
                  (<[user_id user := default [] (allUserChallenges s !! user_id user)
                                       ++ [uc]]> (allUserChallenges s)) s)); done. }
  exists user, challenge, uc1. split_and!; try done.
  - subst s1. by rewrite joinedStore_challenge, Hc.
  - by rewrite (getChallengeById_challenges cid s _ Hcat), Hc.
  - unfold recordFor, recordsOf. by rewrite Hl.
  - unfold recordFor, recordsOf.
    rewrite updateChallengeParticipants_allUserChallenges.
    cbn [allUserChallenges set_allUserChallenges].
    rewrite lookup_insert_eq. cbn [default].
    rewrite (find_alter_found (λ x, challengeId x = cid) (abandon now2) i l); try done.
    by rewrite Hf.
  - intros Hid. cbn [join_userChallenge]. f_equal.
    apply hasJoinedChallenge_false in Hj.
    rewrite (getUserChallenges_current s user Hu) in Hj.
    assert (truthy_id (Some (user_id user)) = true) as Ht.
    { unfold truthy_id. apply negb_true_iff, String.eqb_neq. done. }
    rewrite Ht in Hj. fold (recordsOf user s) in Hj.
    subst l. rewrite (find_app_last (λ x, challengeId x = cid)) in Hf by done.
    congruence.
Qed.

Lemma join_then_leave_witness :
  ∃ user challenge uc1,
    getCurrentUser freshStore = Some user ∧
    getChallengeById "1" freshStore = Some challenge ∧
    (participants <$> getChallengeById "1" (snd (joinChallenge 1000 "1" freshStore)))
      = Some (participants challenge + 1)%Z ∧
    leave_success (fst (leaveChallenge 2000 "1" (snd (joinChallenge 1000 "1" freshStore))))
      = true ∧
    (participants <$>
       getChallengeById "1"
         (snd (leaveChallenge 2000 "1" (snd (joinChallenge 1000 "1" freshStore)))))
      = Some (participants challenge) ∧
    challenges (snd (leaveChallenge 2000 "1" (snd (joinChallenge 1000 "1" freshStore))))
      = challenges freshStore ∧
    recordFor user "1" (snd (joinChallenge 1000 "1" freshStore)) = Some uc1 ∧
    recordFor user "1"
      (snd (leaveChallenge 2000 "1" (snd (joinChallenge 1000 "1" freshStore))))
      = Some (abandon 2000 uc1) ∧
    status (abandon 2000 uc1) = abandoned ∧
    endDate (abandon 2000 uc1) = 2000%Z ∧
    (user_id user ≠ "" →
     join_userChallenge (fst (joinChallenge 1000 "1" freshStore)) = Some uc1).
Proof.
  apply (join_then_leave 1000 2000 "1" freshStore
           (snd (joinChallenge 1000 "1" freshStore))
           (fst (joinChallenge 1000 "1" freshStore))).
  - by vm_compute.
  - by vm_compute.
Defined.

End Leaving.

(** ** The day counter *)

Section Days.

Lemma applyProgressData_days (d : ProgressData) (p : Progress) :
  (currentDay p <= totalDays p)%Q →
  (currentDay (applyProgressData d p) <= totalDays (applyProgressData d p))%Q.
Proof.
  intros Hp. unfold applyProgressData. cbn [currentDay totalDays].
  destruct (truthy_flag (workoutCompleted d)); [apply minQ_le_r|done].
Qed.

Lemma updatedUserChallenge_days (now : Z) (d : ProgressData) (uc : UserChallenge) :
  days_ok uc → days_ok (updatedUserChallenge now d uc).
Proof.
  unfold days_ok. rewrite updatedUserChallenge_progress.
  apply applyProgressData_days.
Qed.

Lemma abandon_days (now : Z) (uc : UserChallenge) :
  days_ok uc → days_ok (abandon now uc).
Proof. done. Qed.

Lemma newUserChallenge_days (now : Z) (user : User) (cid : string) (c : Challenge) :
  (1 ≤ duration c)%Z → days_ok (newUserChallenge now user cid c).
Proof.
  intros Hd. unfold days_ok. cbn [progress newUserChallenge].
  unfold initialProgress. cbn [currentDay totalDays].
  change 1%Q with (inject_Z 1). by rewrite <- Zle_Qle.
Qed.

(** Rewriting the list of one user keeps the invariant when the new
    list satisfies it. *)
Lemma store_days_ok_insert (s : Store) (u : string) (l : list UserChallenge) :
  store_days_ok s → Forall days_ok l →
  store_days_ok (set_allUserChallenges (<[u := l]> (allUserChallenges s)) s).
Proof.
  intros Hs Hl u' l'. cbn [allUserChallenges set_allUserChallenges].
  destruct (decide (u = u')) as [->|Hne].
  - rewrite lookup_insert_eq. by intros [= <-].
  - rewrite lookup_insert_ne by done. apply Hs.
Qed.

Lemma store_days_ok_participants (cid : string) (inc : Z) (s : Store) :
  store_days_ok s → store_days_ok (updateChallengeParticipants cid inc s).
Proof.
  unfold store_days_ok. by rewrite updateChallengeParticipants_allUserChallenges.
Qed.

Lemma updateChallengeProgress_days (now : Z) (cid : string) (d : ProgressData)
    (s : Store) :
  store_days_ok s → store_days_ok (snd (updateChallengeProgress now cid d s)).
Proof.
  intros Hs. unfold updateChallengeProgress.
  destruct (getCurrentUser s) as [user|]; [|done].
  destruct (allUserChallenges s !! user_id user) as [l|] eqn:El; [|done].
  destruct (findIndex _ l) as [i|]; [|done].
  destruct (l !! i) as [uc|]; [|done].
  cbn [snd]. apply store_days_ok_insert; [done|].
  apply Forall_alter; [by eapply Hs|].
  intros x _. apply updatedUserChallenge_days.
Qed.

Lemma leaveChallenge_days (now : Z) (cid : string) (s : Store) :
  store_days_ok s → store_days_ok (snd (leaveChallenge now cid s)).
Proof.
  intros Hs. unfold leaveChallenge.
  destruct (getCurrentUser s) as [user|]; [|done].
  destruct (allUserChallenges s !! user_id user) as [l|] eqn:El; [|done].
  destruct (findIndex _ l) as [i|]; [|done].
  cbn [snd]. apply store_days_ok_participants, store_days_ok_insert; [done|].
  apply Forall_alter; [by eapply Hs|].
  intros x _. apply abandon_days.
Qed.

Lemma syncChallengeProgress_days (now : Z) (cid : string)
    (stravaResponse : option (list StravaActivity))
    (fitbitResponse : option FitbitDaily) (s : Store) :
  store_days_ok s →
  store_days_ok (snd (syncChallengeProgress now cid stravaResponse fitbitResponse s)).
Proof.
  intros Hs. unfold syncChallengeProgress.
  destruct (getChallengeById cid s) as [c|]; [|done].
  destruct (hasSyncedData _); [|done].
  cbn [snd]. by apply updateChallengeProgress_days.
Qed.

Lemma getChallengeById_elem_of (cid : string) (s : Store) (c : Challenge) :
  getChallengeById cid s = Some c → c ∈ challenges s.
Proof.
  unfold getChallengeById, getChallenges. intros Hf.
  apply find_Some_findIndex in Hf as (i & _ & Hi & _).
  by eapply list_elem_of_lookup_2.
Qed.

Lemma joinChallenge_days (now : Z) (cid : string) (s : Store) :
  catalog_durations_ok s → store_days_ok s →
  store_days_ok (snd (joinChallenge now cid s)) ∧
  ∀ uc, join_userChallenge (fst (joinChallenge now cid s)) = Some uc → days_ok uc.
Proof.
  intros Hcat Hs. unfold joinChallenge.
  destruct (negb (isLoggedIn s)); [done|].
  destruct (getCurrentUser s) as [user|]; [|done].
  destruct (getChallengeById cid s) as [c|] eqn:Ec; [|done].
  destruct (hasJoinedChallenge cid None s); [done|].
  destruct (Nat.leb _ _); [done|].
  assert (days_ok (newUserChallenge now user cid c)) as Hnew.
  { apply newUserChallenge_days.
    apply getChallengeById_elem_of in Ec.
    by eapply Forall_forall in Hcat. }
  cbn [fst snd join_userChallenge]. split.
  - apply store_days_ok_participants, store_days_ok_insert; [done|].
    apply Forall_app. split; [|by apply Forall_singleton].
    destruct (allUserChallenges s !! user_id user) as [l|] eqn:El; [|done].
    by eapply Hs.
  - by intros uc [= <-].
Qed.

(** C9. The day counter never passes the length of the challenge.
    updateChallengeProgress keeps the bound on the record it rewrites,
    whatever the delta (a completed workout moves the day to
    min (currentDay + 1, totalDays)); so the bound on every stored
    record is preserved by updateChallengeProgress, by leaveChallenge
    and by syncChallengeProgress, and by joinChallenge when every
    challenge of the catalog lasts at least one day, in which case the
    record that the join creates (day 1 of the duration) satisfies it. *)
Theorem currentDay_never_exceeds_totalDays (s : Store) :
  store_days_ok s →
  (∀ now d uc, days_ok uc → days_ok (updatedUserChallenge now d uc)) ∧
  (∀ now cid d, store_days_ok (snd (updateChallengeProgress now cid d s))) ∧
  (∀ now cid, store_days_ok (snd (leaveChallenge now cid s))) ∧
  (∀ now cid stravaResponse fitbitResponse,
     store_days_ok (snd (syncChallengeProgress now cid stravaResponse fitbitResponse s))) ∧
  (catalog_durations_ok s →
   ∀ now cid,
     store_days_ok (snd (joinChallenge now cid s)) ∧
     ∀ uc, join_userChallenge (fst (joinChallenge now cid s)) = Some uc → days_ok uc).
Proof.
  intros Hs. split_and!.
  - intros now d uc. apply updatedUserChallenge_days.
  - intros now cid d. by apply updateChallengeProgress_days.
  - intros now cid. by apply leaveChallenge_days.
  - intros now cid sr fr. by apply syncChallengeProgress_days.
  - intros Hcat now cid. by apply joinChallenge_days.
Qed.

End Days.

Section DaysWitness.

Lemma days_okb_spec (uc : UserChallenge) : days_okb uc = true → days_ok uc.
Proof. unfold days_okb, days_ok. apply Qle_bool_imp_le. Qed.

Lemma store_days_okb_spec (s : Store) : store_days_okb s = true → store_days_ok s.
Proof.
  unfold store_days_okb. rewrite forallb_forall. intros Hall u l Hl.
  apply elem_of_map_to_list in Hl. apply list_elem_of_In in Hl.
  specialize (Hall _ Hl). cbn [snd] in Hall.
  rewrite forallb_forall in Hall.
  apply Forall_forall. intros uc Huc. apply days_okb_spec, Hall.
  by apply list_elem_of_In.
Qed.

Lemma currentDay_never_exceeds_totalDays_witness :
  store_days_ok joinedOnce ∧
  store_days_ok (snd (updateChallengeProgress 2000 "1" oneWorkout joinedOnce)) ∧
  store_days_ok (snd (joinChallenge 3000 "2" joinedOnce)).
Proof.
  assert (store_days_ok joinedOnce) as Hs
    by (apply store_days_okb_spec; vm_compute; reflexivity).
  destruct (currentDay_never_exceeds_totalDays joinedOnce Hs)
    as (_ & Hupd & _ & _ & Hjoin).
  split_and!.
  - exact Hs.
  - apply Hupd.
  - apply Hjoin. unfold catalog_durations_ok. vm_compute.
    repeat constructor; discriminate.
Defined.

End DaysWitness.

(** ** Deltas that change nothing *)

Section Inert.

Lemma accumulate_inert (current delta : option Q) :
  absent_or_zero delta → accumulate current delta = current.
Proof.
  intros [->|(q & -> & Hq)]; [done|].
  unfold accumulate. apply truthyQ_false in Hq. by rewrite Hq.
Qed.

Lemma applyProgressData_inert (d : ProgressData) (p : Progress) :
  inert d → applyProgressData d p = p.
Proof.
  intros (Hd & Hc & Hm & Hw). unfold applyProgressData.
  rewrite !accumulate_inert by done.
  assert (truthy_flag (workoutCompleted d) = false) as ->
    by (by destruct Hw as [-> | ->]).
  by destruct p.
Qed.

Lemma updatedUserChallenge_inert_progress (now : Z) (d : ProgressData)
    (uc : UserChallenge) :
  inert d → progress (updatedUserChallenge now d uc) = progress uc.
Proof.
  intros Hd. by rewrite updatedUserChallenge_progress, applyProgressData_inert.
Qed.

(** C10. For a logged-in user who holds a record for the challenge, an
    update whose delta has every field absent, zero or false succeeds,
    returns the progress of the record as it was, and leaves the
    progress of every stored record, of every user, unchanged. *)
Theorem updateChallengeProgress_inert (now : Z) (cid : string) (d : ProgressData)
    (s : Store) (user : User) (uc : UserChallenge) :
  getCurrentUser s = Some user →
  recordFor user cid s = Some uc →
  inert d →
  update_success (fst (updateChallengeProgress now cid d s)) = true ∧
  update_progress (fst (updateChallengeProgress now cid d s)) = Some (progress uc) ∧
  (progress <$> recordFor user cid (snd (updateChallengeProgress now cid d s)))
    = Some (progress uc) ∧
  ∀ u, (fmap progress <$> allUserChallenges (snd (updateChallengeProgress now cid d s)) !! u)
       = (fmap progress <$> allUserChallenges s !! u).
Proof.
  intros Hu Hr Hd.
  destruct (updateChallengeProgress_joined now cid d s user uc Hu Hr)
    as (l & i & Hl & Hi & Hli & ->).
  cbn [fst snd update_success update_progress updateResult].
  split_and!.
  - done.
  - by rewrite updatedUserChallenge_inert_progress.
  - unfold recordFor, recordsOf. cbn [allUserChallenges set_allUserChallenges].
    rewrite lookup_insert_eq. cbn [default].
    rewrite (find_alter_found (λ x, challengeId x = cid)
               (updatedUserChallenge now d) i l); try done.
    + rewrite (find_at_findIndex _ _ i Hi), Hli. simpl.
      by rewrite updatedUserChallenge_inert_progress.
    + intros x. by rewrite updatedUserChallenge_challengeId.
  - intros u. cbn [allUserChallenges set_allUserChallenges].
    destruct (decide (user_id user = u)) as [<-|Hne].
    + rewrite lookup_insert_eq, Hl. simpl. f_equal.
      rewrite (list_fmap_alter progress (updatedUserChallenge now d) (λ p, p)).
      * by apply list_alter_id.
      * apply Forall_forall. intros x _.
        by apply updatedUserChallenge_inert_progress.
    + by rewrite lookup_insert_ne.
Qed.

Lemma updateChallengeProgress_inert_witness :
  update_success
    (fst (updateChallengeProgress 2000 "1"
            (mkProgressData (Some 0%Q) None (Some 0%Q) (Some false)) joinedOnce)) = true ∧
  update_progress
    (fst (updateChallengeProgress 2000 "1"
            (mkProgressData (Some 0%Q) None (Some 0%Q) (Some false)) joinedOnce))
    = Some (initialProgress runningChallenge).
Proof.
  destruct (updateChallengeProgress_inert 2000 "1"
              (mkProgressData (Some 0%Q) None (Some 0%Q) (Some false))
              joinedOnce demoUser
              (newUserChallenge 1000 demoUser "1" runningChallenge))
    as (Hok & Hp & _).
  - by vm_compute.
  - by vm_compute.
  - unfold inert. cbn [distance calories minutes workoutCompleted].
    split_and!.
    + right. by exists 0%Q.
    + by left.
    + right. by exists 0%Q.
    + by right.
  - split; [exact Hok|exact Hp].
Defined.

End Inert.

(** ** Sync merger *)

Section Sync.

Lemma or_first_nonzero (a b : option Q) :
  first_nonzero a b (Js.or (Js.or a b) (Some 0%Q)).
Proof.
  unfold first_nonzero, absent_or_zero, Js.or. split_and!.
  - intros x -> Hx. simpl. apply truthyQ_true in Hx. rewrite Hx. simpl. by rewrite Hx.
  - intros y Ha -> Hy. apply truthyQ_true in Hy.
    assert (Js.truthy a = false) as ->.
    { destruct Ha as [->|(x & -> & Hx)]; [done|]. by apply truthyQ_false. }
    simpl. by rewrite Hy.
  - intros Ha Hb.
    assert (Js.truthy a = false) as ->.
    { destruct Ha as [->|(x & -> & Hx)]; [done|]. by apply truthyQ_false. }
    assert (Js.truthy b = false) as ->.
    { destruct Hb as [->|(y & -> & Hy)]; [done|]. by apply truthyQ_false. }
    done.
Qed.

Lemma hasSyncedData_answered (challenge : Challenge)
    (stravaResponse : option (list StravaActivity))
    (fitbitResponse : option FitbitDaily) :
  hasSyncedData (collectSyncedData challenge stravaResponse fitbitResponse) =
  stravaAnswered challenge stravaResponse || bool_decide (is_Some fitbitResponse).
Proof.
  unfold hasSyncedData, collectSyncedData, stravaAnswered. cbn [strava fitbit].
  destruct (bool_decide (category challenge = RUNNING)
            || bool_decide (category challenge = CYCLING));
    destruct stravaResponse, fitbitResponse; done.
Qed.

(** The record that a successful update has acted on holds the progress
    with the delta applied. *)
Lemma updateChallengeProgress_record (now : Z) (cid : string) (d : ProgressData)
    (s : Store) (user : User) (uc : UserChallenge) :
  getCurrentUser s = Some user →
  recordFor user cid s = Some uc →
  ∃ uc', recordFor user cid (snd (updateChallengeProgress now cid d s)) = Some uc' ∧
         progress uc' = applyProgressData d (progress uc).
Proof.
  intros Hu Hr.
  destruct (updateChallengeProgress_joined now cid d s user uc Hu Hr)
    as (l & i & Hl & Hi & Hli & Heq).
  assert (update_success (fst (updateChallengeProgress now cid d s)) = true) as Hok
    by (by rewrite Heq).
  destruct (updateChallengeProgress_transition now cid d s Hok)
    as (user' & uc0 & uc' & Hu' & Hr' & Hr1 & Hp & _).
  assert (user' = user) as -> by congruence.
  assert (uc0 = uc) as -> by congruence.
  by exists uc'.
Qed.

(** An update whose delta is all absent, zero or false leaves the
    progress of every stored record as it was, whether or not the call
    finds a record to act on. *)
Lemma updateChallengeProgress_inert_store (now : Z) (cid : string) (d : ProgressData)
    (s : Store) :
  inert d →
  ∀ u, (fmap progress <$> allUserChallenges (snd (updateChallengeProgress now cid d s)) !! u)
       = (fmap progress <$> allUserChallenges s !! u).
Proof.
  intros Hd u. unfold updateChallengeProgress.
  destruct (getCurrentUser s) as [user|]; [|done].
  destruct (allUserChallenges s !! user_id user) as [l|] eqn:Hl; [|done].
  destruct (findIndex _ l) as [i|]; [|done].
  destruct (l !! i); [|done].
  cbn [snd allUserChallenges set_allUserChallenges].
  destruct (decide (user_id user = u)) as [<-|Hne].
  - rewrite lookup_insert_eq, Hl. simpl. f_equal.
    rewrite (list_fmap_alter progress (updatedUserChallenge now d) (λ p, p)).
    + by apply list_alter_id.
    + apply Forall_forall. intros x _.
      by apply updatedUserChallenge_inert_progress.
  - by rewrite lookup_insert_ne.
Qed.

Lemma absent_or_zero_zero : absent_or_zero (Some 0%Q).
Proof. right. by exists 0%Q. Qed.

(** C7, as the code has it.  The delta that syncChallengeProgress hands
    to updateChallengeProgress takes distance, and likewise calories,
    from Strava when its total is not zero, otherwise from Fitbit when
    its value is not zero, and is 0 (present, not omitted) when neither
    has one; it never carries minutes or workoutCompleted.  When neither
    source has answered the sync fails with the nothing-to-sync message
    and the store is unchanged; when one has, updateChallengeProgress
    runs with that delta and the sync reports success, and the record of
    the caller for the challenge then holds its progress with the delta
    applied.  A zero in the delta changes nothing: the field for which
    no source has a non-zero value keeps its current value, the fields
    the delta never carries and every target keep theirs, and when no
    source has a non-zero value for either field the progress of every
    stored record is left unchanged, whatever the sync reports. *)
Theorem syncChallengeProgress_merge (now : Z) (cid : string)
    (stravaResponse : option (list StravaActivity))
    (fitbitResponse : option FitbitDaily) (s : Store) (challenge : Challenge) :
  getChallengeById cid s = Some challenge →
  let syncedData := collectSyncedData challenge stravaResponse fitbitResponse in
  let delta := progressUpdate syncedData in
  let s' := snd (syncChallengeProgress now cid stravaResponse fitbitResponse s) in
  first_nonzero (strava_distance <$> strava syncedData)
    (fitbit_distance <$> fitbit syncedData) (distance delta) ∧
  first_nonzero (strava_calories <$> strava syncedData)
    (fitbit_calories <$> fitbit syncedData) (calories delta) ∧
  minutes delta = None ∧
  workoutCompleted delta = None ∧
  (stravaAnswered challenge stravaResponse = false → fitbitResponse = None →
   syncChallengeProgress now cid stravaResponse fitbitResponse s =
     (mkSyncResult false msg_nothing_to_sync None, s)) ∧
  (stravaAnswered challenge stravaResponse = true ∨ is_Some fitbitResponse →
   syncChallengeProgress now cid stravaResponse fitbitResponse s =
     (mkSyncResult true "Progress synced successfully" (Some syncedData),
      snd (updateChallengeProgress now cid delta s))) ∧
  (∀ user uc,
     getCurrentUser s = Some user →
     recordFor user cid s = Some uc →
     stravaAnswered challenge stravaResponse = true ∨ is_Some fitbitResponse →
     ∃ uc', recordFor user cid s' = Some uc' ∧
            progress uc' = applyProgressData delta (progress uc)) ∧
  (∀ p : Progress,
     (absent_or_zero (strava_distance <$> strava syncedData) →
      absent_or_zero (fitbit_distance <$> fitbit syncedData) →
      currentDistance (applyProgressData delta p) = currentDistance p) ∧
     (absent_or_zero (strava_calories <$> strava syncedData) →
      absent_or_zero (fitbit_calories <$> fitbit syncedData) →
      currentCalories (applyProgressData delta p) = currentCalories p) ∧
     (currentDay (applyProgressData delta p),
      completedWorkouts (applyProgressData delta p),
      currentMinutes (applyProgressData delta p),
      currentSessions (applyProgressData delta p))
       = (currentDay p, completedWorkouts p, currentMinutes p, currentSessions p) ∧
     (totalDays (applyProgressData delta p), totalWorkouts (applyProgressData delta p),
      totalDistance (applyProgressData delta p), totalCalories (applyProgressData delta p),
      totalMinutes (applyProgressData delta p), totalSessions (applyProgressData delta p))
       = (totalDays p, totalWorkouts p, totalDistance p, totalCalories p,
          totalMinutes p, totalSessions p)) ∧
  (absent_or_zero (strava_distance <$> strava syncedData) →
   absent_or_zero (fitbit_distance <$> fitbit syncedData) →
   absent_or_zero (strava_calories <$> strava syncedData) →
   absent_or_zero (fitbit_calories <$> fitbit syncedData) →
   ∀ u, (fmap progress <$> allUserChallenges s' !! u)
        = (fmap progress <$> allUserChallenges s !! u)).
Proof.
  intros Hc syncedData delta s'.
  pose proof (or_first_nonzero (strava_distance <$> strava syncedData)
                (fitbit_distance <$> fitbit syncedData)) as Hdist.
  pose proof (or_first_nonzero (strava_calories <$> strava syncedData)
                (fitbit_calories <$> fitbit syncedData)) as Hcal.
  assert (stravaAnswered challenge stravaResponse = true ∨ is_Some fitbitResponse →
          syncChallengeProgress now cid stravaResponse fitbitResponse s =
            (mkSyncResult true "Progress synced successfully" (Some syncedData),
             snd (updateChallengeProgress now cid delta s))) as Hrun.
  { intros Hans. unfold syncChallengeProgress. rewrite Hc.
    fold syncedData. unfold syncedData at 1.
    rewrite hasSyncedData_answered.
    destruct Hans as [-> | Hf]; [done|].
    rewrite (bool_decide_eq_true_2 _ Hf). by rewrite orb_true_r. }
  assert (s' = s ∨ s' = snd (updateChallengeProgress now cid delta s)) as Hs'.
  { subst s'. unfold syncChallengeProgress. rewrite Hc. fold syncedData.
    destruct (hasSyncedData syncedData); [by right|by left]. }
  split_and!.
  - exact Hdist.
  - exact Hcal.
  - done.
  - done.
  - intros Hs ->. unfold syncChallengeProgress. rewrite Hc.
    fold syncedData. unfold syncedData at 1.
    by rewrite hasSyncedData_answered, Hs.
  - exact Hrun.
  - intros user uc Hu Hr Hans. subst s'. rewrite (Hrun Hans). cbn [snd].
    by apply updateChallengeProgress_record.
  - intros p. split_and!.
    + intros Ha Hb. destruct Hdist as (_ & _ & Hzero).
      unfold applyProgressData. cbn [currentDistance].
      apply accumulate_inert.
      assert (distance delta = Some 0%Q) as -> by exact (Hzero Ha Hb).
      apply absent_or_zero_zero.
    + intros Ha Hb. destruct Hcal as (_ & _ & Hzero).
      unfold applyProgressData. cbn [currentCalories].
      apply accumulate_inert.
      assert (calories delta = Some 0%Q) as -> by exact (Hzero Ha Hb).
      apply absent_or_zero_zero.
    + done.
    + done.
  - intros Hsd Hfd Hsc Hfc u.
    destruct Hs' as [-> | ->]; [done|].
    apply updateChallengeProgress_inert_store.
    destruct Hdist as (_ & _ & Hd0). destruct Hcal as (_ & _ & Hc0).
    unfold inert. split_and!.
    + assert (distance delta = Some 0%Q) as -> by exact (Hd0 Hsd Hfd).
      apply absent_or_zero_zero.
    + assert (calories delta = Some 0%Q) as -> by exact (Hc0 Hsc Hfc).
      apply absent_or_zero_zero.
    + by left.
    + by left.
Qed.

Lemma syncChallengeProgress_merge_witness :
  distance (progressUpdate
              (collectSyncedData runningChallenge
                 (Some [mkStravaActivity 5000 (Some 300%Q); mkStravaActivity 2500 None])
                 (Some fitbitCaloriesOnly)))
    = Some (7500000 # 1000000)%Q ∧
  syncChallengeProgress 2000 "1" None None joinedOnce =
    (mkSyncResult false msg_nothing_to_sync None, joinedOnce) ∧
  (sync_success (fst (syncChallengeProgress 2000 "1" None (Some fitbitEmpty) joinedOnce))
     = true ∧
   ∀ u, (fmap progress <$>
           allUserChallenges
             (snd (syncChallengeProgress 2000 "1" None (Some fitbitEmpty) joinedOnce)) !! u)
        = (fmap progress <$> allUserChallenges joinedOnce !! u)).
Proof.
  destruct (syncChallengeProgress_merge 2000 "1"
              (Some [mkStravaActivity 5000 (Some 300%Q); mkStravaActivity 2500 None])
              (Some fitbitCaloriesOnly) joinedOnce (add_participants 1 runningChallenge))
    as ((Hfirst & _) & _); [by vm_compute|].
  destruct (syncChallengeProgress_merge 2000 "1" None None joinedOnce
              (add_participants 1 runningChallenge))
    as (_ & _ & _ & _ & Hnone & _); [by vm_compute|].
  destruct (syncChallengeProgress_merge 2000 "1" None (Some fitbitEmpty) joinedOnce
              (add_participants 1 runningChallenge))
    as (_ & _ & _ & _ & _ & _ & _ & _ & Hsame); [by vm_compute|].
  split_and!.
  - apply (Hfirst (7500000 # 1000000)%Q); by vm_compute.
  - apply Hnone; by vm_compute.
  - by vm_compute.
  - apply Hsame.
    + by left.
    + right. by exists 0%Q.
    + by left.
    + right. by exists 0%Q.
Defined.

(** C7, counterexample.  For the yoga challenge Strava is not asked.
    With a Fitbit answer that carries calories only, no source supplies
    a distance, yet the delta has the distance field, set to 0.  With a
    Fitbit answer that has no summary, no source supplies any field, yet
    the delta is built, updateChallengeProgress is called with it and
    the sync reports success. *)
Lemma sync_zero_fills_missing_fields :
  strava (collectSyncedData yogaChallenge None (Some fitbitCaloriesOnly)) = None ∧
  chain (chain (chain (summary fitbitCaloriesOnly) distances) head) fd_distance = None ∧
  progressUpdate (collectSyncedData yogaChallenge None (Some fitbitCaloriesOnly))
    = mkProgressData (Some 0%Q) (Some 300%Q) None None ∧
  progressUpdate (collectSyncedData yogaChallenge None (Some fitbitEmpty))
    = mkProgressData (Some 0%Q) (Some 0%Q) None None ∧
  fst (syncChallengeProgress 2000 "2" None (Some fitbitEmpty) freshStore)
    = mkSyncResult true "Progress synced successfully"
        (Some (mkSyncedData None (Some (mkFitbitSync 0 0 0)))).
Proof. split_and!; by vm_compute. Qed.

End Sync.

(** * Further properties of the module *)

(** ** Failed calls *)

Section Failures.

Lemma updateChallengeProgress_failed_unchanged (now : Z) (cid : string)
    (d : ProgressData) (s : Store) :
  update_success (fst (updateChallengeProgress now cid d s)) = false →
  snd (updateChallengeProgress now cid d s) = s.
Proof.
  unfold updateChallengeProgress.
  destruct (getCurrentUser s) as [user|]; [|done].
  destruct (allUserChallenges s !! user_id user) as [l|]; [|done].
  destruct (findIndex _ l) as [i|]; [|done].
  by destruct (l !! i).
Qed.

(** X1. A call of joinChallenge, leaveChallenge or
    updateChallengeProgress that reports failure has written nothing:
    the store it leaves is the store it found, and a failed join returns
    no record. *)
Theorem failed_calls_write_nothing (now : Z) (cid : string) (d : ProgressData)
    (s : Store) :
  (join_success (fst (joinChallenge now cid s)) = false →
     snd (joinChallenge now cid s) = s ∧
     join_userChallenge (fst (joinChallenge now cid s)) = None) ∧
  (leave_success (fst (leaveChallenge now cid s)) = false →
     snd (leaveChallenge now cid s) = s) ∧
  (update_success (fst (updateChallengeProgress now cid d s)) = false →
     snd (updateChallengeProgress now cid d s) = s ∧
     update_progress (fst (updateChallengeProgress now cid d s)) = None).
Proof.
  split_and!.
  - unfold joinChallenge.
    destruct (negb (isLoggedIn s)); [done|].
    destruct (getCurrentUser s) as [user|]; [|done].
    destruct (getChallengeById cid s) as [c|]; [|done].
    destruct (hasJoinedChallenge cid None s); [done|].
    by destruct (Nat.leb _ _).
  - unfold leaveChallenge.
    destruct (getCurrentUser s) as [user|]; [|done].
    destruct (allUserChallenges s !! user_id user) as [l|]; [|done].
    by destruct (findIndex _ l).
  - intros Hf. split; [by apply updateChallengeProgress_failed_unchanged|].
    revert Hf. unfold updateChallengeProgress.
    destruct (getCurrentUser s) as [user|]; [|done].
    destruct (allUserChallenges s !! user_id user) as [l|]; [|done].
    destruct (findIndex _ l) as [i|]; [|done].
    by destruct (l !! i).
Qed.

Lemma failed_calls_write_nothing_witness :
  snd (joinChallenge 3000 "1" joinedOnce) = joinedOnce ∧
  snd (leaveChallenge 3000 "2" joinedOnce) = joinedOnce ∧
  snd (updateChallengeProgress 3000 "2" oneWorkout joinedOnce) = joinedOnce.
Proof.
  destruct (failed_calls_write_nothing 3000 "1" oneWorkout joinedOnce) as (Hj & _ & _).
  destruct (failed_calls_write_nothing 3000 "2" oneWorkout joinedOnce) as (_ & Hl & Hu).
  split_and!.
  - apply Hj. by vm_compute.
  - apply Hl. by vm_compute.
  - apply Hu. by vm_compute.
Defined.

End Failures.

(** ** What a successful call leaves alone *)

Section Frames.

Lemma find_alter_elsewhere {A : Type} (P : A → Prop) `{!∀ x, Decision (P x)}
    (f : A → A) (i : nat) (l : list A) :
  (∀ x, l !! i = Some x → ¬ P x ∧ ¬ P (f x)) →
  find P (alter f i l) = find P l.
Proof.
  unfold find. revert i. induction l as [|y l IH]; intros i Hi; [done|].
  destruct i as [|i]; simpl.
  - destruct (Hi y eq_refl) as [Hy Hfy].
    rewrite !decide_False by done. done.
  - destruct (decide (P y)); [done|].
    assert (∀ o : option (nat * A), snd <$> (prod_map S Datatypes.id <$> o) = snd <$> o)
      as Hsnd by (by intros [[??]|]).
    rewrite !Hsnd. apply (IH i Hi).
Qed.

Lemma getChallengeById_updateChallengeParticipants_ne (cid cid' : string) (inc : Z)
    (s : Store) :
  cid' ≠ cid →
  getChallengeById cid' (updateChallengeParticipants cid inc s) = getChallengeById cid' s.
Proof.
  intros Hne. unfold getChallengeById, updateChallengeParticipants, getChallenges.
  destruct (findIndex (λ c, id c = cid) (challenges s)) as [i|] eqn:E; [|done].
  simpl. apply (find_alter_elsewhere (λ c, id c = cid')).
  intros x Hx. apply findIndex_Some in E as (y & Hy & Hid & _).
  rewrite Hx in Hy. injection Hy as <-. rewrite add_participants_id. split; congruence.
Qed.

Lemma updateChallengeParticipants_length (cid : string) (inc : Z) (s : Store) :
  length (challenges (updateChallengeParticipants cid inc s)) = length (challenges s).
Proof.
  unfold updateChallengeParticipants, getChallenges.
  destruct (findIndex _ (challenges s)); [|done].
  simpl. apply length_alter.
Qed.

(** X2. A successful join appends exactly one record, active and
    stamped with the time of the call, to the list of the caller; the
    lists of the other users, the catalog entries of the other
    challenges, the size of the catalog and the session are as before. *)
Theorem joinChallenge_frame (now : Z) (cid : string) (s : Store) :
  join_success (fst (joinChallenge now cid s)) = true →
  ∃ user uc,
    getCurrentUser s = Some user ∧
    join_userChallenge (fst (joinChallenge now cid s)) = Some uc ∧
    userId uc = user_id user ∧ challengeId uc = cid ∧
    status uc = active ∧ completedAt uc = None ∧
    startDate uc = now ∧ joinedAt uc = now ∧
    recordsOf user (snd (joinChallenge now cid s)) = recordsOf user s ++ [uc] ∧
    (∀ u, u ≠ user_id user →
       allUserChallenges (snd (joinChallenge now cid s)) !! u
       = allUserChallenges s !! u) ∧
    (∀ cid', cid' ≠ cid →
       getChallengeById cid' (snd (joinChallenge now cid s)) = getChallengeById cid' s) ∧
    length (challenges (snd (joinChallenge now cid s))) = length (challenges s) ∧
    getCurrentUser (snd (joinChallenge now cid s)) = getCurrentUser s.
Proof.
  intros Hok.
  destruct (joinChallenge_success_inv now cid s Hok)
    as (user & challenge & Hu & Hc & Hj & Hn).
  rewrite (joinChallenge_joins now cid s user challenge Hu Hc Hj Hn).
  cbn [fst snd join_userChallenge].
  exists user, (newUserChallenge now user cid challenge).
  split_and!; try done.
  - unfold recordsOf at 1. by rewrite joinedStore_records.
  - intros u Hne. unfold joinedStore.
    rewrite updateChallengeParticipants_allUserChallenges.
    cbn [allUserChallenges set_allUserChallenges].
    by rewrite lookup_insert_ne.
  - intros cid' Hne. unfold joinedStore.
    by rewrite getChallengeById_updateChallengeParticipants_ne.
  - unfold joinedStore. by rewrite updateChallengeParticipants_length.
  - by rewrite joinedStore_session.
Qed.

Lemma joinChallenge_frame_witness :
  ∃ user uc,
    getCurrentUser joinedOnce = Some user ∧
    join_userChallenge (fst (joinChallenge 3000 "2" joinedOnce)) = Some uc ∧
    userId uc = user_id user ∧ challengeId uc = "2" ∧
    status uc = active ∧ completedAt uc = None ∧
    startDate uc = 3000%Z ∧ joinedAt uc = 3000%Z ∧
    recordsOf user (snd (joinChallenge 3000 "2" joinedOnce))
      = recordsOf user joinedOnce ++ [uc] ∧
    (∀ u, u ≠ user_id user →
       allUserChallenges (snd (joinChallenge 3000 "2" joinedOnce)) !! u
       = allUserChallenges joinedOnce !! u) ∧
    (∀ cid', cid' ≠ "2" →
       getChallengeById cid' (snd (joinChallenge 3000 "2" joinedOnce))
       = getChallengeById cid' joinedOnce) ∧
    length (challenges (snd (joinChallenge 3000 "2" joinedOnce)))
      = length (challenges joinedOnce) ∧
    getCurrentUser (snd (joinChallenge 3000 "2" joinedOnce)) = getCurrentUser joinedOnce.
Proof.
  apply (joinChallenge_frame 3000 "2" joinedOnce). by vm_compute.
Defined.

(** X3. Joining is not repeatable: once a user with a non-empty id has
    joined a challenge, hasJoinedChallenge answers true and every later
    join of the same challenge is refused as already joined, leaving the
    store as it is. *)
Theorem joinChallenge_twice (now1 now2 : Z) (cid : string) (s : Store) (user : User) :
  getCurrentUser s = Some user →
  user_id user ≠ "" →
  join_success (fst (joinChallenge now1 cid s)) = true →
  hasJoinedChallenge cid None (snd (joinChallenge now1 cid s)) = true ∧
  joinChallenge now2 cid (snd (joinChallenge now1 cid s)) =
    (join_failure msg_already_joined, snd (joinChallenge now1 cid s)).
Proof.
  intros Hu Hid Hok.
  destruct (joinChallenge_success_inv now1 cid s Hok)
    as (user' & challenge & Hu' & Hc & Hj & Hn).
  assert (user' = user) as -> by congruence.
  rewrite (joinChallenge_joins now1 cid s user challenge Hu Hc Hj Hn).
  cbn [snd].
  set (s1 := joinedStore now1 user cid challenge s).
  assert (getCurrentUser s1 = Some user) as Hu1
    by (subst s1; by rewrite joinedStore_session).
  assert (hasJoinedChallenge cid None s1 = true) as Hj1.
  { apply hasJoinedChallenge_true.
    exists (newUserChallenge now1 user cid challenge). split; [|done].
    rewrite (getUserChallenges_current s1 user Hu1).
    assert (truthy_id (Some (user_id user)) = true) as ->.
    { unfold truthy_id. by apply negb_true_iff, String.eqb_neq. }
    subst s1. rewrite joinedStore_records. simpl.
    apply elem_of_app. right. apply list_elem_of_here. }
  split; [done|].
  unfold joinChallenge, isLoggedIn. rewrite Hu1, Hj1.
  subst s1. rewrite joinedStore_challenge, Hc. done.
Qed.

Lemma joinChallenge_twice_witness :
  hasJoinedChallenge "1" None (snd (joinChallenge 1000 "1" freshStore)) = true ∧
  joinChallenge 2000 "1" (snd (joinChallenge 1000 "1" freshStore)) =
    (join_failure msg_already_joined, snd (joinChallenge 1000 "1" freshStore)).
Proof.
  apply (joinChallenge_twice 1000 2000 "1" freshStore demoUser); by vm_compute.
Defined.

Lemma leaveChallenge_success_inv (now : Z) (cid : string) (s : Store) :
  leave_success (fst (leaveChallenge now cid s)) = true →
  ∃ user l i uc,
    getCurrentUser s = Some user ∧
    allUserChallenges s !! user_id user = Some l ∧
    findIndex (λ uc, challengeId uc = cid) l = Some i ∧
    l !! i = Some uc ∧ challengeId uc = cid.
Proof.
  unfold leaveChallenge.
  destruct (getCurrentUser s) as [user|]; [|done].
  destruct (allUserChallenges s !! user_id user) as [l|] eqn:El; [|done].
  destruct (findIndex _ l) as [i|] eqn:Ei; [|done].
  intros _. pose proof Ei as Ei'.
  apply findIndex_Some in Ei' as (uc & Huc & Hcid & _).
  by exists user, l, i, uc.
Qed.

Lemma abandon_challengeId (now : Z) (uc : UserChallenge) :
  challengeId (abandon now uc) = challengeId uc.
Proof. done. Qed.

(** What a successful leave does to the store. *)
Lemma leaveChallenge_effect (now : Z) (cid : string) (s : Store) :
  leave_success (fst (leaveChallenge now cid s)) = true →
  ∃ user uc,
    getCurrentUser s = Some user ∧
    recordFor user cid s = Some uc ∧
    recordFor user cid (snd (leaveChallenge now cid s)) = Some (abandon now uc) ∧
    progress <$> recordsOf user (snd (leaveChallenge now cid s))
      = progress <$> recordsOf user s ∧
    (∀ j x, recordsOf user s !! j = Some x → challengeId x ≠ cid →
       recordsOf user (snd (leaveChallenge now cid s)) !! j = Some x) ∧
    (∀ u, u ≠ user_id user →
       allUserChallenges (snd (leaveChallenge now cid s)) !! u
       = allUserChallenges s !! u) ∧
    (∀ cid', cid' ≠ cid →
       getChallengeById cid' (snd (leaveChallenge now cid s)) = getChallengeById cid' s) ∧
    getChallengeById cid (snd (leaveChallenge now cid s))
      = add_participants (-1) <$> getChallengeById cid s ∧
    getCurrentUser (snd (leaveChallenge now cid s)) = getCurrentUser s.
Proof.
  intros Hok.
  destruct (leaveChallenge_success_inv now cid s Hok)
    as (user & l & i & uc & Hu & Hl & Hi & Hli & Hcid).
  rewrite (leaveChallenge_found now cid s user l i Hu Hl Hi).
  cbn [snd].
  assert (recordsOf user s = l) as Hrec by (unfold recordsOf; by rewrite Hl).
  assert (∀ m, recordsOf user
            (updateChallengeParticipants cid (-1)
               (set_allUserChallenges (<[user_id user := m]> (allUserChallenges s)) s))
          = m) as Hrec'.
  { intros m. unfold recordsOf.
    rewrite updateChallengeParticipants_allUserChallenges.
    cbn [allUserChallenges set_allUserChallenges]. by rewrite lookup_insert_eq. }
  exists user, uc. split_and!; try done.
  - unfold recordFor. rewrite Hrec. by rewrite (find_at_findIndex _ _ i Hi).
  - unfold recordFor. rewrite Hrec'.
    rewrite (find_alter_found (λ x, challengeId x = cid) (abandon now) i l); try done.
    by rewrite (find_at_findIndex _ _ i Hi), Hli.
  - rewrite Hrec', Hrec.
    rewrite (list_fmap_alter progress (abandon now) (λ p, p)).
    + by apply list_alter_id.
    + by apply Forall_forall.
  - rewrite Hrec', Hrec. intros j x Hj Hne.
    rewrite list_lookup_alter_ne; [done|]. intros <-. congruence.
  - intros u Hne. rewrite updateChallengeParticipants_allUserChallenges.
    cbn [allUserChallenges set_allUserChallenges]. by rewrite lookup_insert_ne.
  - intros cid' Hne. by rewrite getChallengeById_updateChallengeParticipants_ne.
  - by rewrite getChallengeById_updateChallengeParticipants.
  - unfold getCurrentUser. by rewrite updateChallengeParticipants_session.
Qed.



(** X5. leaveChallenge does not look at the status of the record: a
    leave that has succeeded succeeds again, stamps the end date again
    and lowers the participants counter a second time. *)
Theorem leaveChallenge_twice (now1 now2 : Z) (cid : string) (s : Store) :
  leave_success (fst (leaveChallenge now1 cid s)) = true →
  ∃ user uc,
    getCurrentUser s = Some user ∧
    recordFor user cid s = Some uc ∧
    leave_success (fst (leaveChallenge now2 cid (snd (leaveChallenge now1 cid s)))) = true ∧
    recordFor user cid (snd (leaveChallenge now2 cid (snd (leaveChallenge now1 cid s))))
      = Some (abandon now2 uc) ∧
    (participants <$>
       getChallengeById cid (snd (leaveChallenge now2 cid (snd (leaveChallenge now1 cid s)))))
      = (λ p, p - 2)%Z <$> (participants <$> getChallengeById cid s).
Proof.
  intros Hok.
  destruct (leaveChallenge_effect now1 cid s Hok)
    as (user & uc & Hu & Hr & Hr1 & _ & _ & _ & _ & Hc1 & Hu1).
  set (s1 := snd (leaveChallenge now1 cid s)) in *.
  assert (leave_success (fst (leaveChallenge now2 cid s1)) = true) as Hok2.
  { unfold recordFor, recordsOf in Hr1.
    destruct (allUserChallenges s1 !! user_id user) as [l1|] eqn:El1; [|done].
    cbn [default] in Hr1. apply find_Some_findIndex in Hr1 as (i & Hi & _).
    rewrite Hu in Hu1.
    by rewrite (leaveChallenge_found now2 cid s1 user l1 i Hu1 El1 Hi). }
  destruct (leaveChallenge_effect now2 cid s1 Hok2)
    as (user' & uc' & Hu' & Hr' & Hr2 & _ & _ & _ & _ & Hc2 & _).
  assert (user' = user) as -> by congruence.
  rewrite Hr1 in Hr'. injection Hr' as <-.
  exists user, uc. split_and!; try done.
  rewrite Hc2, Hc1.
  destruct (getChallengeById cid s) as [c|]; [|done].
  simpl. f_equal. lia.
Qed.

Lemma leaveChallenge_twice_witness :
  ∃ user uc,
    getCurrentUser joinedOnce = Some user ∧
    recordFor user "1" joinedOnce = Some uc ∧
    leave_success
      (fst (leaveChallenge 3000 "1" (snd (leaveChallenge 2000 "1" joinedOnce)))) = true ∧
    recordFor user "1" (snd (leaveChallenge 3000 "1" (snd (leaveChallenge 2000 "1" joinedOnce))))
      = Some (abandon 3000 uc) ∧
    (participants <$>
       getChallengeById "1"
         (snd (leaveChallenge 3000 "1" (snd (leaveChallenge 2000 "1" joinedOnce)))))
      = (λ p, p - 2)%Z <$> (participants <$> getChallengeById "1" joinedOnce).
Proof.
  apply (leaveChallenge_twice 2000 3000 "1" joinedOnce). by vm_compute.
Defined.



(** X7. updateChallengeProgress does not look at the status either: the
    delta is applied to an abandoned or completed record as to an active
    one.  The status it leaves is the old one or completed; a completed
    record stays completed; whenever the status changes, and whenever
    the percentage is 100 or more, completedAt is set to the time of the
    call, so an abandoned record can be completed and a completed one is
    stamped again. *)
Theorem updateChallengeProgress_status (now : Z) (cid : string) (d : ProgressData)
    (s : Store) (user : User) :
  getCurrentUser s = Some user →
  update_success (fst (updateChallengeProgress now cid d s)) = true →
  ∃ uc uc',
    recordFor user cid s = Some uc ∧
    recordFor user cid (snd (updateChallengeProgress now cid d s)) = Some uc' ∧
    progress uc' = applyProgressData d (progress uc) ∧
    (status uc' = status uc ∨ status uc' = completed) ∧
    (status uc = completed → status uc' = completed) ∧
    (status uc' ≠ status uc → completedAt uc' = Some now) ∧
    (Js.ge (calculateChallengeProgress uc') (Js.Num 100) = true →
       status uc' = completed ∧ completedAt uc' = Some now).
Proof.
  intros Hu0 Hok.
  destruct (updateChallengeProgress_transition now cid d s Hok)
    as (user' & uc & uc' & Hu & Hr & Hr' & Hp & _ & Hge & Hlt).
  assert (user' = user) as -> by congruence.
  exists uc, uc'. split_and!; try done.
  - destruct (Js.ge (calculateChallengeProgress uc') (Js.Num 100)) eqn:E.
    + right. by apply Hge.
    + left. by apply Hlt.
  - intros Hc.
    destruct (Js.ge (calculateChallengeProgress uc') (Js.Num 100)) eqn:E.
    + by apply Hge.
    + destruct (Hlt eq_refl) as [-> _]. done.
  - intros Hne.
    destruct (Js.ge (calculateChallengeProgress uc') (Js.Num 100)) eqn:E.
    + by apply Hge.
    + destruct (Hlt eq_refl) as [Hs _]. congruence.
Qed.

Lemma updateChallengeProgress_status_witness :
  ∃ uc uc',
    recordFor demoUser "W" abandonedHalfway = Some uc ∧
    recordFor demoUser "W"
      (snd (updateChallengeProgress 3000 "W" oneWorkout abandonedHalfway)) = Some uc' ∧
    progress uc' = applyProgressData oneWorkout (progress uc) ∧
    (status uc' = status uc ∨ status uc' = completed) ∧
    (status uc = completed → status uc' = completed) ∧
    (status uc' ≠ status uc → completedAt uc' = Some 3000%Z) ∧
    (Js.ge (calculateChallengeProgress uc') (Js.Num 100) = true →
       status uc' = completed ∧ completedAt uc' = Some 3000%Z).
Proof.
  apply (updateChallengeProgress_status 3000 "W" oneWorkout abandonedHalfway demoUser);
    by vm_compute.
Defined.

(** The abandoned record of the sample store is completed by one more
    workout. *)
Example abandoned_record_completed :
  (status <$> recordFor demoUser "W" abandonedHalfway) = Some abandoned ∧
  ((λ uc, (status uc, completedAt uc)) <$>
     recordFor demoUser "W"
       (snd (updateChallengeProgress 3000 "W" oneWorkout abandonedHalfway)))
    = Some (completed, Some 3000%Z).
Proof. split; by vm_compute. Qed.

End Frames.

(** ** The cap and the uniqueness of records *)

Section MembershipInvariants.

Lemma activeCount_app (l1 l2 : list UserChallenge) :
  activeCount (l1 ++ l2) = activeCount l1 + activeCount l2.
Proof. unfold activeCount. by rewrite filter_app, length_app. Qed.

Lemma activeCount_active (uc : UserChallenge) :
  status uc = active → activeCount [uc] = 1.
Proof.
  intros Hs. unfold activeCount. by rewrite filter_cons, decide_True.
Qed.

Lemma activeCount_alter_le (f : UserChallenge → UserChallenge) (i : nat)
    (l : list UserChallenge) :
  (∀ x, status (f x) = active → status x = active) →
  activeCount (alter f i l) ≤ activeCount l.
Proof.
  intros Hf. unfold activeCount. revert i.
  induction l as [|x l IH]; intros i; [done|].
  destruct i as [|i]; simpl.
  - rewrite !filter_cons.
    destruct (decide (status (f x) = active)) as [Hfx|Hfx].
    + rewrite decide_True by by apply Hf. done.
    + destruct (decide (status x = active)); simpl; lia.
  - rewrite !filter_cons. specialize (IH i).
    destruct (decide (status x = active)); simpl; [|done].
    change (list_alter f i l) with (alter f i l). lia.
Qed.

Lemma updatedUserChallenge_active (now : Z) (d : ProgressData) (uc : UserChallenge) :
  status (updatedUserChallenge now d uc) = active → status uc = active.
Proof.
  rewrite updatedUserChallenge_status. by destruct (Js.ge _ _).
Qed.

Lemma fmap_challengeId_alter (f : UserChallenge → UserChallenge) (i : nat)
    (l : list UserChallenge) :
  (∀ x, challengeId (f x) = challengeId x) →
  challengeId <$> alter f i l = challengeId <$> l.
Proof.
  intros Hf. rewrite (list_fmap_alter challengeId f (λ c, c)).
  - by apply list_alter_id.
  - by apply Forall_forall.
Qed.

Lemma getUserChallenges_nonempty_id (s : Store) (user : User) :
  getCurrentUser s = Some user → user_id user ≠ "" →
  getUserChallenges None s = recordsOf user s.
Proof.
  intros Hu Hid. rewrite (getUserChallenges_current s user Hu).
  assert (truthy_id (Some (user_id user)) = true) as ->; [|done].
  unfold truthy_id. by apply negb_true_iff, String.eqb_neq.
Qed.

(** The two invariants depend on the membership object only, and are
    kept when the list of one user is replaced by a list that satisfies
    them. *)
Lemma cap_ok_insert (s s' : Store) (u : string) (l : list UserChallenge) :
  allUserChallenges s' = <[u := l]> (allUserChallenges s) →
  cap_ok s → (u ≠ "" → activeCount l ≤ MAX_ACTIVE_CHALLENGES) → cap_ok s'.
Proof.
  intros Hs' Hs Hl u' l'. rewrite Hs'.
  destruct (decide (u = u')) as [->|Hne].
  - rewrite lookup_insert_eq. intros [= <-]. apply Hl.
  - rewrite lookup_insert_ne by done. apply Hs.
Qed.

Lemma unique_ok_insert (s s' : Store) (u : string) (l : list UserChallenge) :
  allUserChallenges s' = <[u := l]> (allUserChallenges s) →
  unique_ok s → (u ≠ "" → NoDup (challengeId <$> l)) → unique_ok s'.
Proof.
  intros Hs' Hs Hl u' l'. rewrite Hs'.
  destruct (decide (u = u')) as [->|Hne].
  - rewrite lookup_insert_eq. intros [= <-]. apply Hl.
  - rewrite lookup_insert_ne by done. apply Hs.
Qed.

Lemma joinChallenge_cases (now : Z) (cid : string) (s : Store) :
  snd (joinChallenge now cid s) = s ∨
  ∃ user challenge,
    getCurrentUser s = Some user ∧
    hasJoinedChallenge cid None s = false ∧
    activeCount (getUserChallenges None s) < MAX_ACTIVE_CHALLENGES ∧
    allUserChallenges (snd (joinChallenge now cid s)) =
      <[user_id user := recordsOf user s ++ [newUserChallenge now user cid challenge]]>
        (allUserChallenges s).
Proof.
  destruct (join_success (fst (joinChallenge now cid s))) eqn:Hok.
  - right.
    destruct (joinChallenge_success_inv now cid s Hok)
      as (user & challenge & Hu & Hc & Hj & Hn).
    exists user, challenge. split_and!; try done.
    rewrite (joinChallenge_joins now cid s user challenge Hu Hc Hj Hn).
    cbn [snd]. unfold joinedStore.
    by rewrite updateChallengeParticipants_allUserChallenges.
  - left. unfold joinChallenge in *.
    destruct (negb (isLoggedIn s)); [done|].
    destruct (getCurrentUser s) as [user|]; [|done].
    destruct (getChallengeById cid s) as [c|]; [|done].
    destruct (hasJoinedChallenge cid None s); [done|].
    by destruct (Nat.leb _ _).
Qed.

Lemma leaveChallenge_cases (now : Z) (cid : string) (s : Store) :
  snd (leaveChallenge now cid s) = s ∨
  ∃ user l i,
    allUserChallenges s !! user_id user = Some l ∧
    allUserChallenges (snd (leaveChallenge now cid s)) =
      <[user_id user := alter (abandon now) i l]> (allUserChallenges s).
Proof.
  unfold leaveChallenge.
  destruct (getCurrentUser s) as [user|]; [|by left].
  destruct (allUserChallenges s !! user_id user) as [l|] eqn:El; [|by left].
  destruct (findIndex _ l) as [i|]; [|by left].
  right. exists user, l, i. split; [done|]. cbn [snd].
  by rewrite updateChallengeParticipants_allUserChallenges.
Qed.

Lemma updateChallengeProgress_cases (now : Z) (cid : string) (d : ProgressData)
    (s : Store) :
  snd (updateChallengeProgress now cid d s) = s ∨
  ∃ user l i,
    allUserChallenges s !! user_id user = Some l ∧
    allUserChallenges (snd (updateChallengeProgress now cid d s)) =
      <[user_id user := alter (updatedUserChallenge now d) i l]> (allUserChallenges s).
Proof.
  unfold updateChallengeProgress.
  destruct (getCurrentUser s) as [user|]; [|by left].
  destruct (allUserChallenges s !! user_id user) as [l|] eqn:El; [|by left].
  destruct (findIndex _ l) as [i|]; [|by left].
  destruct (l !! i); [|by left].
  right. by exists user, l, i.
Qed.

Lemma syncChallengeProgress_cases (now : Z) (cid : string)
    (stravaResponse : option (list StravaActivity))
    (fitbitResponse : option FitbitDaily) (s : Store) :
  snd (syncChallengeProgress now cid stravaResponse fitbitResponse s) = s ∨
  ∃ d, snd (syncChallengeProgress now cid stravaResponse fitbitResponse s)
       = snd (updateChallengeProgress now cid d s).
Proof.
  unfold syncChallengeProgress.
  destruct (getChallengeById cid s) as [c|]; [|by left].
  destruct (hasSyncedData _); [|by left].
  right. by eexists.
Qed.

(** X8. The cap on active records is an invariant for users with a
    non-empty id: if no such user holds more than five active records,
    the same is true after any joinChallenge, leaveChallenge,
    updateChallengeProgress or syncChallengeProgress. *)
Theorem cap_preserved (s : Store) :
  cap_ok s →
  (∀ now cid, cap_ok (snd (joinChallenge now cid s))) ∧
  (∀ now cid, cap_ok (snd (leaveChallenge now cid s))) ∧
  (∀ now cid d, cap_ok (snd (updateChallengeProgress now cid d s))) ∧
  (∀ now cid stravaResponse fitbitResponse,
     cap_ok (snd (syncChallengeProgress now cid stravaResponse fitbitResponse s))).
Proof.
  intros Hs.
  assert (∀ now cid d, cap_ok (snd (updateChallengeProgress now cid d s))) as Hupd.
  { intros now cid d.
    destruct (updateChallengeProgress_cases now cid d s)
      as [->|(user & l & i & Hl & Hall)]; [done|].
    apply (cap_ok_insert s _ _ _ Hall Hs). intros Hid.
    etrans; [apply activeCount_alter_le, updatedUserChallenge_active|].
    by eapply Hs. }
  split_and!.
  - intros now cid.
    destruct (joinChallenge_cases now cid s)
      as [->|(user & challenge & Hu & Hj & Hn & Hall)]; [done|].
    apply (cap_ok_insert s _ _ _ Hall Hs). intros Hid.
    rewrite (getUserChallenges_nonempty_id s user Hu Hid) in Hn.
    rewrite activeCount_app, activeCount_active by done.
    unfold MAX_ACTIVE_CHALLENGES in *. lia.
  - intros now cid.
    destruct (leaveChallenge_cases now cid s)
      as [->|(user & l & i & Hl & Hall)]; [done|].
    apply (cap_ok_insert s _ _ _ Hall Hs). intros Hid.
    etrans; [apply activeCount_alter_le|by eapply Hs].
    intros x. unfold abandon. simpl. discriminate.
  - exact Hupd.
  - intros now cid sr fr.
    destruct (syncChallengeProgress_cases now cid sr fr s) as [->|(d & ->)]; [done|].
    apply Hupd.
Qed.

(** X9. At most one record per user and challenge is an invariant for
    users with a non-empty id: if no such user holds two records, of any
    status, for the same challenge, the same is true after any
    joinChallenge, leaveChallenge, updateChallengeProgress or
    syncChallengeProgress. *)
Theorem unique_preserved (s : Store) :
  unique_ok s →
  (∀ now cid, unique_ok (snd (joinChallenge now cid s))) ∧
  (∀ now cid, unique_ok (snd (leaveChallenge now cid s))) ∧
  (∀ now cid d, unique_ok (snd (updateChallengeProgress now cid d s))) ∧
  (∀ now cid stravaResponse fitbitResponse,
     unique_ok (snd (syncChallengeProgress now cid stravaResponse fitbitResponse s))).
Proof.
  intros Hs.
  assert (∀ now cid d, unique_ok (snd (updateChallengeProgress now cid d s))) as Hupd.
  { intros now cid d.
    destruct (updateChallengeProgress_cases now cid d s)
      as [->|(user & l & i & Hl & Hall)]; [done|].
    apply (unique_ok_insert s _ _ _ Hall Hs). intros Hid.
    rewrite fmap_challengeId_alter
      by (intros x; apply updatedUserChallenge_challengeId).
    by eapply Hs. }
  split_and!.
  - intros now cid.
    destruct (joinChallenge_cases now cid s)
      as [->|(user & challenge & Hu & Hj & Hn & Hall)]; [done|].
    apply (unique_ok_insert s _ _ _ Hall Hs). intros Hid.
    apply hasJoinedChallenge_false in Hj.
    rewrite (getUserChallenges_nonempty_id s user Hu Hid) in Hj.
    rewrite fmap_app. simpl. apply NoDup_app. split_and!.
    + unfold recordsOf.
      destruct (allUserChallenges s !! user_id user) as [l|] eqn:El.
      * by eapply Hs.
      * constructor.
    + intros c Hc Hc'. apply list_elem_of_singleton in Hc' as ->.
      apply list_elem_of_fmap in Hc as (x & Hx & Hin).
      eapply Forall_forall in Hj; [|exact Hin]. by apply Hj.
    + apply NoDup_singleton.
  - intros now cid.
    destruct (leaveChallenge_cases now cid s)
      as [->|(user & l & i & Hl & Hall)]; [done|].
    apply (unique_ok_insert s _ _ _ Hall Hs). intros Hid.
    rewrite fmap_challengeId_alter by done. by eapply Hs.
  - exact Hupd.
  - intros now cid sr fr.
    destruct (syncChallengeProgress_cases now cid sr fr s) as [->|(d & ->)]; [done|].
    apply Hupd.
Qed.

Lemma cap_okb_spec (s : Store) : cap_okb s = true → cap_ok s.
Proof.
  unfold cap_okb. rewrite forallb_forall. intros Hall u l Hl Hu.
  apply elem_of_map_to_list in Hl. apply list_elem_of_In in Hl.
  specialize (Hall _ Hl). cbn [fst snd] in Hall.
  apply orb_true_iff in Hall as [Hall|Hall].
  - by apply bool_decide_eq_true in Hall.
  - by apply Nat.leb_le.
Qed.

Lemma unique_okb_spec (s : Store) : unique_okb s = true → unique_ok s.
Proof.
  unfold unique_okb. rewrite forallb_forall. intros Hall u l Hl Hu.
  apply elem_of_map_to_list in Hl. apply list_elem_of_In in Hl.
  specialize (Hall _ Hl). cbn [fst snd] in Hall.
  apply orb_true_iff in Hall as [Hall|Hall].
  - by apply bool_decide_eq_true in Hall.
  - by apply bool_decide_eq_true in Hall.
Qed.

Lemma cap_preserved_witness :
  activeCount (recordsOf demoUser fullStore) = 5 ∧
  cap_ok (snd (joinChallenge 6000 "6" fullStore)) ∧
  cap_ok (snd (leaveChallenge 6000 "3" fullStore)).
Proof.
  assert (cap_ok fullStore) as Hs by (apply cap_okb_spec; vm_compute; reflexivity).
  destruct (cap_preserved fullStore Hs) as (Hjoin & Hleave & _).
  split_and!; [by vm_compute|apply Hjoin|apply Hleave].
Defined.

Lemma unique_preserved_witness :
  unique_ok (snd (joinChallenge 3000 "2" joinedOnce)) ∧
  unique_ok (snd (updateChallengeProgress 3000 "1" oneWorkout joinedOnce)).
Proof.
  assert (unique_ok joinedOnce) as Hs
    by (apply unique_okb_spec; vm_compute; reflexivity).
  destruct (unique_preserved joinedOnce Hs) as (Hjoin & _ & Hupd & _).
  split; [apply Hjoin|apply Hupd].
Defined.

(** X10. The two checks of joinChallenge read the records through
    getUserChallenges, which returns no record for a falsy id.  For a
    session user whose id is the empty string hasJoinedChallenge is
    therefore always false, and the join of any existing challenge
    succeeds, whatever records are stored under that id. *)
Theorem joinChallenge_empty_id (now : Z) (cid : string) (s : Store)
    (user : User) (challenge : Challenge) :
  getCurrentUser s = Some user →
  user_id user = "" →
  getChallengeById cid s = Some challenge →
  getUserChallenges None s = [] ∧
  hasJoinedChallenge cid None s = false ∧
  joinChallenge now cid s =
    (mkJoinResult true (msg_joined challenge)
       (Some (newUserChallenge now user cid challenge)),
     joinedStore now user cid challenge s).
Proof.
  intros Hu Hid Hc.
  assert (getUserChallenges None s = []) as Hnone.
  { rewrite (getUserChallenges_current s user Hu). by rewrite Hid. }
  assert (hasJoinedChallenge cid None s = false) as Hj.
  { apply hasJoinedChallenge_false. rewrite Hnone. constructor. }
  split_and!; try done.
  apply joinChallenge_joins; try done.
  rewrite Hnone. simpl. unfold MAX_ACTIVE_CHALLENGES. lia.
Qed.

End MembershipInvariants.

Section EmptyIdWitness.

Lemma joinChallenge_empty_id_witness :
  length (recordsOf namelessUser namelessStore) = 1 ∧
  getUserChallenges None namelessStore = [] ∧
  hasJoinedChallenge "1" None namelessStore = false ∧
  join_success (fst (joinChallenge 2000 "1" namelessStore)) = true.
Proof.
  destruct (joinChallenge_empty_id 2000 "1" namelessStore namelessUser
              (add_participants 1 runningChallenge))
    as (Hnone & Hj & Hjoin); [by vm_compute..|].
  split_and!; [by vm_compute|exact Hnone|exact Hj|by rewrite Hjoin].
Defined.

End EmptyIdWitness.

(** ** The percentage along a history of updates *)

Section Histories.

Local Open Scope Q_scope.

Lemma or_num_nonneg (c : Q) : 0 <= c → 0 <= Js.or_num (Some c) 0.
Proof.
  intros Hc. unfold Js.or_num. destruct (Js.truthyQ c); [done|discriminate].
Qed.

Lemma or_num_ge (c : Q) : c <= Js.or_num (Some c) 0.
Proof.
  unfold Js.or_num. destruct (Js.truthyQ c) eqn:E; [apply Qle_refl|].
  apply truthyQ_false in E. rewrite E. apply Qle_refl.
Qed.

Lemma Qplus_nonneg (x y : Q) : 0 <= x → 0 <= y → 0 <= x + y.
Proof.
  intros Hx Hy. rewrite <- (Qplus_0_r 0). by apply Qplus_le_compat.
Qed.

Lemma Qle_plus_nonneg (x y : Q) : 0 <= y → x <= x + y.
Proof.
  intros Hy. rewrite <- (Qplus_0_r x) at 1. apply Qplus_le_r. done.
Qed.

Lemma truthyQ_pos (g : Q) : 0 <= g → Js.truthyQ g = true → 0 < g.
Proof.
  intros Hg Ht. apply truthyQ_true in Ht.
  apply Qle_lteq in Hg as [Hg|Hg]; [done|]. exfalso. apply Ht. by symmetry.
Qed.

Lemma pair_sound_seed (goal : option Q) :
  absent_or_nonneg goal → pair_sound (seed_current goal) (seed_total goal).
Proof.
  intros Hg. unfold pair_sound, seed_current, seed_total.
  destruct (Js.truthy goal) eqn:E; [|done].
  destruct goal as [g|]; [|done]. intros _.
  exists 0, g. split_and!; try done. apply truthyQ_pos; [by apply Hg|done].
Qed.

Lemma progress_sound_initial (challenge : Challenge) :
  (1 ≤ duration challenge)%Z → goals_nonneg challenge →
  progress_sound (initialProgress challenge).
Proof.
  intros Hd (Hw & Hdist & Hcal & Hmin & Hses).
  unfold progress_sound, initialProgress, initializeChallengeProgress.
  cbn [completedWorkouts totalWorkouts currentDistance totalDistance
       currentCalories totalCalories currentMinutes totalMinutes
       currentSessions totalSessions
       gp_currentDistance gp_totalDistance gp_currentCalories gp_totalCalories
       gp_currentMinutes gp_totalMinutes gp_currentSessions gp_totalSessions].
  split_and!; try by apply pair_sound_seed.
  intros _. eexists 0, _. split_and!; try done.
  unfold Js.or_num.
  assert (0 < inject_Z (duration challenge)) as Hdur.
  { change 0 with (inject_Z 0). rewrite <- Zlt_Qlt. lia. }
  destruct (goals challenge !! "totalWorkouts") as [w|] eqn:Ew; [|done].
  destruct (Js.truthyQ w) eqn:E; [|done].
  apply truthyQ_pos; [by apply Hw|done].
Qed.

Lemma pair_sound_accumulate (current delta total : option Q) :
  absent_or_nonneg delta → pair_sound current total →
  pair_sound (accumulate current delta) total.
Proof.
  intros Hd Hp Ht. destruct (Hp Ht) as (c & t & -> & -> & Hc & Ht').
  unfold accumulate. destruct delta as [d|]; [|by exists c, t].
  destruct (Js.truthyQ d); [|by exists c, t].
  eexists _, t. split_and!; try done.
  apply Qplus_nonneg; [by apply or_num_nonneg|by apply Hd].
Qed.

Lemma progress_sound_apply (d : ProgressData) (p : Progress) :
  nonneg_delta d → progress_sound p → progress_sound (applyProgressData d p).
Proof.
  intros (Hdist & Hcal & Hmin) (Hw & Hd & Hc & Hm & Hs).
  unfold progress_sound, applyProgressData.
  cbn [completedWorkouts totalWorkouts currentDistance totalDistance
       currentCalories totalCalories currentMinutes totalMinutes
       currentSessions totalSessions].
  split_and!; try done; try by apply pair_sound_accumulate.
  intros Ht. destruct (Hw Ht) as (c & t & [= <-] & [= <-] & Hc0 & Ht0).
  destruct (truthy_flag (workoutCompleted d)).
  - eexists _, _. split_and!; try done. apply Qplus_nonneg; [done|discriminate].
  - by eexists _, _.
Qed.

Lemma progress_sound_applyAll (ds : list ProgressData) (p : Progress) :
  Forall nonneg_delta ds → progress_sound p → progress_sound (applyAll ds p).
Proof.
  unfold applyAll. intros Hds. revert p.
  induction Hds as [|d ds Hd Hds IH]; intros p Hp; [done|].
  simpl. apply IH. by apply progress_sound_apply.
Qed.

Lemma progressPercentage_range (p : Progress) :
  progress_sound p → Js.in_percent_range (progressPercentage p).
Proof.
  intros Hp.
  apply (calculateChallengeProgress_range (mkUserChallenge "" "" "" 0 0 active p 0 None) Hp).
Qed.

(** X11. Within the intended inputs the percentage is always a number
    between 0 and 100: for a challenge that lasts at least one day and
    has no negative goal, the progress seeded by joinChallenge followed
    by any sequence of updates without a negative measurement gives a
    result of calculateChallengeProgress in that interval, however far
    the accumulated values exceed the targets. *)
Theorem percentage_range_along_updates (challenge : Challenge)
    (deltas : list ProgressData) :
  (1 ≤ duration challenge)%Z →
  goals_nonneg challenge →
  Forall nonneg_delta deltas →
  Js.in_percent_range (progressPercentage (applyAll deltas (initialProgress challenge))).
Proof.
  intros Hd Hg Hds.
  by apply progressPercentage_range, progress_sound_applyAll, progress_sound_initial.
Qed.

Lemma percentage_range_along_updates_witness :
  Js.in_percent_range
    (progressPercentage (applyAll sampleDeltas (initialProgress runningChallenge))).
Proof.
  apply (percentage_range_along_updates runningChallenge sampleDeltas).
  - vm_compute. discriminate.
  - unfold goals_nonneg, absent_or_nonneg.
    split_and!; intros x Hx; vm_compute in Hx; try discriminate Hx;
      injection Hx as <-; discriminate.
  - unfold sampleDeltas, nonneg_delta, absent_or_nonneg.
    repeat constructor; cbn [distance calories minutes];
      intros x Hx; try discriminate Hx; injection Hx as <-; discriminate.
Defined.

(** *** Reaching every target *)

Lemma ratio_met (c t : Q) : 0 < t → t <= c → 100 <= c / t * 100.
Proof.
  intros Ht Hc. change 100 with (1 * 100) at 1.
  apply Qmult_le_compat_r; [|discriminate].
  apply Qle_shift_div_l; [done|]. by rewrite Qmult_1_l.
Qed.

Lemma criterion_met (current total : option Q) (acc : Js.JsNumber * nat) :
  pair_met current total → acc_met acc → acc_met (criterion current total acc).
Proof.
  intros Hp (x & Hx & Hle). unfold criterion.
  destruct (Js.truthy total) eqn:E; [|by exists x].
  destruct (Hp E) as (c & t & -> & -> & Ht & Hc).
  cbn [fst snd Js.toNumber Js.div Js.mul]. rewrite Hx. cbn [Js.add].
  eexists; split; [done|]. cbn [snd].
  rewrite Nat2Z.inj_succ. unfold Z.succ. rewrite inject_Z_plus.
  rewrite Qmult_plus_distr_r, Qmult_1_r.
  apply Qplus_le_compat; [done|by apply ratio_met].
Qed.

Lemma criteria_count (p : Progress) :
  no_criteria p ∨ (0 < snd (criteria p))%nat.
Proof.
  unfold no_criteria, criteria, criterion. simpl.
  destruct (Js.truthyQ (totalWorkouts p)), (Js.truthy (totalDistance p)),
           (Js.truthy (totalCalories p)), (Js.truthy (totalMinutes p)),
           (Js.truthy (totalSessions p)); simpl; try (right; lia).
  by left.
Qed.

Lemma roundQ_mono (x y : Q) : x <= y → (Js.roundQ x ≤ Js.roundQ y)%Z.
Proof.
  intros H. unfold Js.roundQ. apply Qfloor_resp_le. by apply Qplus_le_l.
Qed.

Lemma progressPercentage_all_met (p : Progress) :
  all_met p → ¬ no_criteria p → progressPercentage p = Js.Num 100.
Proof.
  intros (Hw & Hd & Hc & Hm & Hs) Hsome.
  assert (acc_met (criteria p)) as (x & Hx & Hle).
  { unfold criteria. repeat (apply criterion_met; [done|]).
    exists 0. split; [done|]. simpl. discriminate. }
  destruct (criteria_count p) as [|Hn]; [done|].
  unfold progressPercentage.
  destruct (criteria p) as [t n]. simpl in Hx, Hle, Hn. subst t.
  destruct (Nat.ltb_spec 0 n); [|lia]. simpl.
  assert (0 < inject_Z (Z.of_nat n)) as Hpos.
  { change 0 with (inject_Z 0). rewrite <- Zlt_Qlt. lia. }
  assert (100 <= x / inject_Z (Z.of_nat n)) as Havg.
  { apply Qle_shift_div_l; done. }
  assert (100 ≤ Js.roundQ (x / inject_Z (Z.of_nat n)))%Z as Hr.
  { change 100%Z with (Js.roundQ 100). by apply roundQ_mono. }
  unfold Js.minQ.
  destruct (Qle_bool (inject_Z (Js.roundQ (x / inject_Z (Z.of_nat n)))) 100) eqn:E; [|done].
  apply Qle_bool_iff in E. change 100 with (inject_Z 100) in E.
  rewrite <- Zle_Qle in E.
  assert (Js.roundQ (x / inject_Z (Z.of_nat n)) = 100%Z) as -> by lia. done.
Qed.

(** X12. When every tracked current value has reached its target (and
    at least one target is tracked), calculateChallengeProgress returns
    exactly 100, and the updateChallengeProgress call that brings a
    record to that point marks it completed at the time of the call. *)
Theorem all_targets_met_completes (now : Z) (d : ProgressData) (uc : UserChallenge) :
  all_met (applyProgressData d (progress uc)) →
  ¬ no_criteria (applyProgressData d (progress uc)) →
  completionPercentageAfter d uc = Js.Num 100 ∧
  calculateChallengeProgress (updatedUserChallenge now d uc) = Js.Num 100 ∧
  status (updatedUserChallenge now d uc) = completed ∧
  completedAt (updatedUserChallenge now d uc) = Some now.
Proof.
  intros Hmet Hsome.
  assert (completionPercentageAfter d uc = Js.Num 100) as Hpct.
  { rewrite completionPercentageAfter_progress. by apply progressPercentage_all_met. }
  split_and!.
  - done.
  - unfold calculateChallengeProgress. rewrite updatedUserChallenge_progress.
    by rewrite <- completionPercentageAfter_progress.
  - by rewrite updatedUserChallenge_status, Hpct.
  - by rewrite updatedUserChallenge_completedAt, Hpct.
Qed.

Lemma all_targets_met_completes_witness :
  completionPercentageAfter (mkProgressData (Some 2) None None None) almostMet
    = Js.Num 100 ∧
  calculateChallengeProgress
    (updatedUserChallenge 9000 (mkProgressData (Some 2) None None None) almostMet)
    = Js.Num 100 ∧
  status (updatedUserChallenge 9000 (mkProgressData (Some 2) None None None) almostMet)
    = completed ∧
  completedAt (updatedUserChallenge 9000 (mkProgressData (Some 2) None None None) almostMet)
    = Some 9000%Z.
Proof.
  apply (all_targets_met_completes 9000).
  - unfold all_met, pair_met. cbn.
    split_and!; intros H; try discriminate H; eexists _, _; split_and!; try done.
  - intros (H & _). by vm_compute in H.
Defined.

(** *** More progress never lowers the percentage *)

Lemma criterion_mono (current current' total : option Q)
    (a1 a2 : Js.JsNumber * nat) :
  (Js.truthy total = true →
     ∃ c c' t, current = Some c ∧ current' = Some c' ∧ total = Some t ∧
               0 < t ∧ c <= c') →
  acc_le a1 a2 → acc_le (criterion current total a1) (criterion current' total a2).
Proof.
  intros Hp (Hn & x & y & Hx & Hy & Hle). unfold criterion.
  destruct (Js.truthy total) eqn:E; [|by split; [|exists x, y]].
  destruct (Hp eq_refl) as (c & c' & t & -> & -> & -> & Ht & Hc).
  simpl. rewrite Hx, Hy, Hn. simpl. split; [done|].
  eexists _, _. split_and!; try done.
  apply Qplus_le_compat; [done|].
  apply Qmult_le_compat_r; [|discriminate].
  apply Qmult_le_compat_r; [done|]. by apply Qinv_le_0_compat, Qlt_le_weak.
Qed.

Lemma accumulate_mono (c : Q) (delta : option Q) :
  absent_or_nonneg delta → ∃ c', accumulate (Some c) delta = Some c' ∧ c <= c'.
Proof.
  intros Hd. unfold accumulate.
  destruct delta as [d|]; [|exists c; split; [done|apply Qle_refl]].
  destruct (Js.truthyQ d); [|exists c; split; [done|apply Qle_refl]].
  eexists. split; [done|].
  eapply Qle_trans; [apply or_num_ge|]. apply Qle_plus_nonneg. by apply Hd.
Qed.

Lemma pair_mono_accumulate (current delta total : option Q) :
  absent_or_nonneg delta → pair_sound current total →
  Js.truthy total = true →
  ∃ c c' t, current = Some c ∧ accumulate current delta = Some c' ∧ total = Some t ∧
            0 < t ∧ c <= c'.
Proof.
  intros Hd Hp Ht. destruct (Hp Ht) as (c & t & -> & -> & Hc & Ht').
  destruct (accumulate_mono c delta Hd) as (c' & Hc' & Hle).
  by exists c, c', t.
Qed.

(** X13. An update without a negative measurement never lowers the
    percentage of a record whose tracked pairs are complete, with
    positive targets and no negative current value: the result of
    calculateChallengeProgress before the update is at most the result
    after it. *)
Theorem percentage_never_decreases (d : ProgressData) (p : Progress) :
  progress_sound p →
  nonneg_delta d →
  num_le (progressPercentage p) (progressPercentage (applyProgressData d p)).
Proof.
  intros (Hw & Hd & Hc & Hm & Hs) (Hdist & Hcal & Hmin).
  assert (acc_le (criteria p) (criteria (applyProgressData d p)))
    as (Hn & x & y & Hx & Hy & Hle).
  { unfold criteria, applyProgressData.
    cbn [completedWorkouts totalWorkouts currentDistance totalDistance
         currentCalories totalCalories currentMinutes totalMinutes
         currentSessions totalSessions].
    apply criterion_mono.
    { intros Ht. destruct (Hs Ht) as (c & t & -> & -> & ? & ?).
      exists c, c, t. split_and!; try done. apply Qle_refl. }
    apply criterion_mono; [by apply pair_mono_accumulate|].
    apply criterion_mono; [by apply pair_mono_accumulate|].
    apply criterion_mono; [by apply pair_mono_accumulate|].
    apply criterion_mono.
    { intros Ht. destruct (Hw Ht) as (c & t & [= <-] & [= <-] & ? & ?).
      destruct (truthy_flag (workoutCompleted d)).
      - eexists _, _, _. split_and!; try done. apply Qle_plus_nonneg. discriminate.
      - eexists _, _, _. split_and!; try done. apply Qle_refl. }
    split; [done|]. exists 0, 0. split_and!; try done. }
  unfold progressPercentage.
  destruct (criteria p) as [t1 n1], (criteria (applyProgressData d p)) as [t2 n2].
  simpl in Hn, Hx, Hy. subst t1 t2 n2.
  destruct (Nat.ltb_spec 0 n1); [|simpl; discriminate].
  simpl. apply minQ_glb; [|apply minQ_le_r].
  eapply Qle_trans; [apply minQ_le_l|].
  rewrite <- Zle_Qle. apply roundQ_mono.
  apply Qmult_le_compat_r; [done|].
  apply Qinv_le_0_compat. change 0 with (inject_Z 0). rewrite <- Zle_Qle. lia.
Qed.

Lemma percentage_never_decreases_witness :
  num_le (progressPercentage (initialProgress runningChallenge))
    (progressPercentage
       (applyProgressData (mkProgressData (Some 60) None None (Some true))
          (initialProgress runningChallenge))).
Proof.
  apply percentage_never_decreases.
  - apply progress_sound_initial.
    + vm_compute. discriminate.
    + unfold goals_nonneg, absent_or_nonneg.
      split_and!; intros x Hx; vm_compute in Hx; try discriminate Hx;
        injection Hx as <-; discriminate.
  - unfold nonneg_delta, absent_or_nonneg. cbn [distance calories minutes].
    split_and!; intros x Hx; try discriminate Hx; injection Hx as <-; discriminate.
Defined.

End Histories.

(** ** The progress bar *)

Section ProgressBar.

Local Open Scope Q_scope.

Lemma minQ_inject_Z (r : Z) :
  Js.minQ (inject_Z r) 100 = inject_Z (Z.min r 100).
Proof.
  unfold Js.minQ.
  destruct (Qle_bool (inject_Z r) 100) eqn:E.
  - apply Qle_bool_iff in E. change 100 with (inject_Z 100) in E.
    rewrite <- Zle_Qle in E. by rewrite Z.min_l.
  - assert (¬ inject_Z r <= 100) as Hgt.
    { intros H. apply Qle_bool_iff in H. congruence. }
    change 100 with (inject_Z 100) in Hgt. rewrite <- Zle_Qle in Hgt.
    by rewrite Z.min_r by lia.
Qed.

Lemma maxQ_inject_Z (k : Z) :
  Js.maxQ (inject_Z k) 0 = inject_Z (Z.max k 0).
Proof.
  unfold Js.maxQ.
  destruct (Qle_bool (inject_Z k) 0) eqn:E.
  - apply Qle_bool_iff in E. change 0 with (inject_Z 0) in E.
    rewrite <- Zle_Qle in E. by rewrite Z.max_r.
  - assert (¬ inject_Z k <= 0) as Hgt.
    { intros H. apply Qle_bool_iff in H. congruence. }
    change 0 with (inject_Z 0) in Hgt. rewrite <- Zle_Qle in Hgt.
    by rewrite Z.max_l by lia.
Qed.

(** X14. For a record whose tracked values stay within the range of a
    double (each tracked current value at most 10^15 and each tracked
    target at least 10^-15 in absolute value, so that no ratio
    overflows), calculateChallengeProgress returns NaN or a whole number
    that is at most 100, and generateProgressBar draws that number with
    negative values raised to 0: its width is the percentage itself when
    that is not negative, and always lies between 0 and 100.  The bound
    is what the arithmetic of doubles needs; the exact arithmetic used
    here holds without it. *)
Theorem progress_bar_of_percentage (uc : UserChallenge) :
  progress_bounded (progress uc) = true →
  calculateChallengeProgress uc = Js.NaN ∨
  ∃ k : Z,
    calculateChallengeProgress uc = Js.Num (inject_Z k) ∧
    (k ≤ 100)%Z ∧
    safePercentage (calculateChallengeProgress uc) = Js.Num (inject_Z (Z.max k 0)) ∧
    Js.in_percent_range (safePercentage (calculateChallengeProgress uc)).
Proof.
  intros _.
  assert (∀ k : Z, (k ≤ 100)%Z →
            safePercentage (Js.Num (inject_Z k)) = Js.Num (inject_Z (Z.max k 0))) as Hbar.
  { intros k Hk. unfold safePercentage. cbn [Js.Math_max Js.Math_min].
    rewrite maxQ_inject_Z, minQ_inject_Z. by rewrite Z.min_l by lia. }
  unfold calculateChallengeProgress, progressPercentage.
  destruct (criteria (progress uc)) as [t n].
  destruct (0 <? n)%nat.
  - destruct t as [x|]; [|by left]. right.
    cbn [Js.div Js.Math_round Js.Math_min]. rewrite minQ_inject_Z.
    eexists. split; [done|]. split; [lia|]. split; [apply Hbar; lia|].
    apply safePercentage_range.
  - right. exists 0%Z. split; [done|]. split; [lia|].
    split; [apply (Hbar 0%Z); lia|]. apply safePercentage_range.
Qed.

Lemma progress_bar_of_percentage_witness :
  calculateChallengeProgress belowZeroRecord = Js.NaN ∨
  ∃ k : Z,
    calculateChallengeProgress belowZeroRecord = Js.Num (inject_Z k) ∧
    (k ≤ 100)%Z ∧
    safePercentage (calculateChallengeProgress belowZeroRecord)
      = Js.Num (inject_Z (Z.max k 0)) ∧
    Js.in_percent_range (safePercentage (calculateChallengeProgress belowZeroRecord)).
Proof.
  apply (progress_bar_of_percentage belowZeroRecord). by vm_compute.
Defined.

(** The record with distance -100 has the percentage -100, and its bar
    has width 0. *)
Example below_zero_bar :
  calculateChallengeProgress belowZeroRecord = Js.Num (-100) ∧
  safePercentage (calculateChallengeProgress belowZeroRecord) = Js.Num 0.
Proof. split; by vm_compute. Qed.

End ProgressBar.

(** ** Sorting and listing the catalog *)

Section InsertionSort.
Context {A : Type} (cmp : A → A → Z) (key : A → Z) (known : A → Prop).
Hypothesis cmp_key :
  ∀ a b, known a → known b → (cmp a b ≤ 0 ↔ key a ≤ key b)%Z.

Lemma insertSorted_perm (x : A) (l : list A) : insertSorted cmp x l ≡ₚ x :: l.
Proof.
  induction l as [|y ys IH]; simpl; [done|].
  destruct (cmp x y <=? 0)%Z; [done|].
  rewrite IH. apply Permutation_swap.
Qed.

Lemma sort_perm (l : list A) : sort cmp l ≡ₚ l.
Proof.
  unfold sort. induction l as [|x l IH]; simpl; [done|].
  by rewrite insertSorted_perm, IH.
Qed.

Lemma insertSorted_sorted (x : A) (l : list A) :
  known x → Forall known l →
  StronglySorted (λ a b, key a ≤ key b)%Z l →
  StronglySorted (λ a b, key a ≤ key b)%Z (insertSorted cmp x l).
Proof.
  intros Hx Hl Hs. induction Hs as [|y ys Hs IH Hy]; simpl.
  - by repeat constructor.
  - apply Forall_cons in Hl as [Hky Hkys].
    destruct (Z.leb_spec (cmp x y) 0) as [Hle|Hgt].
    + apply cmp_key in Hle; [|done..].
      constructor; [by constructor|].
      constructor; [done|].
      eapply Forall_impl; [exact Hy|]. simpl. intros z Hz. lia.
    + assert (key y < key x)%Z as Hlt.
      { destruct (Z.le_gt_cases (key x) (key y)) as [Hxy|Hxy]; [|lia].
        apply cmp_key in Hxy; [lia|done..]. }
      constructor; [by apply IH|].
      rewrite insertSorted_perm. constructor; [lia|done].
Qed.

Lemma sort_sorted (l : list A) :
  Forall known l → StronglySorted (λ a b, key a ≤ key b)%Z (sort cmp l).
Proof.
  unfold sort. induction 1 as [|x l Hx Hl IH]; simpl; [constructor|].
  apply insertSorted_sorted; [done| |done].
  fold (sort cmp l). by rewrite sort_perm.
Qed.

(** Stability: the elements picked by a predicate that holds within one
    key class only keep their order. *)
Lemma insertSorted_stable (Q : A → Prop) `{!∀ a, Decision (Q a)} (x : A) (l : list A) :
  (∀ a b, Q a → Q b → key a = key b) →
  known x → Forall known l →
  filter Q (insertSorted cmp x l) = filter Q (x :: l).
Proof.
  intros HQ Hx Hl. induction l as [|y ys IH]; simpl; [done|].
  apply Forall_cons in Hl as [Hky Hkys].
  destruct (Z.leb_spec (cmp x y) 0) as [Hle|Hgt]; [done|].
  assert (key x ≠ key y) as Hne.
  { intros Heq. assert (key x ≤ key y)%Z as Hxy by lia.
    apply cmp_key in Hxy; [lia|done..]. }
  rewrite filter_cons, (IH Hkys), !filter_cons.
  destruct (decide (Q y)), (decide (Q x)); try done.
  exfalso. apply Hne. by apply HQ.
Qed.

Lemma sort_stable (Q : A → Prop) `{!∀ a, Decision (Q a)} (l : list A) :
  (∀ a b, Q a → Q b → key a = key b) →
  Forall known l →
  filter Q (sort cmp l) = filter Q l.
Proof.
  intros HQ. unfold sort. induction 1 as [|x l Hx Hl IH]; simpl; [done|].
  fold (sort cmp l) in *.
  rewrite insertSorted_stable; [|done..|by rewrite sort_perm].
  by rewrite !filter_cons, IH.
Qed.

End InsertionSort.

Section Listings.

Lemma StronglySorted_impl {A : Type} (R R' : relation A) (l : list A) :
  (∀ a b, R a b → R' a b) → StronglySorted R l → StronglySorted R' l.
Proof.
  intros HR. induction 1 as [|x l Hs IH Hx]; constructor; [done|].
  eapply Forall_impl; [exact Hx|]. auto.
Qed.

Lemma Forall_True {A : Type} (l : list A) : Forall (λ _, True) l.
Proof. by apply Forall_forall. Qed.

Lemma sort_byParticipants (l : list ChallengeInfo) :
  sort byParticipants l ≡ₚ l ∧
  StronglySorted byPopularity (sort byParticipants l) ∧
  ∀ n, filter (λ c, participants (base c) = n) (sort byParticipants l)
       = filter (λ c, participants (base c) = n) l.
Proof.
  assert (∀ a b : ChallengeInfo, True → True →
            (byParticipants a b ≤ 0 ↔ - participants (base a) ≤ - participants (base b))%Z)
    as Hkey by (intros a b _ _; unfold byParticipants; lia).
  split_and!.
  - apply sort_perm.
  - eapply StronglySorted_impl;
      [|apply (sort_sorted byParticipants _ (λ _, True) Hkey), Forall_True].
    unfold byPopularity. simpl. intros a b. lia.
  - intros n.
    apply (sort_stable byParticipants _ (λ _, True) Hkey); [|apply Forall_True].
    intros a b. simpl. lia.
Qed.

Lemma sort_byNewest (l : list ChallengeInfo) :
  sort byNewest l ≡ₚ l ∧
  StronglySorted byRecency (sort byNewest l) ∧
  ∀ n, filter (λ c, createdAt c = n) (sort byNewest l)
       = filter (λ c, createdAt c = n) l.
Proof.
  assert (∀ a b : ChallengeInfo, True → True →
            (byNewest a b ≤ 0 ↔ - createdAt a ≤ - createdAt b)%Z)
    as Hkey by (intros a b _ _; unfold byNewest; lia).
  split_and!.
  - apply sort_perm.
  - eapply StronglySorted_impl;
      [|apply (sort_sorted byNewest _ (λ _, True) Hkey), Forall_True].
    unfold byRecency. simpl. intros a b. lia.
  - intros n.
    apply (sort_stable byNewest _ (λ _, True) Hkey); [|apply Forall_True].
    intros a b. simpl. lia.
Qed.

Lemma sort_byDifficulty (l : list ChallengeInfo) :
  Forall knownDifficulty l →
  sort byDifficulty l ≡ₚ l ∧
  StronglySorted byEase (sort byDifficulty l) ∧
  ∀ n, filter (λ c, difficultyRank c = n) (sort byDifficulty l)
       = filter (λ c, difficultyRank c = n) l.
Proof.
  intros Hl.
  assert (∀ a b : ChallengeInfo, knownDifficulty a → knownDifficulty b →
            (byDifficulty a b ≤ 0 ↔ difficultyRank a ≤ difficultyRank b)%Z) as Hkey.
  { intros a b [x Hx] [y Hy]. unfold byDifficulty, difficultyRank.
    rewrite Hx, Hy. simpl. lia. }
  split_and!.
  - apply sort_perm.
  - by apply (sort_sorted byDifficulty difficultyRank knownDifficulty Hkey).
  - intros n.
    apply (sort_stable byDifficulty difficultyRank knownDifficulty Hkey); [|done].
    intros a b. simpl. lia.
Qed.

(** X15. sortChallenges returns a rearrangement of the list it is given.
    For popular and participants the result has the most participants
    first, for newest the latest creation date first, and for difficulty
    (when every entry has one of the three known difficulties) beginner
    before intermediate before advanced; entries that tie keep their
    relative order.  Any other criterion returns the list unchanged. *)
Theorem sortChallenges_sorts (l : list ChallengeInfo) (sortBy : string) :
  sortChallenges l sortBy ≡ₚ l ∧
  (sortBy = "popular" ∨ sortBy = "participants" →
     StronglySorted byPopularity (sortChallenges l sortBy) ∧
     ∀ n, filter (λ c, participants (base c) = n) (sortChallenges l sortBy)
          = filter (λ c, participants (base c) = n) l) ∧
  (sortBy = "newest" →
     StronglySorted byRecency (sortChallenges l sortBy) ∧
     ∀ n, filter (λ c, createdAt c = n) (sortChallenges l sortBy)
          = filter (λ c, createdAt c = n) l) ∧
  (sortBy = "difficulty" → Forall knownDifficulty l →
     StronglySorted byEase (sortChallenges l sortBy) ∧
     ∀ n, filter (λ c, difficultyRank c = n) (sortChallenges l sortBy)
          = filter (λ c, difficultyRank c = n) l) ∧
  (sortBy ≠ "popular" → sortBy ≠ "participants" → sortBy ≠ "newest" →
   sortBy ≠ "difficulty" → sortChallenges l sortBy = l).
Proof.
  split_and!.
  - unfold sortChallenges. repeat case_bool_decide; try done; apply sort_perm.
  - intros [-> | ->]; unfold sortChallenges.
    + rewrite bool_decide_eq_true_2 by done.
      by destruct (sort_byParticipants l) as (_ & ? & ?).
    + rewrite !(bool_decide_eq_false_2 ("participants" = _)) by done.
      rewrite bool_decide_eq_true_2 by done.
      by destruct (sort_byParticipants l) as (_ & ? & ?).
  - intros ->. unfold sortChallenges.
    rewrite !(bool_decide_eq_false_2 ("newest" = "popular")) by done.
    rewrite bool_decide_eq_true_2 by done.
    by destruct (sort_byNewest l) as (_ & ? & ?).
  - intros -> Hl. unfold sortChallenges.
    rewrite (bool_decide_eq_false_2 ("difficulty" = "popular")) by done.
    rewrite (bool_decide_eq_false_2 ("difficulty" = "newest")) by done.
    rewrite (bool_decide_eq_false_2 ("difficulty" = "participants")) by done.
    rewrite bool_decide_eq_true_2 by done.
    by destruct (sort_byDifficulty l Hl) as (_ & ? & ?).
  - intros H1 H2 H3 H4. unfold sortChallenges.
    by rewrite !bool_decide_eq_false_2 by done.
Qed.

Lemma sortChallenges_sorts_witness :
  StronglySorted byEase (sortChallenges (reverse defaultCatalog) "difficulty") ∧
  (id ∘ base <$> sortChallenges (reverse defaultCatalog) "difficulty")
    = ["2"; "1"; "5"; "3"; "4"] ∧
  (id ∘ base <$> sortChallenges defaultCatalog "popular") = ["3"; "1"; "2"; "4"; "5"].
Proof.
  destruct (sortChallenges_sorts (reverse defaultCatalog) "difficulty")
    as (_ & _ & _ & Hd & _).
  split_and!.
  - apply Hd; [done|].
    unfold knownDifficulty. vm_compute. repeat constructor; by eexists.
  - by vm_compute.
  - by vm_compute.
Defined.

Lemma slice0_take {A : Type} (n : Z) (l : list A) :
  ∃ k, slice0 n l = take k l ∧
       k = Z.to_nat (if (n <? 0)%Z
                     then Z.max (Z.of_nat (length l) + n) 0
                     else Z.min n (Z.of_nat (length l))) ∧
       k ≤ length l.
Proof.
  unfold slice0. eexists. split; [done|]. split; [done|].
  destruct (Z.ltb_spec n 0); lia.
Qed.

(** X16. getFeaturedChallenges returns featured entries of the catalog
    only, the most popular first, and they are the most popular ones:
    what it leaves out are featured entries with at most as many
    participants as every entry returned.  The number returned is the
    limit (3 by default), or the number of featured entries when there
    are fewer; a negative limit drops that many from the end instead. *)
Theorem getFeaturedChallenges_top (limit : option Z) (catalog : list ChallengeInfo) :
  let n := default 3%Z limit in
  let candidates := filter (λ c, featured c = true) catalog in
  let result := getFeaturedChallenges limit catalog in
  Z.of_nat (length result)
    = (if (n <? 0)%Z
       then Z.max (Z.of_nat (length candidates) + n) 0
       else Z.min n (Z.of_nat (length candidates))) ∧
  (∀ c, c ∈ result → featured c = true ∧ c ∈ catalog) ∧
  StronglySorted byPopularity result ∧
  ∃ rest, result ++ rest ≡ₚ candidates ∧
          ∀ a b, a ∈ result → b ∈ rest → byPopularity a b.
Proof.
  intros n candidates result.
  destruct (sort_byParticipants candidates) as (Hperm & Hsorted & _).
  destruct (slice0_take n (sort byParticipants candidates)) as (k & Hk & Hkn & Hle).
  assert (result = take k (sort byParticipants candidates)) as Hres by exact Hk.
  assert (length (sort byParticipants candidates) = length candidates) as Hlen
    by by rewrite Hperm.
  rewrite <- (take_drop k (sort byParticipants candidates)) in Hsorted, Hperm.
  rewrite <- Hres in Hsorted, Hperm.
  split_and!.
  - rewrite Hres, length_take, Nat.min_l by done. rewrite Hkn, Hlen.
    destruct (Z.ltb_spec n 0); lia.
  - intros c Hc.
    assert (c ∈ candidates) as Hin.
    { rewrite <- Hperm. apply elem_of_app. by left. }
    apply list_elem_of_filter in Hin. done.
  - by apply StronglySorted_app_1_l in Hsorted.
  - exists (drop k (sort byParticipants candidates)). split; [done|].
    intros a b Ha Hb. by eapply StronglySorted_app_1_elem_of.
Qed.

Lemma filter_comm {A : Type} (P Q : A → Prop)
    `{!∀ x, Decision (P x)} `{!∀ x, Decision (Q x)} (l : list A) :
  filter P (filter Q l) = filter Q (filter P l).
Proof.
  induction l as [|x l IH]; [done|].
  rewrite !filter_cons.
  destruct (decide (Q x)), (decide (P x)); rewrite ?filter_cons;
    rewrite ?decide_True, ?decide_False by done; by rewrite IH.
Qed.

(** X17. getChallengesByCategory and getChallengesByDifficulty return the
    whole catalog for "all" and otherwise exactly the entries with the
    given category, respectively difficulty, in catalog order; applying
    the two in either order gives the same list. *)
Theorem listings_by_field (cat dif : string) (catalog : list ChallengeInfo) :
  getChallengesByCategory "all" catalog = catalog ∧
  getChallengesByDifficulty "all" catalog = catalog ∧
  getChallengesByCategory cat catalog `sublist_of` catalog ∧
  getChallengesByDifficulty dif catalog `sublist_of` catalog ∧
  (cat ≠ "all" →
   ∀ c, c ∈ getChallengesByCategory cat catalog ↔ c ∈ catalog ∧ category (base c) = cat) ∧
  (dif ≠ "all" →
   ∀ c, c ∈ getChallengesByDifficulty dif catalog ↔ c ∈ catalog ∧ difficulty c = dif) ∧
  getChallengesByCategory cat (getChallengesByDifficulty dif catalog)
    = getChallengesByDifficulty dif (getChallengesByCategory cat catalog).
Proof.
  unfold getChallengesByCategory, getChallengesByDifficulty.
  split_and!; try done.
  - case_bool_decide; [done|apply sublist_filter].
  - case_bool_decide; [done|apply sublist_filter].
  - intros Hne c. rewrite bool_decide_eq_false_2 by done.
    rewrite list_elem_of_filter. tauto.
  - intros Hne c. rewrite bool_decide_eq_false_2 by done.
    rewrite list_elem_of_filter. tauto.
  - repeat case_bool_decide; try done. apply filter_comm.
Qed.

Lemma listings_by_field_witness :
  (id ∘ base <$> getChallengesByCategory "yoga" defaultCatalog) = ["2"] ∧
  ∀ c, c ∈ getChallengesByDifficulty "beginner" defaultCatalog ↔
       c ∈ defaultCatalog ∧ difficulty c = "beginner".
Proof.
  destruct (listings_by_field "yoga" "beginner" defaultCatalog)
    as (_ & _ & _ & _ & _ & Hd & _).
  split; [by vm_compute|]. by apply Hd.
Defined.

Lemma elem_of_sortChallenges (l : list ChallengeInfo) (sortBy : string) (c : ChallengeInfo) :
  c ∈ sortChallenges l sortBy ↔ c ∈ l.
Proof.
  assert (sortChallenges l sortBy ≡ₚ l) as Hperm.
  { unfold sortChallenges. repeat case_bool_decide; try done; apply sort_perm. }
  by rewrite Hperm.
Qed.

(** X18. applyFilters returns exactly the entries of the catalog that
    pass the three filters (category, difficulty, and a minimum duration
    when the duration filter parses as a number; a filter set to "all",
    or a duration that does not parse, lets everything through), never
    more entries than the catalog has, arranged by the sort criterion;
    with the default filters the result is the whole catalog, most
    participants first. *)
Theorem applyFilters_selects (parseInt : string → option Z) (currentFilters : Filters)
    (catalog : list ChallengeInfo) :
  (∀ c, c ∈ applyFilters parseInt currentFilters catalog ↔
        c ∈ catalog ∧ passesFilters parseInt currentFilters c) ∧
  length (applyFilters parseInt currentFilters catalog) ≤ length catalog ∧
  (∃ selected, selected `sublist_of` catalog ∧
     applyFilters parseInt currentFilters catalog
       = sortChallenges selected (f_sort currentFilters)) ∧
  applyFilters parseInt defaultFilters catalog ≡ₚ catalog ∧
  StronglySorted byPopularity (applyFilters parseInt defaultFilters catalog).
Proof.
  split_and!.
  - intros c. unfold applyFilters, passesFilters.
    rewrite elem_of_sortChallenges.
    destruct currentFilters as [fc fd fdu fs]. simpl.
    repeat case_bool_decide; simpl;
      try destruct (parseInt fdu) as [d|];
      rewrite ?list_elem_of_filter; intuition congruence.
  - unfold applyFilters.
    assert (∀ l, length (sortChallenges l (f_sort currentFilters)) = length l) as Hlen.
    { intros l. assert (sortChallenges l (f_sort currentFilters) ≡ₚ l) as ->; [|done].
      unfold sortChallenges. repeat case_bool_decide; try done; apply sort_perm. }
    rewrite Hlen.
    repeat case_bool_decide; simpl;
      try destruct (parseInt (f_duration currentFilters)) as [d|];
      repeat (etrans; [apply length_filter|]); done.
  - unfold applyFilters. eexists. split; [|done].
    repeat case_bool_decide; simpl;
      try destruct (parseInt (f_duration currentFilters)) as [d|];
      repeat (etrans; [apply sublist_filter|]); done.
  - unfold applyFilters, defaultFilters. simpl.
    by destruct (sort_byParticipants catalog) as (? & _).
  - unfold applyFilters, defaultFilters. simpl.
    by destruct (sort_byParticipants catalog) as (_ & ? & _).
Qed.

End Listings.

(** ** The catalog under the operations *)

Section Catalog.
Local Close Scope Q_scope.

Lemma updateChallengeParticipants_ids (cid : string) (inc : Z) (s : Store) :
  id <$> challenges (updateChallengeParticipants cid inc s) = id <$> challenges s.
Proof.
  unfold updateChallengeParticipants, getChallenges.
  destruct (findIndex _ (challenges s)) as [i|]; [|done].
  cbn [challenges set_challenges].
  rewrite (list_fmap_alter id (add_participants inc) (λ x, x)).
  - by apply list_alter_id.
  - by apply Forall_forall.
Qed.

Lemma add_participants_add (a b : Z) (c : Challenge) :
  add_participants b (add_participants a c) = add_participants (a + b) c.
Proof. unfold add_participants. simpl. f_equal. lia. Qed.

(** X19. The participant counter.  updateChallengeParticipants moves
    the counter of the first catalog entry with the given id by the
    increment, which may be negative, and no bound is applied; the other
    entries, the order and the ids of the catalog, the memberships and
    the session stay as they are.  An unknown id changes nothing, and two
    calls for the same id amount to one call with the sum of the
    increments. *)
Theorem updateChallengeParticipants_counter (cid : string) (a b : Z) (s : Store) :
  (participants <$> getChallengeById cid (updateChallengeParticipants cid a s)
     = (λ n, n + a)%Z <$> (participants <$> getChallengeById cid s)) ∧
  (∀ cid', cid' ≠ cid →
     getChallengeById cid' (updateChallengeParticipants cid a s)
     = getChallengeById cid' s) ∧
  (getChallengeById cid s = None → updateChallengeParticipants cid a s = s) ∧
  id <$> challenges (updateChallengeParticipants cid a s) = id <$> challenges s ∧
  allUserChallenges (updateChallengeParticipants cid a s) = allUserChallenges s ∧
  session (updateChallengeParticipants cid a s) = session s ∧
  updateChallengeParticipants cid b (updateChallengeParticipants cid a s)
    = updateChallengeParticipants cid (a + b) s.
Proof.
  split_and!.
  - rewrite getChallengeById_updateChallengeParticipants.
    by destruct (getChallengeById cid s).
  - intros cid'. apply getChallengeById_updateChallengeParticipants_ne.
  - unfold getChallengeById, updateChallengeParticipants, getChallenges.
    intros Hnone. apply (find_None (λ c, id c = cid)) in Hnone.
    apply (findIndex_None (λ c, id c = cid)) in Hnone. by rewrite Hnone.
  - apply updateChallengeParticipants_ids.
  - apply updateChallengeParticipants_allUserChallenges.
  - apply updateChallengeParticipants_session.
  - unfold updateChallengeParticipants, getChallenges.
    destruct (findIndex (λ c, id c = cid) (challenges s)) as [i|] eqn:E.
    + cbn [challenges set_challenges].
      rewrite findIndex_alter by (intros c; by rewrite add_participants_id).
      rewrite E. unfold set_challenges. cbn [challenges allUserChallenges session].
      f_equal. rewrite list_alter_alter_eq. apply list_alter_ext; [|done].
      intros c _. apply add_participants_add.
    + by rewrite E.
Qed.

Lemma updateChallengeProgress_catalog (now : Z) (cid : string) (d : ProgressData)
    (s : Store) :
  challenges (snd (updateChallengeProgress now cid d s)) = challenges s ∧
  session (snd (updateChallengeProgress now cid d s)) = session s.
Proof.
  unfold updateChallengeProgress.
  destruct (getCurrentUser s) as [user|]; [|done].
  destruct (allUserChallenges s !! user_id user) as [l|]; [|done].
  destruct (findIndex _ l) as [i|]; [|done].
  by destruct (l !! i).
Qed.

Lemma syncChallengeProgress_catalog (now : Z) (cid : string)
    (stravaResponse : option (list StravaActivity))
    (fitbitResponse : option FitbitDaily) (s : Store) :
  challenges (snd (syncChallengeProgress now cid stravaResponse fitbitResponse s))
    = challenges s ∧
  session (snd (syncChallengeProgress now cid stravaResponse fitbitResponse s))
    = session s.
Proof.
  unfold syncChallengeProgress.
  destruct (getChallengeById cid s) as [c|]; [|done].
  destruct (hasSyncedData _); [|done].
  cbn [snd]. apply updateChallengeProgress_catalog.
Qed.

Lemma joinChallenge_ids (now : Z) (cid : string) (s : Store) :
  id <$> challenges (snd (joinChallenge now cid s)) = id <$> challenges s.
Proof.
  unfold joinChallenge.
  destruct (negb (isLoggedIn s)); [done|].
  destruct (getCurrentUser s) as [user|]; [|done].
  destruct (getChallengeById cid s) as [c|]; [|done].
  destruct (hasJoinedChallenge cid None s); [done|].
  destruct (Nat.leb _ _); [done|].
  cbn [snd]. by rewrite updateChallengeParticipants_ids.
Qed.

Lemma leaveChallenge_ids (now : Z) (cid : string) (s : Store) :
  id <$> challenges (snd (leaveChallenge now cid s)) = id <$> challenges s.
Proof.
  unfold leaveChallenge.
  destruct (getCurrentUser s) as [user|]; [|done].
  destruct (allUserChallenges s !! user_id user) as [l|]; [|done].
  destruct (findIndex _ l) as [i|]; [|done].
  cbn [snd]. by rewrite updateChallengeParticipants_ids.
Qed.

Lemma initializeDefaultChallenges_nonempty (s : Store) :
  challenges s ≠ [] → initializeDefaultChallenges s = s.
Proof.
  unfold initializeDefaultChallenges, getChallenges.
  by destruct (challenges s).
Qed.

Lemma initializeDefaultChallenges_seeded (s : Store) :
  challenges (initializeDefaultChallenges s) ≠ [].
Proof.
  unfold initializeDefaultChallenges, getChallenges.
  destruct (challenges s) eqn:E; [|by rewrite E].
  cbn [challenges set_challenges]. unfold defaultChallenges. discriminate.
Qed.

(** X20. The catalog is seeded once.  initializeDefaultChallenges writes
    the five default challenges into an empty catalog and leaves any
    other catalog, the memberships and the session alone.  After it,
    joinChallenge, leaveChallenge, updateChallengeProgress and
    syncChallengeProgress keep the ids of the catalog and their order,
    so that running the initializer again, as every load of the module
    does, changes nothing: the catalog is never reset. *)
Theorem catalog_seeded_once (now : Z) (cid : string) (d : ProgressData)
    (stravaResponse : option (list StravaActivity))
    (fitbitResponse : option FitbitDaily) (s : Store) :
  let s0 := initializeDefaultChallenges s in
  (challenges s = [] → challenges s0 = defaultChallenges) ∧
  (challenges s ≠ [] → s0 = s) ∧
  allUserChallenges s0 = allUserChallenges s ∧
  session s0 = session s ∧
  ∀ s', s' ∈ [ snd (joinChallenge now cid s0);
               snd (leaveChallenge now cid s0);
               snd (updateChallengeProgress now cid d s0);
               snd (syncChallengeProgress now cid stravaResponse fitbitResponse s0) ] →
    id <$> challenges s' = id <$> challenges s0 ∧
    initializeDefaultChallenges s' = s'.
Proof.
  intros s0.
  assert (∀ s', id <$> challenges s' = id <$> challenges s0 →
            id <$> challenges s' = id <$> challenges s0 ∧
            initializeDefaultChallenges s' = s') as Hkeep.
  { intros s' Hids. split; [done|].
    apply initializeDefaultChallenges_nonempty. intros Hnil.
    rewrite Hnil in Hids. symmetry in Hids. apply fmap_nil_inv in Hids.
    by apply (initializeDefaultChallenges_seeded s). }
  split_and!.
  - subst s0. unfold initializeDefaultChallenges, getChallenges. by intros ->.
  - apply initializeDefaultChallenges_nonempty.
  - subst s0. unfold initializeDefaultChallenges, getChallenges.
    by destruct (challenges s).
  - subst s0. unfold initializeDefaultChallenges, getChallenges.
    by destruct (challenges s).
  - intros s' Hs'. apply Hkeep.
    rewrite !elem_of_cons in Hs'.
    destruct Hs' as [->|[->|[->|[->|Hs']]]].
    + apply joinChallenge_ids.
    + apply leaveChallenge_ids.
    + by rewrite (proj1 (updateChallengeProgress_catalog now cid d s0)).
    + by rewrite (proj1 (syncChallengeProgress_catalog now cid _ _ s0)).
    + by apply elem_of_nil in Hs'.
Qed.

End Catalog.

(** ** What a sync reports and what it writes *)

Section SyncOutcome.
Local Close Scope Q_scope.

Lemma hasSyncedData_sources (challenge : Challenge)
    (stravaResponse : option (list StravaActivity))
    (fitbitResponse : option FitbitDaily) :
  hasSyncedData (collectSyncedData challenge stravaResponse fitbitResponse) = true ↔
  is_Some fitbitResponse ∨
  (is_Some stravaResponse ∧
   (category challenge = RUNNING ∨ category challenge = CYCLING)).
Proof.
  unfold hasSyncedData, collectSyncedData. cbn [strava fitbit].
  destruct fitbitResponse as [f|], stravaResponse as [a|]; simpl;
    repeat case_bool_decide; simpl; split;
    try (intros _; by eauto); try done;
    intros [[? [=]]|[[? [=]] ?]]; try tauto.
Qed.

Lemma updateChallengeProgress_no_record (now : Z) (cid : string) (d : ProgressData)
    (s : Store) (user : User) :
  getCurrentUser s = Some user →
  recordFor user cid s = None →
  snd (updateChallengeProgress now cid d s) = s.
Proof.
  intros Hu Hr. unfold updateChallengeProgress. rewrite Hu.
  unfold recordFor, recordsOf in Hr.
  destruct (allUserChallenges s !! user_id user) as [l|]; [|done].
  simpl in Hr. apply (find_None (λ uc, challengeId uc = cid)) in Hr.
  apply (findIndex_None (λ uc, challengeId uc = cid)) in Hr. by rewrite Hr.
Qed.

(** X21. What syncChallengeProgress reports.  The call reports success
    exactly when the challenge exists and a source has answered: Fitbit,
    or Strava for a running or cycling challenge.  The outcome of the
    update it makes is not looked at: without a session, or for a user
    who has no record for the challenge, the call still reports success
    and has written nothing.  A call that reports failure has written
    nothing either, and no call changes the catalog or the session. *)
Theorem syncChallengeProgress_reports (now : Z) (cid : string)
    (stravaResponse : option (list StravaActivity))
    (fitbitResponse : option FitbitDaily) (s : Store) :
  let r := syncChallengeProgress now cid stravaResponse fitbitResponse s in
  (sync_success (fst r) = true ↔
     ∃ challenge, getChallengeById cid s = Some challenge ∧
       (is_Some fitbitResponse ∨
        (is_Some stravaResponse ∧
         (category challenge = RUNNING ∨ category challenge = CYCLING)))) ∧
  (sync_success (fst r) = false → snd r = s) ∧
  (getCurrentUser s = None → snd r = s) ∧
  (∀ user, getCurrentUser s = Some user → recordFor user cid s = None → snd r = s) ∧
  challenges (snd r) = challenges s ∧
  session (snd r) = session s.
Proof.
  intros r. subst r. split_and!.
  - unfold syncChallengeProgress.
    destruct (getChallengeById cid s) as [c|].
    + pose proof (hasSyncedData_sources c stravaResponse fitbitResponse) as Hsrc.
      destruct (hasSyncedData _); cbn [fst sync_success]; split.
      * intros _. exists c. split; [done|]. by apply Hsrc.
      * done.
      * done.
      * intros (c' & [= <-] & Hc'). by apply Hsrc.
    + cbn [fst sync_success]. split; [done|]. intros (c' & Hc' & _). done.
  - unfold syncChallengeProgress.
    destruct (getChallengeById cid s) as [c|]; [|done].
    by destruct (hasSyncedData _).
  - intros Hu. unfold syncChallengeProgress.
    destruct (getChallengeById cid s) as [c|]; [|done].
    destruct (hasSyncedData _); [|done].
    cbn [snd]. unfold updateChallengeProgress. by rewrite Hu.
  - intros user Hu Hr. unfold syncChallengeProgress.
    destruct (getChallengeById cid s) as [c|]; [|done].
    destruct (hasSyncedData _); [|done].
    cbn [snd]. by apply (updateChallengeProgress_no_record now cid _ s user).
  - apply syncChallengeProgress_catalog.
  - apply syncChallengeProgress_catalog.
Qed.

Lemma accumulate_twice (current : option Q) (d : Q) :
  Js.truthyQ d = true →
  ∃ c2, accumulate (accumulate current (Some d)) (Some d) = Some c2 ∧
        (c2 == Js.or_num current 0 + d + d)%Q.
Proof.
  intros Hd. unfold accumulate. rewrite Hd.
  eexists. split; [done|].
  unfold Js.or_num at 1.
  destruct (Js.truthyQ (Js.or_num current 0 + d)) eqn:E; [reflexivity|].
  apply truthyQ_false in E. rewrite E. ring.
Qed.

Lemma syncChallengeProgress_found (now : Z) (cid : string)
    (stravaResponse : option (list StravaActivity))
    (fitbitResponse : option FitbitDaily) (s : Store) (challenge : Challenge) :
  getChallengeById cid s = Some challenge →
  hasSyncedData (collectSyncedData challenge stravaResponse fitbitResponse) = true →
  snd (syncChallengeProgress now cid stravaResponse fitbitResponse s)
  = snd (updateChallengeProgress now cid
           (progressUpdate (collectSyncedData challenge stravaResponse fitbitResponse)) s).
Proof.
  intros Hc Hhas. unfold syncChallengeProgress. by rewrite Hc, Hhas.
Qed.

(** X22. A sync adds, it does not replace.  The totals that the sources
    report are added to the record of the caller each time the sync
    runs: after two syncs with the same answers the record has received
    the update twice, so a reported distance or calorie total that is
    not zero is counted twice. *)
Theorem syncChallengeProgress_twice (now1 now2 : Z) (cid : string)
    (stravaResponse : option (list StravaActivity))
    (fitbitResponse : option FitbitDaily) (s : Store)
    (user : User) (challenge : Challenge) (uc : UserChallenge) :
  getCurrentUser s = Some user →
  getChallengeById cid s = Some challenge →
  recordFor user cid s = Some uc →
  hasSyncedData (collectSyncedData challenge stravaResponse fitbitResponse) = true →
  let d := progressUpdate (collectSyncedData challenge stravaResponse fitbitResponse) in
  let s1 := snd (syncChallengeProgress now1 cid stravaResponse fitbitResponse s) in
  let s2 := snd (syncChallengeProgress now2 cid stravaResponse fitbitResponse s1) in
  ∃ uc1 uc2,
    recordFor user cid s1 = Some uc1 ∧
    progress uc1 = applyProgressData d (progress uc) ∧
    recordFor user cid s2 = Some uc2 ∧
    progress uc2 = applyProgressData d (applyProgressData d (progress uc)) ∧
    (∀ km, distance d = Some km → ¬ (km == 0)%Q →
       ∃ c2, currentDistance (progress uc2) = Some c2 ∧
             (c2 == Js.or_num (currentDistance (progress uc)) 0 + km + km)%Q) ∧
    (∀ kcal, calories d = Some kcal → ¬ (kcal == 0)%Q →
       ∃ c2, currentCalories (progress uc2) = Some c2 ∧
             (c2 == Js.or_num (currentCalories (progress uc)) 0 + kcal + kcal)%Q).
Proof.
  intros Hu Hc Hr Hhas d s1 s2.
  assert (s1 = snd (updateChallengeProgress now1 cid d s)) as Hs1
    by (by apply syncChallengeProgress_found).
  destruct (updateChallengeProgress_catalog now1 cid d s) as [Hcat Hses].
  rewrite <- Hs1 in Hcat, Hses.
  assert (getCurrentUser s1 = Some user) as Hu1
    by (unfold getCurrentUser; by rewrite Hses).
  assert (getChallengeById cid s1 = Some challenge) as Hc1.
  { rewrite <- Hc. unfold getChallengeById, getChallenges. by rewrite Hcat. }
  assert (s2 = snd (updateChallengeProgress now2 cid d s1)) as Hs2
    by (by apply syncChallengeProgress_found).
  destruct (updateChallengeProgress_record now1 cid d s user uc Hu Hr)
    as (uc1 & Hr1 & Hp1).
  rewrite <- Hs1 in Hr1.
  destruct (updateChallengeProgress_record now2 cid d s1 user uc1 Hu1 Hr1)
    as (uc2 & Hr2 & Hp2).
  rewrite <- Hs2 in Hr2.
  exists uc1, uc2. split_and!; try done.
  - by rewrite Hp2, Hp1.
  - intros km Hkm Hnz. rewrite Hp2, Hp1.
    cbn [applyProgressData currentDistance]. rewrite Hkm.
    apply accumulate_twice. by apply truthyQ_true.
  - intros kcal Hkcal Hnz. rewrite Hp2, Hp1.
    cbn [applyProgressData currentCalories]. rewrite Hkcal.
    apply accumulate_twice. by apply truthyQ_true.
Qed.

End SyncOutcome.

Section SyncOutcomeWitness.
Local Close Scope Q_scope.

Lemma syncChallengeProgress_twice_witness :
  let d := progressUpdate (collectSyncedData joinedChallenge (Some twoRuns) None) in
  let s1 := snd (syncChallengeProgress 2000 "1" (Some twoRuns) None joinedOnce) in
  let s2 := snd (syncChallengeProgress 3000 "1" (Some twoRuns) None s1) in
  ∃ uc1 uc2,
    recordFor demoUser "1" s1 = Some uc1 ∧
    progress uc1 = applyProgressData d (progress joinedRecord) ∧
    recordFor demoUser "1" s2 = Some uc2 ∧
    progress uc2 = applyProgressData d (applyProgressData d (progress joinedRecord)) ∧
    (∀ km, distance d = Some km → ¬ (km == 0)%Q →
       ∃ c2, currentDistance (progress uc2) = Some c2 ∧
             (c2 == Js.or_num (currentDistance (progress joinedRecord)) 0 + km + km)%Q) ∧
    (∀ kcal, calories d = Some kcal → ¬ (kcal == 0)%Q →
       ∃ c2, currentCalories (progress uc2) = Some c2 ∧
             (c2 == Js.or_num (currentCalories (progress joinedRecord)) 0 + kcal + kcal)%Q).
Proof.
  apply (syncChallengeProgress_twice 2000 3000 "1" (Some twoRuns) None joinedOnce
           demoUser joinedChallenge joinedRecord); by vm_compute.
Defined.

End SyncOutcomeWitness.

(** ** Access tokens *)

Section Tokens.
Local Close Scope Q_scope.

Lemma list_ascii_of_string_app (s t : string) :
  Stdlib.Strings.String.list_ascii_of_string (s +:+ t)
  = Stdlib.Strings.String.list_ascii_of_string s
    ++ Stdlib.Strings.String.list_ascii_of_string t.
Proof.
  induction s as [|a s IH]; [done|].
  change (Stdlib.Strings.String.list_ascii_of_string (String a s +:+ t))
    with (a :: Stdlib.Strings.String.list_ascii_of_string (s +:+ t)).
  by rewrite IH.
Qed.

Lemma string_app_inv_tail (s1 s2 t : string) : s1 +:+ t = s2 +:+ t → s1 = s2.
Proof.
  intros H. apply (f_equal Stdlib.Strings.String.list_ascii_of_string) in H.
  rewrite !list_ascii_of_string_app in H. apply app_inv_tail in H.
  rewrite <- (Stdlib.Strings.String.string_of_list_ascii_of_string s1),
    <- (Stdlib.Strings.String.string_of_list_ascii_of_string s2).
  by rewrite H.
Qed.

Lemma truthy_id_Some (t : string) : t ≠ "" → truthy_id (Some t) = true.
Proof.
  intros Ht. unfold truthy_id. apply negb_true_iff. by apply String.eqb_neq.
Qed.

(** X23. Access tokens.  A token saved for a service is the one read
    back for it and replaces the one saved before; the tokens of the
    other services are not touched.  The two requests of the sync read
    their token there: with a non-empty token saved, the request is made
    with exactly that token; with an empty one, no request is made and
    the call fails. *)
Theorem saved_token_is_used (service service' token : string)
    (stravaApi : string → option (list StravaActivity))
    (fitbitApi : string → option FitbitDaily)
    (localStorage : gmap string string) :
  getAccessToken service (saveAccessToken service token localStorage) = Some token ∧
  (service' ≠ service →
     getAccessToken service' (saveAccessToken service token localStorage)
     = getAccessToken service' localStorage) ∧
  (token ≠ "" →
     getStravaActivities stravaApi (saveAccessToken "strava" token localStorage)
       = stravaApi token ∧
     getFitbitDailyActivity fitbitApi (saveAccessToken "fitbit" token localStorage)
       = fitbitApi token) ∧
  getStravaActivities stravaApi (saveAccessToken "strava" "" localStorage) = None ∧
  getFitbitDailyActivity fitbitApi (saveAccessToken "fitbit" "" localStorage) = None ∧
  getStravaActivities stravaApi (saveAccessToken "fitbit" token localStorage)
    = getStravaActivities stravaApi localStorage ∧
  getFitbitDailyActivity fitbitApi (saveAccessToken "strava" token localStorage)
    = getFitbitDailyActivity fitbitApi localStorage.
Proof.
  assert (∀ sv, getAccessToken sv (saveAccessToken sv token localStorage) = Some token)
    as Hsame.
  { intros sv. unfold getAccessToken, saveAccessToken. apply lookup_insert_eq. }
  assert (∀ sv sv' tk, sv' ≠ sv →
            getAccessToken sv' (saveAccessToken sv tk localStorage)
            = getAccessToken sv' localStorage) as Hother.
  { intros sv sv' tk Hne. unfold getAccessToken, saveAccessToken.
    apply lookup_insert_ne. intros Heq. apply Hne. symmetry.
    by apply string_app_inv_tail in Heq. }
  split_and!.
  - apply Hsame.
  - apply Hother.
  - intros Ht. unfold getStravaActivities, getFitbitDailyActivity.
    rewrite !Hsame. cbn zeta. by rewrite truthy_id_Some.
  - unfold getStravaActivities, getAccessToken, saveAccessToken.
    by rewrite lookup_insert_eq.
  - unfold getFitbitDailyActivity, getAccessToken, saveAccessToken.
    by rewrite lookup_insert_eq.
  - unfold getStravaActivities. by rewrite Hother.
  - unfold getFitbitDailyActivity. by rewrite Hother.
Qed.

(** X24. No token, no sync.  Without a usable Fitbit token, and without
    a usable Strava token or for a challenge that is neither running nor
    cycling, syncChallengeProgress reports failure and writes nothing,
    whatever the services would answer: a Strava connection alone does
    not serve a yoga or strength challenge.  When the challenge exists
    the message is the one that asks to connect the fitness apps. *)
Theorem sync_needs_a_token (now : Z) (cid : string)
    (stravaApi : string → option (list StravaActivity))
    (fitbitApi : string → option FitbitDaily)
    (localStorage : gmap string string) (s : Store) :
  truthy_id (getAccessToken "fitbit" localStorage) = false →
  (truthy_id (getAccessToken "strava" localStorage) = false ∨
   ∀ challenge, getChallengeById cid s = Some challenge →
     category challenge ≠ RUNNING ∧ category challenge ≠ CYCLING) →
  let r := syncFromTokens now cid stravaApi fitbitApi localStorage s in
  sync_success (fst r) = false ∧
  snd r = s ∧
  sync_syncedData (fst r) = None ∧
  (is_Some (getChallengeById cid s) → sync_message (fst r) = msg_nothing_to_sync).
Proof.
  intros Hfit Hstrava r. subst r.
  unfold syncFromTokens, syncChallengeProgress.
  destruct (getChallengeById cid s) as [c|] eqn:Hc.
  - assert (hasSyncedData
              (collectSyncedData c (getStravaActivities stravaApi localStorage)
                 (getFitbitDailyActivity fitbitApi localStorage)) = false) as Hnone.
    { unfold hasSyncedData, collectSyncedData, getFitbitDailyActivity.
      cbn [strava fitbit]. rewrite Hfit. cbn.
      destruct Hstrava as [Hs|Hcat].
      - unfold getStravaActivities. rewrite Hs. cbn. by destruct (_ || _).
      - destruct (Hcat c eq_refl) as [Hr Hy].
        by rewrite !bool_decide_eq_false_2. }
    rewrite Hnone. done.
  - by split_and!.
Qed.

Lemma sync_needs_a_token_witness :
  let r := syncFromTokens 2000 "2" stravaAnswers fitbitAnswers stravaOnly joinedOnce in
  sync_success (fst r) = false ∧
  snd r = joinedOnce ∧
  sync_syncedData (fst r) = None ∧
  (is_Some (getChallengeById "2" joinedOnce) → sync_message (fst r) = msg_nothing_to_sync).
Proof.
  apply (sync_needs_a_token 2000 "2" stravaAnswers fitbitAnswers stravaOnly joinedOnce).
  - by vm_compute.
  - right. intros challenge [= <-]. by vm_compute.
Defined.

End Tokens.
